(** * Data analyst agent: parser, provider client, sandbox executor, orchestrator

    A shallow embedding of the core of the analyst agent:
    - [llm_parser.py]: the tolerant response parser ([LLMParser]);
    - [utils/llm_clients.py]: the circuit breaker and the provider calls;
    - [utils/code_executor.py]: the sandboxed script runner;
    - [llm_orchestrator.py]: the per-provider feedback loop and the fallback.

    Python strings are sequences of Unicode code points, numbers of type [N].
    Library behaviour the code relies on ([str.strip], [json.loads],
    [re.search]) is written out as executable functions. *)

From Stdlib Require Import List ZArith NArith Lia Bool String Ascii.
From Stdlib Require Import DecimalString.
Import ListNotations.

Local Open Scope N_scope.

(** ** Python strings and values *)

Module Py.

Definition char := N.
Definition pystr := list char.

(** A source-level literal, character by character. *)
Fixpoint lit (s : string) : pystr :=
  match s with
  | EmptyString => []
  | String a r => N_of_ascii a :: lit r
  end.

(** The double quote character. *)
Definition dq : char := 34.

(** [quoted s] is the text of [s] between two double quotes. *)
Definition quoted (s : pystr) : pystr := dq :: s ++ [dq].

Fixpoint str_eqb (a b : pystr) : bool :=
  match a, b with
  | [], [] => true
  | x :: a', y :: b' => (x =? y) && str_eqb a' b'
  | _, _ => false
  end.

(** [str.isspace] on one code point: the characters [str.strip()] removes
    and the regular expression class [\s] matches. *)
Definition isspace (c : char) : bool :=
  ((9 <=? c) && (c <=? 13)) || ((28 <=? c) && (c <=? 32))
  || (c =? 133) || (c =? 160) || (c =? 5760)
  || ((8192 <=? c) && (c <=? 8202))
  || (c =? 8232) || (c =? 8233) || (c =? 8239) || (c =? 8287) || (c =? 12288).

Fixpoint lstrip_by (p : char -> bool) (s : pystr) : pystr :=
  match s with
  | [] => []
  | c :: r => if p c then lstrip_by p r else s
  end.

Definition rstrip_by (p : char -> bool) (s : pystr) : pystr :=
  rev (lstrip_by p (rev s)).

(** The first character, if any, is outside the class [p]. *)
Definition head_kept (p : char -> bool) (l : pystr) : Prop :=
  match l with
  | [] => True
  | c :: _ => p c = false
  end.

(** [s.strip()] *)
Definition strip (s : pystr) : pystr := rstrip_by isspace (lstrip_by isspace s).

Definition in_chars (cs : pystr) (c : char) : bool := existsb (N.eqb c) cs.

(** [s.lstrip(cs)] and [s.rstrip(cs)] *)
Definition lstrip_chars (cs s : pystr) : pystr := lstrip_by (in_chars cs) s.
Definition rstrip_chars (cs s : pystr) : pystr := rstrip_by (in_chars cs) s.

Fixpoint startswith (s pre : pystr) : bool :=
  match pre, s with
  | [], _ => true
  | p :: pre', c :: s' => (c =? p) && startswith s' pre'
  | _ :: _, [] => false
  end.

Definition endswith (s suf : pystr) : bool := startswith (rev s) (rev suf).

(** [s.lower()], on the letters A to Z.  The only use is a comparison with
    an ASCII literal, and no other code point lowers to an ASCII letter. *)
Definition lower_char (c : char) : char :=
  if (65 <=? c) && (c <=? 90) then c + 32 else c.
Definition lower (s : pystr) : pystr := map lower_char s.

(** [sep.join(parts)] *)
Fixpoint join (sep : pystr) (parts : list pystr) : pystr :=
  match parts with
  | [] => []
  | [p] => p
  | p :: rest => p ++ sep ++ join sep rest
  end.

(** [s[:-n]] *)
Definition drop_last (n : nat) (s : pystr) : pystr :=
  firstn (List.length s - n) s.

(** Values as [json.loads] builds them.  A float keeps the text it was read
    from; its arithmetic is never used. *)
#[warnings="-register-all"]
Inductive value : Type :=
  | PNone
  | PBool (b : bool)
  | PInt (z : Z)
  | PFloat (lexeme : pystr)
  | PStr (s : pystr)
  | PList (l : list value)
  | PDict (d : list (pystr * value)).

(** Dictionaries keep insertion order; a key set again keeps its place and
    takes the new value. *)
Fixpoint dict_set {A : Type} (d : list (pystr * A)) (k : pystr) (v : A)
  : list (pystr * A) :=
  match d with
  | [] => [(k, v)]
  | (k', v') :: r =>
      if str_eqb k' k then (k, v) :: r else (k', v') :: dict_set r k v
  end.

Fixpoint dict_get {A : Type} (d : list (pystr * A)) (k : pystr) : option A :=
  match d with
  | [] => None
  | (k', v) :: r => if str_eqb k' k then Some v else dict_get r k
  end.

Definition dict_has {A : Type} (d : list (pystr * A)) (k : pystr) : bool :=
  match dict_get d k with Some _ => true | None => false end.

Definition dict_keys {A : Type} (d : list (pystr * A)) : list pystr :=
  map fst d.

(** Decimal text of an integer, as [str(int)] prints it. *)
Definition str_of_Z (z : Z) : pystr :=
  lit (NilZero.string_of_int (Z.to_int z)).

(** What the interpreter decides and the code does not: the [repr] of a
    float and of a string (quote choice and escapes). *)
Class Runtime := {
  repr_float : pystr -> pystr;
  repr_str : pystr -> pystr
}.

Section Repr.
Context {RT : Runtime}.

(** [repr(v)] *)
Fixpoint repr (v : value) : pystr :=
  match v with
  | PNone => lit "None"
  | PBool true => lit "True"
  | PBool false => lit "False"
  | PInt z => str_of_Z z
  | PFloat x => repr_float x
  | PStr s => repr_str s
  | PList l => lit "[" ++ join (lit ", ") (map repr l) ++ lit "]"
  | PDict d =>
      lit "{"
      ++ join (lit ", ")
           (map (fun kv => repr_str (fst kv) ++ lit ": " ++ repr (snd kv)) d)
      ++ lit "}"
  end.

(** [str(v)] *)
Definition str (v : value) : pystr :=
  match v with
  | PStr s => s
  | _ => repr v
  end.

(** Truth value of an object, as [if v:] tests it. *)
Definition truthy (v : value) : bool :=
  match v with
  | PNone => false
  | PBool b => b
  | PInt z => negb (z =? 0)%Z
  | PFloat _ => true
  | PStr s => negb (str_eqb s [])
  | PList l => match l with [] => false | _ => true end
  | PDict d => match d with [] => false | _ => true end
  end.

End Repr.

End Py.

(** ** [json.loads] *)

Module Json.
Import Py.

(** JSON insignificant white space: space, tab, line feed, carriage return. *)
Definition is_ws (c : char) : bool :=
  (c =? 32) || (c =? 9) || (c =? 10) || (c =? 13).

Definition skip_ws (s : pystr) : pystr := lstrip_by is_ws s.

Definition is_digit (c : char) : bool := (48 <=? c) && (c <=? 57).

Definition hexval (c : char) : option N :=
  if is_digit c then Some (c - 48)
  else if (97 <=? c) && (c <=? 102) then Some (c - 87)
  else if (65 <=? c) && (c <=? 70) then Some (c - 55)
  else None.

Definition hex4 (a b c d : char) : option N :=
  match hexval a, hexval b, hexval c, hexval d with
  | Some x, Some y, Some z, Some w => Some (((x * 16 + y) * 16 + z) * 16 + w)
  | _, _, _, _ => None
  end.

Definition is_high_surrogate (u : N) : bool := (55296 <=? u) && (u <=? 56319).
Definition is_low_surrogate (u : N) : bool := (56320 <=? u) && (u <=? 57343).
Definition join_surrogates (hi lo : N) : N :=
  65536 + ((hi - 55296) * 1024 + (lo - 56320)).

(** The one-letter escapes after a backslash. *)
Definition simple_escape (e : char) : option char :=
  if e =? 34 then Some 34          (* quote *)
  else if e =? 92 then Some 92     (* backslash *)
  else if e =? 47 then Some 47     (* slash *)
  else if e =? 98 then Some 8      (* b *)
  else if e =? 102 then Some 12    (* f *)
  else if e =? 110 then Some 10    (* n *)
  else if e =? 114 then Some 13    (* r *)
  else if e =? 116 then Some 9     (* t *)
  else None.

(** The body of a string literal, after its opening quote (strict mode:
    a raw control character is an error).  Returns the decoded text and
    the input after the closing quote. *)
Fixpoint scanstring (s acc : pystr) {struct s} : option (pystr * pystr) :=
  match s with
  | [] => None
  | c :: r =>
    if c =? 34 then Some (rev acc, r)
    else if c =? 92 then
      match r with
      | [] => None
      | e :: r1 =>
        if e =? 117 then
          match r1 with
          | h1 :: h2 :: h3 :: h4 :: r2 =>
            match hex4 h1 h2 h3 h4 with
            | None => None
            | Some u =>
              if is_high_surrogate u then
                match r2 with
                | b :: v :: k1 :: k2 :: k3 :: k4 :: ((_ :: _) as r3) =>
                  if (b =? 92) && (v =? 117) then
                    match hex4 k1 k2 k3 k4 with
                    | None => None
                    | Some u2 =>
                      if is_low_surrogate u2
                      then scanstring r3 (join_surrogates u u2 :: acc)
                      else scanstring r2 (u :: acc)
                    end
                  else scanstring r2 (u :: acc)
                | _ => scanstring r2 (u :: acc)
                end
              else scanstring r2 (u :: acc)
            end
          | _ => None
          end
        else
          match simple_escape e with
          | Some x => scanstring r1 (x :: acc)
          | None => None
          end
      end
    else if c <? 32 then None
    else scanstring r (c :: acc)
  end.

Fixpoint span_digits (s : pystr) : pystr * pystr :=
  match s with
  | c :: r =>
      if is_digit c then let (ds, rest) := span_digits r in (c :: ds, rest)
      else ([], s)
  | [] => ([], [])
  end.

Definition Z_of_digits (ds : pystr) : Z :=
  fold_left (fun acc c => (acc * 10 + Z.of_N (c - 48))%Z) ds 0%Z.

(** Integer part: a single zero, or a non-zero digit and more digits. *)
Definition match_int (s : pystr) : option (pystr * pystr) :=
  match s with
  | c :: r =>
      if c =? 48 then Some ([c], r)
      else if (49 <=? c) && (c <=? 57)
           then let (ds, rest) := span_digits r in Some (c :: ds, rest)
           else None
  | [] => None
  end.

(** A dot and at least one digit, or nothing. *)
Definition match_frac (s : pystr) : pystr * pystr :=
  match s with
  | dot :: d :: r =>
      if (dot =? 46) && is_digit d
      then let (ds, rest) := span_digits r in (dot :: d :: ds, rest)
      else ([], s)
  | _ => ([], s)
  end.

(** An exponent mark, an optional sign and at least one digit, or nothing. *)
Definition match_exp (s : pystr) : pystr * pystr :=
  match s with
  | e :: r =>
      if (e =? 101) || (e =? 69) then
        let (sign, r1) :=
          match r with
          | g :: r' => if (g =? 45) || (g =? 43) then ([g], r') else ([], r)
          | [] => ([], r)
          end in
        match span_digits r1 with
        | ([], _) => ([], s)
        | (ds, rest) => (e :: sign ++ ds, rest)
        end
      else ([], s)
  | [] => ([], s)
  end.

Definition match_number (s : pystr) : option (value * pystr) :=
  let (neg, s1) :=
    match s with
    | c :: r => if c =? 45 then (true, r) else (false, s)
    | [] => (false, s)
    end in
  match match_int s1 with
  | None => None
  | Some (ip, r1) =>
      let (fp, r2) := match_frac r1 in
      let (ep, r3) := match_exp r2 in
      match fp, ep with
      | [], [] =>
          let z := Z_of_digits ip in
          Some (PInt (if neg then (- z)%Z else z), r3)
      | _, _ =>
          Some (PFloat ((if neg then [45] else []) ++ ip ++ fp ++ ep), r3)
      end
  end.

(** [strip_prefix s pre] is the input after [pre] when [s] starts with it. *)
Definition strip_prefix (s pre : pystr) : option pystr :=
  if startswith s pre then Some (skipn (List.length pre) s) else None.

(** One JSON term at the head of [s].  [fuel] bounds the number of nested
    calls; [loads] gives enough of it for the whole input. *)
Fixpoint scan_once (fuel : nat) (s : pystr) {struct fuel}
  : option (value * pystr) :=
  match fuel with
  | O => None
  | S f =>
    match s with
    | [] => None
    | c :: r =>
      if c =? 34 then
        match scanstring r [] with
        | Some (x, r') => Some (PStr x, r')
        | None => None
        end
      else if c =? 123 then
        match skip_ws r with
        | c1 :: r1 =>
            if c1 =? 125 then Some (PDict [], r1)
            else parse_members f (c1 :: r1) []
        | [] => None
        end
      else if c =? 91 then
        match skip_ws r with
        | c1 :: r1 =>
            if c1 =? 93 then Some (PList [], r1)
            else parse_items f (c1 :: r1) []
        | [] => None
        end
      else
        match strip_prefix s (lit "null"), strip_prefix s (lit "true"),
              strip_prefix s (lit "false"), strip_prefix s (lit "NaN"),
              strip_prefix s (lit "Infinity"),
              strip_prefix s (lit "-Infinity") with
        | Some r', _, _, _, _, _ => Some (PNone, r')
        | _, Some r', _, _, _, _ => Some (PBool true, r')
        | _, _, Some r', _, _, _ => Some (PBool false, r')
        | _, _, _, Some r', _, _ => Some (PFloat (lit "NaN"), r')
        | _, _, _, _, Some r', _ => Some (PFloat (lit "Infinity"), r')
        | _, _, _, _, _, Some r' => Some (PFloat (lit "-Infinity"), r')
        | _, _, _, _, _, _ => match_number s
        end
    end
  end

(** The elements of an array, from the first one to the closing bracket. *)
with parse_items (fuel : nat) (s : pystr) (acc : list value) {struct fuel}
  : option (value * pystr) :=
  match fuel with
  | O => None
  | S f =>
    match scan_once f s with
    | None => None
    | Some (v, r) =>
      match skip_ws r with
      | c :: r1 =>
          if c =? 93 then Some (PList (rev (v :: acc)), r1)
          else if c =? 44 then parse_items f (skip_ws r1) (v :: acc)
          else None
      | [] => None
      end
    end
  end

(** The members of an object, from the first key to the closing brace. *)
with parse_members (fuel : nat) (s : pystr) (acc : list (pystr * value))
  {struct fuel} : option (value * pystr) :=
  match fuel with
  | O => None
  | S f =>
    match s with
    | q :: r =>
      if q =? 34 then
        match scanstring r [] with
        | None => None
        | Some (key, r1) =>
          match skip_ws r1 with
          | colon :: r2 =>
            if colon =? 58 then
              match scan_once f (skip_ws r2) with
              | None => None
              | Some (v, r3) =>
                let acc' := dict_set acc key v in
                match skip_ws r3 with
                | c :: r4 =>
                    if c =? 125 then Some (PDict acc', r4)
                    else if c =? 44 then parse_members f (skip_ws r4) acc'
                    else None
                | [] => None
                end
              end
            else None
          | [] => None
          end
        end
      else None
    | [] => None
    end
  end.

(** Fuel that suffices for an input: every call below the top one has
    consumed at least one character of it. *)
Definition fuel_for (s : pystr) : nat := 2 * List.length s + 2.

(** [json.loads(s)] in an interpreter without limits: [None] stands for
    [JSONDecodeError].  [Limits.loads] below is the same scan under the
    limits of the interpreter (depth of recursion, digits of an integer),
    where it also raises [RecursionError] and [ValueError]. *)
Definition loads (s : pystr) : option value :=
  if startswith s [65279] then None
  else
    match scan_once (fuel_for s) (skip_ws s) with
    | Some (v, r) => match skip_ws r with [] => Some v | _ => None end
    | None => None
    end.

End Json.

(** ** [re.search] for the patterns of the code *)

Module Re.
Import Py.

(** Regular expressions as far as the code's patterns need them: single
    characters of a class, greedy repetition of a class, sequence,
    alternation and one capturing group. *)
Inductive re : Type :=
  | Eps
  | Chr (p : char -> bool)
  | Star (p : char -> bool)
  | Seq (a b : re)
  | Alt (a b : re)
  | Grp (a : re).

(** Greedy repetition with backtracking: the longest run first, then one
    character less at a time. *)
Fixpoint star {R : Type} (p : char -> bool) (s : pystr)
  (k : pystr -> option R) : option R :=
  match s with
  | c :: r =>
      if p c
      then match star p r k with Some x => Some x | None => k s end
      else k s
  | [] => k []
  end.

(** [run r s cap k] matches [r] at the head of [s] and hands the rest of the
    input and the text of group 1 to [k]; when [k] fails, the next way to
    match [r] is tried. *)
Fixpoint run (r : re) (s cap : pystr)
  (k : pystr -> pystr -> option pystr) : option pystr :=
  match r with
  | Eps => k s cap
  | Chr p =>
      match s with
      | c :: s' => if p c then k s' cap else None
      | [] => None
      end
  | Star p => star p s (fun s' => k s' cap)
  | Seq a b => run a s cap (fun s' cap' => run b s' cap' k)
  | Alt a b =>
      match run a s cap k with
      | Some x => Some x
      | None => run b s cap k
      end
  | Grp a =>
      run a s cap
        (fun s' _ => k s' (firstn (List.length s - List.length s') s))
  end.

(** [re.match(r, s)]: a match at the start of [s]; the result is the text
    of group 1. *)
Definition match_ (r : re) (s : pystr) : option pystr :=
  run r s [] (fun _ cap => Some cap).

(** [re.search(r, s)]: the leftmost start at which [r] matches. *)
Fixpoint search (r : re) (s : pystr) : option pystr :=
  match match_ r s with
  | Some g => Some g
  | None =>
      match s with
      | [] => None
      | _ :: s' => search r s'
      end
  end.

Definition only (c : char) : char -> bool := fun x => x =? c.
Definition except (c : char) : char -> bool := fun x => negb (x =? c).

Fixpoint text (s : pystr) : re :=
  match s with
  | [] => Eps
  | c :: r => Seq (Chr (only c)) (text r)
  end.

Fixpoint seq (rs : list re) : re :=
  match rs with
  | [] => Eps
  | r :: rest => Seq r (seq rest)
  end.

(** One or more characters of a class. *)
Definition plus (p : char -> bool) : re := Seq (Chr p) (Star p).

(** An object-like fragment that holds [key] with a quoted, non-empty value:
    brace, anything but a closing brace, the quoted key, a colon between
    optional white space, the quoted value (group 1), anything but a
    closing brace, closing brace. *)
Definition keyed_fragment (key : pystr) : re :=
  seq [ Chr (only 123); Star (except 125); text (quoted key);
        Star isspace; Chr (only 58); Star isspace;
        Chr (only dq); Grp (plus (except dq)); Chr (only dq);
        Star (except 125); Chr (only 125) ].

End Re.

(** ** llm_parser.py *)

Module LLMParser.
Import Py.

(** The dictionary [parse_response] returns, one field per key; the key
    [requires_followup] lives under [metadata]. *)
Record result : Type := {
  raw_response : pystr;
  type : pystr;
  content : value;
  code_blocks : list pystr;
  final_answer : value;
  analysis : value;
  delegation : value;
  requires_followup : bool
}.

Definition fence_trim : pystr := [10; 13; 32].

(** [_strip_backticks_if_needed] *)
Definition _strip_backticks_if_needed (text : pystr) : pystr :=
  match text with
  | [] => []
  | _ =>
    let t := strip text in
    let t :=
      if startswith (lower t) (lit "```json")
      then lstrip_chars fence_trim (skipn 7 t)
      else if startswith t (lit "```")
           then lstrip_chars fence_trim (skipn 3 t)
           else t in
    let t :=
      if endswith t (lit "```")
      then rstrip_chars fence_trim (drop_last 3 t)
      else t in
    strip t
  end.

Definition answer_re : Re.re := Re.keyed_fragment (lit "final answer").
Definition code_re : Re.re := Re.keyed_fragment (lit "code").
Definition analysis_re : Re.re := Re.keyed_fragment (lit "analysis").

Section Parse.
Context {RT : Runtime}.

(** The second and third tier of [parse_response]: the regular
    expressions on the stripped text, then the continuation default. *)
Definition parse_fallback (response text : pystr) : result :=
  match Re.search answer_re text with
  | Some val =>
      {| raw_response := response; type := lit "final_answer";
         content := PStr val; code_blocks := [];
         final_answer := PStr val; analysis := PNone; delegation := PNone;
         requires_followup := false |}
  | None =>
      let code_match := Re.search code_re text in
      let analysis_match := Re.search analysis_re text in
      match code_match with
      | Some code_val =>
          let analysis_val :=
            match analysis_match with Some a => PStr a | None => PNone end in
          {| raw_response := response; type := lit "code";
             content := PStr code_val; code_blocks := [code_val];
             final_answer := PNone; analysis := analysis_val;
             delegation := PNone; requires_followup := false |}
      | None =>
          {| raw_response := response; type := lit "continuation";
             content := PStr text; code_blocks := [];
             final_answer := PNone; analysis := PNone; delegation := PNone;
             requires_followup := true |}
      end
  end.

(** The normalisation of a ["code"] value into a list of strings. *)
Definition normalize_code (code_content : value) : list pystr :=
  match code_content with
  | PStr s => [s]
  | PList l => map str l
  | other => [str other]
  end.

(** [LLMParser.parse_response] *)
Definition parse_response (response : pystr) : result :=
  match strip response with
  | [] =>
      {| raw_response := response; type := lit "continuation";
         content := PStr []; code_blocks := [];
         final_answer := PNone; analysis := PNone; delegation := PNone;
         requires_followup := true |}
  | _ =>
    let text := strip response in
    let cleaned := _strip_backticks_if_needed text in
    match Json.loads cleaned with
    | Some (PDict parsed) =>
        match dict_get parsed (lit "final answer") with
        | Some fa =>
            {| raw_response := response; type := lit "final_answer";
               content := fa; code_blocks := [];
               final_answer := fa; analysis := PNone; delegation := PNone;
               requires_followup := false |}
        | None =>
            match dict_get parsed (lit "code") with
            | Some code_content =>
                let blocks := normalize_code code_content in
                {| raw_response := response; type := lit "code";
                   content := PStr (join [10; 10] blocks);
                   code_blocks := blocks;
                   final_answer := PNone;
                   analysis :=
                     match dict_get parsed (lit "analysis") with
                     | Some a => a
                     | None => PNone
                     end;
                   delegation := PNone; requires_followup := false |}
            | None => parse_fallback response text
            end
        end
    | _ => parse_fallback response text
    end
  end.

(** [parse_llm_response] *)
Definition parse_llm_response (text : pystr) : result := parse_response text.

End Parse.

End LLMParser.

(** ** The limits of the interpreter in [json.loads] and the parser *)

Module Limits.
Import Py.

(** What the interpreter allows: the longest decimal text [int] converts
    ([sys.get_int_max_str_digits()], 0 for no limit), and the number of
    nested calls left under the recursion limit when the scanner of
    [json.loads] starts, which depends on the depth of the calls around
    it.  The other calls of the parser (methods of [str], the cached
    regular expressions) nest a few calls only; the model gives them the
    room they need. *)
Class Interpreter := {
  int_max_str_digits : nat;
  recursion_room : nat
}.

(** The nested calls the construction of a [JSONDecodeError] takes in
    CPython 3.11: the call of the class, its [__init__], and
    [ValueError.__init__]. *)
Definition exception_cost : nat := 3.

(** The exceptions of [json.loads] that are no [JSONDecodeError]. *)
Inductive failure : Type :=
  | ValueError
  | RecursionError.

(** The outcome of a scan: a result; no value where one is expected (the
    scanner raises [StopIteration], which [raw_decode] turns into a
    [JSONDecodeError]); a [JSONDecodeError] raised on the spot; or one of
    the other exceptions. *)
Inductive scanned (A : Type) : Type :=
  | Parsed (a : A)
  | NoValue
  | DecodeError
  | Fatal (e : failure).
Arguments Parsed {A} a.
Arguments NoValue {A}.
Arguments DecodeError {A}.
Arguments Fatal {A} e.

(** A [JSONDecodeError] raised where [room] nested calls are left: without
    the room to construct it, the [RecursionError] is raised instead. *)
Definition decode_error {A : Type} (room : nat) : scanned A :=
  if Nat.leb exception_cost room then DecodeError else Fatal RecursionError.

(** A call that returns, or raises an exception it does not catch. *)
Inductive returned (A : Type) : Type :=
  | Returns (a : A)
  | Raises (e : failure).
Arguments Returns {A} a.
Arguments Raises {A} e.

Section Scanner.
Context {I : Interpreter}.

(** Whether [int] refuses a text of digits for its length. *)
Definition too_long (digits : pystr) : bool :=
  Nat.ltb 0 int_max_str_digits
  && Nat.ltb int_max_str_digits (List.length digits).

(** A number: as [Json.match_number], with the conversion of an integer
    that may raise. *)
Definition match_number (s : pystr) : scanned (value * pystr) :=
  let (neg, s1) :=
    match s with
    | c :: r => if c =? 45 then (true, r) else (false, s)
    | [] => (false, s)
    end in
  match Json.match_int s1 with
  | None => NoValue
  | Some (ip, r1) =>
      let (fp, r2) := Json.match_frac r1 in
      let (ep, r3) := Json.match_exp r2 in
      match fp, ep with
      | [], [] =>
          if too_long ip then Fatal ValueError
          else
            let z := Json.Z_of_digits ip in
            Parsed (PInt (if neg then (- z)%Z else z), r3)
      | _, _ =>
          Parsed (PFloat ((if neg then [45] else []) ++ ip ++ fp ++ ep), r3)
      end
  end.

(** One JSON term at the head of [s], as [Json.scan_once]; [room] is the
    number of nested calls that are left.  Entering a container takes
    one. *)
Fixpoint scan_once (fuel room : nat) (s : pystr) {struct fuel}
  : scanned (value * pystr) :=
  match fuel with
  | O => NoValue
  | S f =>
    match s with
    | [] => NoValue
    | c :: r =>
      if c =? 34 then
        match Json.scanstring r [] with
        | Some (x, r') => Parsed (PStr x, r')
        | None => decode_error room
        end
      else if c =? 123 then
        match room with
        | O => Fatal RecursionError
        | S room' =>
          match Json.skip_ws r with
          | c1 :: r1 =>
              if c1 =? 125 then Parsed (PDict [], r1)
              else parse_members f room' (c1 :: r1) []
          | [] => decode_error room'
          end
        end
      else if c =? 91 then
        match room with
        | O => Fatal RecursionError
        | S room' =>
          match Json.skip_ws r with
          | c1 :: r1 =>
              if c1 =? 93 then Parsed (PList [], r1)
              else parse_items f room' (c1 :: r1) []
          | [] => NoValue
          end
        end
      else
        match Json.strip_prefix s (lit "null"),
              Json.strip_prefix s (lit "true"),
              Json.strip_prefix s (lit "false"),
              Json.strip_prefix s (lit "NaN"),
              Json.strip_prefix s (lit "Infinity"),
              Json.strip_prefix s (lit "-Infinity") with
        | Some r', _, _, _, _, _ => Parsed (PNone, r')
        | _, Some r', _, _, _, _ => Parsed (PBool true, r')
        | _, _, Some r', _, _, _ => Parsed (PBool false, r')
        | _, _, _, Some r', _, _ => Parsed (PFloat (lit "NaN"), r')
        | _, _, _, _, Some r', _ => Parsed (PFloat (lit "Infinity"), r')
        | _, _, _, _, _, Some r' => Parsed (PFloat (lit "-Infinity"), r')
        | _, _, _, _, _, _ => match_number s
        end
    end
  end

(** The elements of an array, inside it. *)
with parse_items (fuel room : nat) (s : pystr) (acc : list value)
  {struct fuel} : scanned (value * pystr) :=
  match fuel with
  | O => NoValue
  | S f =>
    match scan_once f room s with
    | NoValue => NoValue
    | DecodeError => DecodeError
    | Fatal e => Fatal e
    | Parsed (v, r) =>
      match Json.skip_ws r with
      | c :: r1 =>
          if c =? 93 then Parsed (PList (rev (v :: acc)), r1)
          else if c =? 44
               then parse_items f room (Json.skip_ws r1) (v :: acc)
               else decode_error room
      | [] => decode_error room
      end
    end
  end

(** The members of an object, inside it. *)
with parse_members (fuel room : nat) (s : pystr)
  (acc : list (pystr * value)) {struct fuel} : scanned (value * pystr) :=
  match fuel with
  | O => NoValue
  | S f =>
    match s with
    | q :: r =>
      if q =? 34 then
        match Json.scanstring r [] with
        | None => decode_error room
        | Some (key, r1) =>
          match Json.skip_ws r1 with
          | colon :: r2 =>
            if colon =? 58 then
              match scan_once f room (Json.skip_ws r2) with
              | NoValue => NoValue
              | DecodeError => DecodeError
              | Fatal e => Fatal e
              | Parsed (v, r3) =>
                let acc' := dict_set acc key v in
                match Json.skip_ws r3 with
                | c :: r4 =>
                    if c =? 125 then Parsed (PDict acc', r4)
                    else if c =? 44
                         then parse_members f room (Json.skip_ws r4) acc'
                         else decode_error room
                | [] => decode_error room
                end
              end
            else decode_error room
          | [] => decode_error room
          end
        end
      else decode_error room
    | [] => decode_error room
    end
  end.

(** [json.loads(s)] with all it can raise.  The [JSONDecodeError] that
    [raw_decode] raises for a missing value is constructed one call above
    the scanner, the one [decode] raises for extra data two calls above
    it. *)
Definition loads (s : pystr) : scanned value :=
  if startswith s [65279] then DecodeError
  else
    match scan_once (Json.fuel_for s) recursion_room (Json.skip_ws s) with
    | Parsed (v, r) =>
        match Json.skip_ws r with
        | [] => Parsed v
        | _ => decode_error (recursion_room + 2)
        end
    | NoValue => decode_error (recursion_room + 1)
    | DecodeError => DecodeError
    | Fatal e => Fatal e
    end.

Context {RT : Runtime}.

(** [LLMParser.parse_response] with what escapes it: the handler catches
    [json.JSONDecodeError] only. *)
Definition parse_response (response : pystr) : returned LLMParser.result :=
  match strip response with
  | [] =>
      Returns
        {| LLMParser.raw_response := response;
           LLMParser.type := lit "continuation";
           LLMParser.content := PStr []; LLMParser.code_blocks := [];
           LLMParser.final_answer := PNone; LLMParser.analysis := PNone;
           LLMParser.delegation := PNone;
           LLMParser.requires_followup := true |}
  | _ =>
    let text := strip response in
    let cleaned := LLMParser._strip_backticks_if_needed text in
    match loads cleaned with
    | Fatal e => Raises e
    | Parsed (PDict parsed) =>
        match dict_get parsed (lit "final answer") with
        | Some fa =>
            Returns
              {| LLMParser.raw_response := response;
                 LLMParser.type := lit "final_answer";
                 LLMParser.content := fa; LLMParser.code_blocks := [];
                 LLMParser.final_answer := fa; LLMParser.analysis := PNone;
                 LLMParser.delegation := PNone;
                 LLMParser.requires_followup := false |}
        | None =>
            match dict_get parsed (lit "code") with
            | Some code_content =>
                let blocks := LLMParser.normalize_code code_content in
                Returns
                  {| LLMParser.raw_response := response;
                     LLMParser.type := lit "code";
                     LLMParser.content := PStr (join [10; 10] blocks);
                     LLMParser.code_blocks := blocks;
                     LLMParser.final_answer := PNone;
                     LLMParser.analysis :=
                       match dict_get parsed (lit "analysis") with
                       | Some a => a
                       | None => PNone
                       end;
                     LLMParser.delegation := PNone;
                     LLMParser.requires_followup := false |}
            | None => Returns (LLMParser.parse_fallback response text)
            end
        end
    | _ => Returns (LLMParser.parse_fallback response text)
    end
  end.

End Scanner.

End Limits.

(** ** The machine: state, the world outside, and effects *)

Module Machine.
Import Py.

Local Open Scope Z_scope.

(** Wall-clock time, in milliseconds. *)
Definition time := Z.
Definition seconds (n : Z) : time := 1000 * n.

(** Exceptions as far as the code tells them apart:
    [subprocess.TimeoutExpired], and any other [Exception] with the text
    [str(e)] gives. *)
Inductive exn : Type :=
  | TimeoutExpired
  | Error (msg : pystr).

Inductive outcome (A : Type) : Type :=
  | Ok (a : A)
  | Raise (e : exn).
Arguments Ok {A} a.
Arguments Raise {A} e.

(** What a child process does: it ends after [duration] with an exit status
    and its two output streams, or it cannot be started at all. *)
Inductive process : Type :=
  | Finished (duration : time) (returncode : Z) (stdout stderr : pystr)
  | NotStarted (msg : pystr).

(** Replies of the three provider SDKs. *)
Inductive gemini_reply : Type :=
  | GeminiRaises (msg : pystr)
  | GeminiResponse (text : option pystr)
      (** [resp.text] *)
      (candidates : option (outcome (list pystr))).
      (** [resp.candidates], and the texts of the parts of the first one,
          or the exception reading them raises *)

Inductive nvidia_reply : Type :=
  | NvidiaRaises (msg : pystr)
  | NvidiaStream (deltas : list (option pystr)).
      (** [delta.content] of every streamed chunk *)

Inductive openai_reply : Type :=
  | OpenAIRaises (msg : pystr)
  | OpenAIResponse (choices : list (option pystr)).
      (** [message.content] of every choice *)

(** The world outside the program.  Every interaction has a number, its
    position in the run; the world answers the [n]-th interaction. *)
Class World := {
  clock : nat -> time;
  (** [time.time()] *)
  py_hash : pystr -> pystr -> Z;
  (** [hash((prompt, model))] *)
  disk_ok : nat -> bool;
  (** whether the cache store serves the request or raises *)
  gemini_generate : nat -> pystr -> gemini_reply;
  nvidia_create : nat -> pystr -> nvidia_reply;
  openai_create : nat -> pystr -> openai_reply;
  urandom : nat -> N;
  (** [os.urandom(1)[0]] *)
  overdue : nat -> bool;
  (** whether a provider call outlasts the orchestrator's 60 seconds *)
  spawn : nat -> list pystr -> process;
  (** [subprocess.run(argv)] *)
  mkdtemp : nat -> outcome pystr;
  copy : nat -> pystr -> pystr -> outcome unit;
  write_text : nat -> pystr -> pystr -> outcome unit;
  uuid4_hex : nat -> pystr;
  stdlib_module_names : pystr -> bool;
  (** [sys.stdlib_module_names] *)
  process_error_text : list pystr -> Z -> pystr;
  (** [str(e)] of the [CalledProcessError] for a command and its status *)
  SANDBOX_IMAGE : pystr;
  CODE_EXEC_TIMEOUT : Z
}.

(** The trace of interactions, oldest first. *)
Inductive event : Type :=
  | EvClock (t : time)
  | EvCacheGet (key : pystr)
  | EvCacheSet (key value : pystr) (expire : Z)
  | EvRequest (provider prompt : pystr)
  | EvSleep (attempt base : Z) (rnd : N)
  | EvInvoke (api prompt : pystr)
  | EvRun (argv : list pystr)
  | EvMkdtemp
  | EvCopy (src dst : pystr)
  | EvWrite (path text : pystr)
  | EvUuid
  | EvRmtree (path : pystr).

(** [_Breaker] *)
Record _Breaker : Type := {
  failures : Z;
  threshold : Z;
  cooldown_sec : Z;
  block_until : time
}.

(** [_Breaker.__init__] with its default arguments *)
Definition new_Breaker : _Breaker :=
  {| failures := 0; threshold := 3; cooldown_sec := 120; block_until := 0 |}.

(** The mutable state of the process: the position in the run and the trace,
    the cache store (key to value and expiry time), the breakers of
    [LLMClient], the two globals of code_executor.py and the work
    directories that exist. *)
Record State : Type := {
  step : nat;
  log : list event;
  cache : list (pystr * (pystr * time));
  _breakers : list (pystr * _Breaker);
  _active_container : option pystr;
  _work_dir : option pystr;
  dirs : list pystr
}.

Definition set_cache (c : list (pystr * (pystr * time))) (st : State) : State :=
  {| step := step st; log := log st; cache := c; _breakers := _breakers st;
     _active_container := _active_container st; _work_dir := _work_dir st;
     dirs := dirs st |}.

Definition set_breakers (b : list (pystr * _Breaker)) (st : State) : State :=
  {| step := step st; log := log st; cache := cache st; _breakers := b;
     _active_container := _active_container st; _work_dir := _work_dir st;
     dirs := dirs st |}.

Definition set_active_container (c : option pystr) (st : State) : State :=
  {| step := step st; log := log st; cache := cache st;
     _breakers := _breakers st;
     _active_container := c; _work_dir := _work_dir st; dirs := dirs st |}.

Definition set_work_dir (w : option pystr) (st : State) : State :=
  {| step := step st; log := log st; cache := cache st;
     _breakers := _breakers st;
     _active_container := _active_container st; _work_dir := w;
     dirs := dirs st |}.

Definition set_dirs (d : list pystr) (st : State) : State :=
  {| step := step st; log := log st; cache := cache st;
     _breakers := _breakers st;
     _active_container := _active_container st; _work_dir := _work_dir st;
     dirs := d |}.

(** One interaction: the position advances and the event is recorded. *)
Definition record (e : event) (st : State) : State :=
  {| step := S (step st); log := log st ++ [e]; cache := cache st;
     _breakers := _breakers st;
     _active_container := _active_container st; _work_dir := _work_dir st;
     dirs := dirs st |}.

(** Computations: a state transformer that returns or raises. *)
Definition M (A : Type) : Type := State -> outcome A * State.

Definition ret {A : Type} (a : A) : M A := fun st => (Ok a, st).

Definition bind {A B : Type} (m : M A) (k : A -> M B) : M B :=
  fun st =>
    match m st with
    | (Ok a, st') => k a st'
    | (Raise e, st') => (Raise e, st')
    end.

Definition raise {A : Type} (e : exn) : M A := fun st => (Raise e, st).

(** [try: m except: handler] *)
Definition try_except {A : Type} (m : M A) (handler : exn -> M A) : M A :=
  fun st =>
    match m st with
    | (Ok a, st') => (Ok a, st')
    | (Raise e, st') => handler e st'
    end.

Definition get : M State := fun st => (Ok st, st).
Definition modify (f : State -> State) : M unit := fun st => (Ok tt, f st).

(** An interaction whose answer the world gives at the current position. *)
Definition interact {A : Type} (e : event) (answer : nat -> A) : M A :=
  fun st => (Ok (answer (step st)), record e st).

Definition lift {A : Type} (o : outcome A) : M A :=
  match o with Ok a => ret a | Raise e => raise e end.

Declare Scope monad_scope.
Delimit Scope monad_scope with monad.
Notation "x <- c ;; k" := (bind c (fun x => k))
  (at level 61, c at next level, right associativity) : monad_scope.
Notation "c ;; k" := (bind c (fun _ => k))
  (at level 61, right associativity) : monad_scope.

Section Primitives.
Context {W : World}.

(** [time.time()] *)
Definition time_time : M time :=
  fun st => let t := clock (step st) in (Ok t, record (EvClock t) st).

(** An interaction that may raise. *)
Definition attempt {A : Type} (e : event) (answer : nat -> outcome A) : M A :=
  fun st =>
    match answer (step st) with
    | Ok a => (Ok a, record e st)
    | Raise x => (Raise x, record e st)
    end.

End Primitives.

End Machine.

(** ** utils/cache.py and utils/llm_clients.py *)

Module Clients.
Import Py Machine.

Local Open Scope Z_scope.
Local Open Scope monad_scope.

Section Clients.
Context {W : World}.

(** [AnalystCache.get]: the stored value unless it has expired; a failure
    of the store is swallowed and reads as a miss. *)
Definition cache_get (key : pystr) : M (option pystr) :=
  fun st =>
    let n := step st in
    let st' := record (EvCacheGet key) st in
    if disk_ok n then
      match dict_get (cache st) key with
      | Some (v, expire_time) =>
          if clock n <? expire_time then (Ok (Some v), st') else (Ok None, st')
      | None => (Ok None, st')
      end
    else (Ok None, st').

(** [AnalystCache.set]: stores the value with its expiry time; a failure of
    the store is swallowed and reported as [False]. *)
Definition cache_set (key value : pystr) (expire : Z) : M bool :=
  fun st =>
    let n := step st in
    let st' := record (EvCacheSet key value expire) st in
    if disk_ok n
    then (Ok true,
          set_cache (dict_set (cache st) key (value, clock n + seconds expire))
            st')
    else (Ok false, st').

(** [_Breaker.record_success] *)
Definition record_success (b : _Breaker) : _Breaker :=
  {| failures := 0; threshold := threshold b; cooldown_sec := cooldown_sec b;
     block_until := 0 |}.

(** [_Breaker.record_failure] *)
Definition record_failure (b : _Breaker) : M _Breaker :=
  let f := failures b + 1 in
  if threshold b <=? f then
    t <- time_time ;;
    ret {| failures := f; threshold := threshold b;
           cooldown_sec := cooldown_sec b;
           block_until := t + seconds (cooldown_sec b) |}
  else
    ret {| failures := f; threshold := threshold b;
           cooldown_sec := cooldown_sec b; block_until := block_until b |}.

(** [_Breaker.is_open] *)
Definition is_open (b : _Breaker) : M bool :=
  t <- time_time ;;
  ret (t <? block_until b).

(** [_sleep_backoff]: the delay is floating-point arithmetic on the attempt
    number, the base and one random byte; the trace keeps the three. *)
Definition _sleep_backoff (attempt base : Z) : M unit :=
  fun st => (Ok tt, record (EvSleep attempt base (urandom (step st))) st).

(** The configuration [LLMClient.__init__] resolves: which SDK clients
    could be built, the model names, and the retry settings. *)
Record LLMClient : Type := {
  gemini_client : bool;
  openai_client : bool;
  nv_client : bool;
  gemini_model : pystr;
  openai_model : pystr;
  nvidia_model : pystr;
  per_provider_timeout : Z;
  max_retries : Z;
  backoff_base : Z
}.

(** The breakers [LLMClient.__init__] creates. *)
Definition init_breakers : list (pystr * _Breaker) :=
  [ (lit "gemini", new_Breaker); (lit "openai", new_Breaker);
    (lit "nvidia", new_Breaker) ].

Definition nonempty (o : option pystr) : option pystr :=
  match o with
  | Some (c :: r) => Some (c :: r)
  | _ => None
  end.

(** The [except Exception] branch of the three retry loops. *)
Definition on_failure (self : LLMClient) (attempt : Z) : M unit :=
  if attempt <=? max_retries self
  then _sleep_backoff attempt (backoff_base self)
  else ret tt.

(** The retry loop of [call_gemini]; [fuel] counts the iterations left,
    [attempt] is the counter of the source before its increment. *)
Fixpoint gemini_loop (self : LLMClient) (prompt cache_key : pystr)
  (fuel : nat) (attempt : Z) : M (option pystr) :=
  match fuel with
  | O => ret None
  | S fuel' =>
    let attempt := attempt + 1 in
    resp <- interact (EvRequest (lit "gemini") prompt)
              (fun n => gemini_generate n prompt) ;;
    match resp with
    | GeminiRaises _ =>
        on_failure self attempt ;;
        gemini_loop self prompt cache_key fuel' attempt
    | GeminiResponse text candidates =>
        match nonempty text, candidates with
        | Some t, _ =>
            cache_set cache_key t 900 ;; ret (Some t)
        | None, Some (Raise _) =>
            on_failure self attempt ;;
            gemini_loop self prompt cache_key fuel' attempt
        | None, Some (Ok parts) =>
            match strip (List.concat parts) with
            | [] => gemini_loop self prompt cache_key fuel' attempt
            | t => cache_set cache_key t 900 ;; ret (Some t)
            end
        | None, None => gemini_loop self prompt cache_key fuel' attempt
        end
    end
  end.

(** [LLMClient.call_gemini] *)
Definition call_gemini (self : LLMClient) (prompt : pystr)
  : M (option pystr) :=
  if negb (gemini_client self) then ret None
  else
    let cache_key :=
      lit "llm:gemini:" ++ str_of_Z (py_hash prompt (gemini_model self)) in
    cached <- cache_get cache_key ;;
    match nonempty cached with
    | Some c => ret (Some c)
    | None =>
        gemini_loop self prompt cache_key (Z.to_nat (max_retries self + 1)) 0
    end.

(** The texts of the streamed chunks that carry one. *)
Definition stream_text (deltas : list (option pystr)) : pystr :=
  strip (List.concat (map (fun d => match d with Some c => c | None => [] end)
                   deltas)).

Fixpoint nvidia_loop (self : LLMClient) (prompt cache_key : pystr)
  (fuel : nat) (attempt : Z) : M (option pystr) :=
  match fuel with
  | O => ret None
  | S fuel' =>
    let attempt := attempt + 1 in
    completion <- interact (EvRequest (lit "nvidia") prompt)
                    (fun n => nvidia_create n prompt) ;;
    match completion with
    | NvidiaRaises _ =>
        on_failure self attempt ;;
        nvidia_loop self prompt cache_key fuel' attempt
    | NvidiaStream deltas =>
        match stream_text deltas with
        | [] => nvidia_loop self prompt cache_key fuel' attempt
        | t => cache_set cache_key t 900 ;; ret (Some t)
        end
    end
  end.

(** [LLMClient.call_nvidia] *)
Definition call_nvidia (self : LLMClient) (prompt : pystr)
  : M (option pystr) :=
  if negb (nv_client self) then ret None
  else
    let cache_key :=
      lit "llm:nvidia:" ++ str_of_Z (py_hash prompt (nvidia_model self)) in
    cached <- cache_get cache_key ;;
    match nonempty cached with
    | Some c => ret (Some c)
    | None =>
        nvidia_loop self prompt cache_key (Z.to_nat (max_retries self + 1)) 0
    end.

Fixpoint openai_loop (self : LLMClient) (prompt cache_key : pystr)
  (fuel : nat) (attempt : Z) : M (option pystr) :=
  match fuel with
  | O => ret None
  | S fuel' =>
    let attempt := attempt + 1 in
    response <- interact (EvRequest (lit "openai") prompt)
                  (fun n => openai_create n prompt) ;;
    match response with
    | OpenAIRaises _ =>
        on_failure self attempt ;;
        openai_loop self prompt cache_key fuel' attempt
    | OpenAIResponse choices =>
        match choices with
        | Some (c :: r) :: _ =>
            cache_set cache_key (c :: r) 900 ;; ret (Some (c :: r))
        | _ => openai_loop self prompt cache_key fuel' attempt
        end
    end
  end.

(** [LLMClient.call_openai] *)
Definition call_openai (self : LLMClient) (prompt : pystr)
  : M (option pystr) :=
  if negb (openai_client self) then ret None
  else
    let cache_key :=
      lit "llm:openai:" ++ str_of_Z (py_hash prompt (openai_model self)) in
    cached <- cache_get cache_key ;;
    match nonempty cached with
    | Some c => ret (Some c)
    | None =>
        openai_loop self prompt cache_key (Z.to_nat (max_retries self + 1)) 0
    end.

(** [LLMClient.chat], the legacy entry point and the only code that
    consults the breakers.  It reads [self.total_budget], which nothing
    assigns: the call raises before it reaches its provider loop. *)
Definition chat (self : LLMClient) (task_prompt : pystr)
  (files : list (pystr * pystr)) : M pystr :=
  time_time ;;
  raise (Error (lit "'LLMClient' object has no attribute 'total_budget'")).

End Clients.

End Clients.

(** ** utils/code_executor.py *)

Module CodeExecutor.
Import Py Machine.

Local Open Scope Z_scope.
Local Open Scope monad_scope.

(** Line boundaries of [str.splitlines]. *)
Definition is_linebreak (c : char) : bool :=
  ((10 <=? c) && (c <=? 13))%N || ((28 <=? c) && (c <=? 30))%N
  || (c =? 133)%N || (c =? 8232)%N || (c =? 8233)%N.

Fixpoint splitlines_from (s cur : pystr) {struct s} : list pystr :=
  match s with
  | [] => match cur with [] => [] | _ => [rev cur] end
  | c :: r =>
      if (c =? 13)%N then
        match r with
        | c2 :: r' =>
            if (c2 =? 10)%N then rev cur :: splitlines_from r' []
            else rev cur :: splitlines_from r []
        | [] => rev cur :: splitlines_from r []
        end
      else if is_linebreak c then rev cur :: splitlines_from r []
      else splitlines_from r (c :: cur)
  end.

(** [s.splitlines()] *)
Definition splitlines (s : pystr) : list pystr := splitlines_from s [].

Definition is_module_char (c : char) : bool :=
  (((97 <=? c) && (c <=? 122)) || ((65 <=? c) && (c <=? 90))
   || ((48 <=? c) && (c <=? 57)) || (c =? 95) || (c =? 46))%N.

(** The import pattern: optional white space, [import] or [from], white
    space, and the dotted module name (group 1). *)
Definition import_pattern : Re.re :=
  Re.seq [ Re.Star isspace;
           Re.Alt (Re.text (lit "import")) (Re.text (lit "from"));
           Re.plus isspace; Re.Grp (Re.plus is_module_char) ].

(** [name.split('.')[0]] *)
Fixpoint before_dot (s : pystr) : pystr :=
  match s with
  | [] => []
  | c :: r => if (c =? 46)%N then [] else c :: before_dot r
  end.

Definition set_add (x : pystr) (xs : list pystr) : list pystr :=
  if existsb (str_eqb x) xs then xs else xs ++ [x].

Section Executor.
Context {W : World}.

(** [_extract_imports]: the set of imported root packages outside the
    standard library, here in the order of their first occurrence. *)
Definition _extract_imports (code : pystr) : list pystr :=
  fold_left
    (fun packages line =>
       match Re.match_ import_pattern line with
       | Some name =>
           let pkg := before_dot name in
           if stdlib_module_names pkg then packages else set_add pkg packages
       | None => packages
       end)
    (splitlines code) [].

(** [subprocess.run(argv, timeout=..., check=...)]: the exit status and the
    two captured streams. *)
Definition subprocess_run (argv : list pystr) (timeout : option Z)
  (check : bool) : M (Z * pystr * pystr) :=
  fun st =>
    let st' := record (EvRun argv) st in
    match spawn (step st) argv with
    | NotStarted msg => (Raise (Error msg), st')
    | Finished duration rc out err =>
        let late :=
          match timeout with
          | Some t => seconds t <? duration
          | None => false
          end in
        if late then (Raise TimeoutExpired, st')
        else if check && negb (rc =? 0)
             then (Raise (Error (process_error_text argv rc)), st')
             else (Ok (rc, out, err), st')
    end.

(** [shutil.rmtree(path, ignore_errors=True)] *)
Definition rmtree (path : pystr) : M unit :=
  fun st =>
    (Ok tt,
     set_dirs (filter (fun d => negb (str_eqb d path)) (dirs st))
       (record (EvRmtree path) st)).

(** [_cleanup_container] *)
Definition _cleanup_container : M unit :=
  st <- get ;;
  match _active_container st with
  | Some (c :: r) =>
      let name := c :: r in
      subprocess_run [lit "docker"; lit "stop"; name] None false ;;
      subprocess_run [lit "docker"; lit "rm"; name] None false ;;
      modify (set_active_container None)
  | _ => ret tt
  end ;;
  st <- get ;;
  match _work_dir st with
  | Some wd =>
      if existsb (str_eqb wd) (dirs st)
      then rmtree wd ;; modify (set_work_dir None)
      else ret tt
  | None => ret tt
  end.

(** [directory / name] *)
Definition path_join (directory name : pystr) : pystr :=
  if startswith name (lit "/") then name
  else directory ++ lit "/" ++ name.

Fixpoint copy_files (files : list (pystr * pystr)) (wd : pystr) : M unit :=
  match files with
  | [] => ret tt
  | (fname, fpath) :: rest =>
      let dst := path_join wd fname in
      attempt (EvCopy fpath dst) (fun n => copy n fpath dst) ;;
      copy_files rest wd
  end.

(** The branch of [run_code] that runs when no container is active: a new
    work directory with the uploaded files, and a new container on it. *)
Definition provision (uploaded_files : list (pystr * pystr)) : M unit :=
  wd <- attempt EvMkdtemp mkdtemp ;;
  modify (fun st => set_work_dir (Some wd) (set_dirs (wd :: dirs st) st)) ;;
  copy_files uploaded_files wd ;;
  hex <- interact EvUuid uuid4_hex ;;
  let name := lit "sandbox_" ++ firstn 8 hex in
  modify (set_active_container (Some name)) ;;
  subprocess_run
    [ lit "docker"; lit "run"; lit "-dit"; lit "--name"; name;
      lit "-v"; wd ++ lit ":/workspace"; lit "-w"; lit "/workspace";
      lit "--network"; lit "bridge"; SANDBOX_IMAGE; lit "bash" ]
    None true ;;
  ret tt.

(** The [code] argument: a string, or the list of blocks the orchestrator
    passes. *)
Inductive code_arg : Type :=
  | CodeStr (s : pystr)
  | CodeList (blocks : list pystr).

Definition exec_result (success : bool) (stdout stderr : pystr)
  : list (pystr * value) :=
  [ (lit "success", PBool success); (lit "stdout", PStr stdout);
    (lit "stderr", PStr stderr) ].

(** Steps 1 to 3 of [run_code]: the script file in the work directory,
    the installation of the imported packages, the execution in the
    container. *)
Definition execute_script (code : code_arg) : M (Z * pystr * pystr) :=
  st <- get ;;
  match _work_dir st, _active_container st with
  | Some wd, Some container =>
      let code_file := path_join wd (lit "script.py") in
      let code :=
        match code with
        | CodeList blocks => join [10; 10]%N blocks
        | CodeStr s => s
        end in
      attempt (EvWrite code_file code) (fun n => write_text n code_file code) ;;
      match _extract_imports code with
      | [] => ret tt
      | packages_to_install =>
          subprocess_run
            ([ lit "docker"; lit "exec"; container; lit "pip"; lit "install";
               lit "--no-cache-dir" ] ++ packages_to_install)
            (Some 60) false ;;
          ret tt
      end ;;
      subprocess_run
        [ lit "docker"; lit "exec"; container; lit "python";
          lit "script.py" ]
        (Some CODE_EXEC_TIMEOUT) false
  | _, _ =>
      raise (Error (lit "unsupported operand type(s) for /"))
  end.

(** The [try] block of [run_code] up to and including the run of the
    script: provisioning when no container is active, then steps 1 to 3. *)
Definition run_script (code : code_arg) (uploaded_files : list (pystr * pystr))
  : M (Z * pystr * pystr) :=
  st <- get ;;
  match _active_container st with
  | None => provision uploaded_files
  | Some _ => ret tt
  end ;;
  execute_script code.

(** [if not keep_container_open: _cleanup_container()] *)
Definition cleanup_unless (keep_container_open : bool) : M unit :=
  if keep_container_open then ret tt else _cleanup_container.

(** The [try] block of [run_code]. *)
Definition run_body (code : code_arg) (uploaded_files : list (pystr * pystr))
  (keep_container_open : bool) : M (list (pystr * value)) :=
  result <- run_script code uploaded_files ;;
  cleanup_unless keep_container_open ;;
  let '(rc, out, err) := result in
  ret (exec_result (rc =? 0) (strip out) (strip err)).

(** The dictionary an [except] branch returns. *)
Definition failure_result (e : exn) : list (pystr * value) :=
  match e with
  | TimeoutExpired => exec_result false [] (lit "Execution timed out.")
  | Error msg => exec_result false [] msg
  end.

(** [run_code] *)
Definition run_code (code : code_arg) (uploaded_files : list (pystr * pystr))
  (keep_container_open : bool) : M (list (pystr * value)) :=
  try_except (run_body code uploaded_files keep_container_open)
    (fun e =>
       cleanup_unless keep_container_open ;;
       ret (failure_result e)).

(** [CodeExecutor.run] with its default [keep_container_open=False] as the
    orchestrator calls it, and [CodeExecutor.cleanup]. *)
Definition run (code : code_arg) (uploaded_files : list (pystr * pystr))
  : M (list (pystr * value)) :=
  run_code code uploaded_files false.

Definition cleanup : M unit := _cleanup_container.

End Executor.

End CodeExecutor.

(** ** llm_orchestrator.py *)

Module LLMOrchestrator.
Import Py Machine.

Local Open Scope Z_scope.
Local Open Scope monad_scope.

Definition nl : pystr := [10%N].

(** The attributes [LLMOrchestrator.__init__] sets. *)
Record LLMOrchestrator : Type := {
  llm_client : Clients.LLMClient;
  max_iterations : Z;
  global_budget_sec : Z
}.

(** [LLMOrchestrator.__init__]: nine iterations, five minutes per API. *)
Definition new_orchestrator (client : Clients.LLMClient) : LLMOrchestrator :=
  {| llm_client := client; max_iterations := 9; global_budget_sec := 300 |}.

Section Orchestrator.
Context {RT : Runtime} {W : World}.

(** [_call_with_timeout]: the worker runs [fn(prompt)] to its end (leaving
    the [with] block waits for it); the caller gets [None] when the result
    was not there after the timeout, the result or the exception of [fn]
    otherwise.  The trace records the invocation under the name of the
    API. *)
Definition _call_with_timeout (api : pystr) (fn : pystr -> M (option pystr))
  (prompt : pystr) : M (option pystr) :=
  fun st =>
    let late := overdue (step st) in
    match fn prompt (record (EvInvoke api prompt) st) with
    | (Ok r, st') => (Ok (if late then None else r), st')
    | (Raise e, st') => if late then (Ok None, st') else (Raise e, st')
    end.

(** The chain of comparisons that picks the client method. *)
Definition provider (self : LLMOrchestrator) (api_name : pystr)
  : option (pystr -> M (option pystr)) :=
  if str_eqb api_name (lit "openai")
  then Some (Clients.call_openai (llm_client self))
  else if str_eqb api_name (lit "nvidia")
  then Some (Clients.call_nvidia (llm_client self))
  else if str_eqb api_name (lit "gemini")
  then Some (Clients.call_gemini (llm_client self))
  else None.

(** The dictionary of [parse_response] as a value. *)
Definition parsed_dict (p : LLMParser.result) : value :=
  PDict
    [ (lit "raw_response", PStr (LLMParser.raw_response p));
      (lit "type", PStr (LLMParser.type p));
      (lit "content", LLMParser.content p);
      (lit "code_blocks", PList (map PStr (LLMParser.code_blocks p)));
      (lit "final_answer", LLMParser.final_answer p);
      (lit "analysis", LLMParser.analysis p);
      (lit "delegation", LLMParser.delegation p);
      (lit "metadata",
       PDict [ (lit "requires_followup",
                PBool (LLMParser.requires_followup p)) ]) ].

(** [_build_feedback_prompt] *)
Definition _build_feedback_prompt (original_prompt : pystr)
  (history : list pystr) : pystr :=
  nl ++ lit "Original Question:" ++ nl
  ++ original_prompt ++ nl
  ++ nl
  ++ lit "Here is the full history of attempts so far:" ++ nl
  ++ join (nl ++ nl ++ lit "---" ++ nl ++ nl) history ++ nl
  ++ nl
  ++ lit "Now, based on this history, please either:" ++ nl
  ++ lit "1. Provide the **final answer** in JSON format: { "
  ++ quoted (lit "final answer") ++ lit ": ... }" ++ nl
  ++ lit "2. OR, if more work is needed, provide only the next incremental code block in the format: {"
  ++ quoted (lit "code") ++ lit ": <code to be executed>, " ++ nl
  ++ quoted (lit "analysis")
  ++ lit ": <brief description of further analysis made by you>}" ++ nl
  ++ nl
  ++ lit "But try to construct efficient code at once. " ++ nl
  ++ lit "And if the received input is satisfactory, try to analyze and give the final answer at the earliest according to the format mentioned previously."
  ++ nl.

(** The entry a code iteration appends to the history. *)
Definition history_entry (iteration : Z) (llm_output : pystr)
  (exec_results : list (pystr * value)) : pystr :=
  lit "Iteration " ++ str_of_Z iteration ++ nl
  ++ lit "Model output:" ++ nl ++ llm_output ++ nl ++ nl
  ++ lit "Execution Results:" ++ nl ++ repr (PDict exec_results) ++ nl.

(** The prompt after a reply that is neither an answer nor code. *)
Definition continuation_prompt (initial_prompt llm_output : pystr) : pystr :=
  initial_prompt ++ nl ++ nl ++ lit "Previous response:" ++ nl ++ llm_output
  ++ nl ++ nl ++ lit "Please provide the final answer or executable code.".

(** The dictionaries [_run_api_loop] and [feedback_loop] return. *)
Definition deadline_exceeded (api_name : pystr) : list (pystr * value) :=
  [ (lit "success", PBool false);
    (lit "error", PStr (lit "Global deadline exceeded for " ++ api_name));
    (lit "final_answer", PNone) ].

Definition unknown_api (api_name : pystr) : list (pystr * value) :=
  [ (lit "success", PBool false);
    (lit "error", PStr (lit "Unknown API: " ++ api_name)) ].

Definition returned_none (api_name : pystr) : list (pystr * value) :=
  [ (lit "success", PBool false);
    (lit "error", PStr (api_name ++ lit " API returned None")) ].

Definition succeeded (api_name : pystr) (iteration : Z)
  (parsed : LLMParser.result) (llm_output : pystr) : list (pystr * value) :=
  [ (lit "success", PBool true);
    (lit "final_answer", LLMParser.content parsed);
    (lit "api_used", PStr api_name);
    (lit "iterations", PInt iteration);
    (lit "parsed", parsed_dict parsed);
    (lit "raw_output", PStr llm_output) ].

Definition max_iterations_reached (self : LLMOrchestrator) (api_name : pystr)
  : list (pystr * value) :=
  [ (lit "success", PBool false);
    (lit "error",
     PStr (lit "Maximum iterations (" ++ str_of_Z (max_iterations self)
           ++ lit ") reached for " ++ api_name));
    (lit "final_answer", PNone) ].

Definition all_failed : list (pystr * value) :=
  [ (lit "success", PBool false);
    (lit "error",
     PStr (lit "All APIs (Gemini, Nvidia, OpenAI) failed to provide a response"));
    (lit "final_answer", PNone) ].

(** The [while] loop of [_run_api_loop]; [fuel] is the number of
    iterations the loop condition still admits, [iteration] the counter of
    the source. *)
Fixpoint api_loop (self : LLMOrchestrator) (api_name initial_prompt : pystr)
  (file_map : list (pystr * pystr)) (deadline : time)
  (fuel : nat) (history : list pystr) (current_prompt : pystr)
  (iteration : Z) : M (list (pystr * value)) :=
  match fuel with
  | O => ret (max_iterations_reached self api_name)
  | S fuel' =>
    now <- time_time ;;
    if deadline <=? now then ret (deadline_exceeded api_name)
    else
      let iteration := iteration + 1 in
      match provider self api_name with
      | None => ret (unknown_api api_name)
      | Some fn =>
        llm_output <- _call_with_timeout api_name fn current_prompt ;;
        match Clients.nonempty llm_output with
        | None => ret (returned_none api_name)
        | Some llm_output =>
          let parsed := LLMParser.parse_llm_response llm_output in
          if str_eqb (LLMParser.type parsed) (lit "final_answer") then
            ret (succeeded api_name iteration parsed llm_output)
          else if str_eqb (LLMParser.type parsed) (lit "code")
                  && negb (match LLMParser.code_blocks parsed with
                           | [] => true
                           | _ => false
                           end)
          then
            exec_results <-
              CodeExecutor.run
                (CodeExecutor.CodeList (LLMParser.code_blocks parsed))
                file_map ;;
            let history :=
              history ++ [history_entry iteration llm_output exec_results] in
            api_loop self api_name initial_prompt file_map deadline fuel'
              history (_build_feedback_prompt initial_prompt history)
              iteration
          else
            api_loop self api_name initial_prompt file_map deadline fuel'
              history (continuation_prompt initial_prompt llm_output)
              iteration
        end
      end
  end.

(** [LLMOrchestrator._run_api_loop] *)
Definition _run_api_loop (self : LLMOrchestrator)
  (api_name initial_prompt : pystr) (file_map : list (pystr * pystr))
  : M (list (pystr * value)) :=
  start <- time_time ;;
  let deadline := start + seconds (global_budget_sec self) in
  api_loop self api_name initial_prompt file_map deadline
    (Z.to_nat (max_iterations self)) [] initial_prompt 0.

Definition apis : list pystr := [lit "nvidia"; lit "gemini"; lit "openai"].

(** The [for] loop of [feedback_loop] over the APIs still to try. *)
Fixpoint try_apis (self : LLMOrchestrator) (todo : list pystr)
  (first_prompt : pystr) (file_map : list (pystr * pystr))
  : M (list (pystr * value)) :=
  match todo with
  | [] => ret all_failed
  | api :: rest =>
      result <- _run_api_loop self api first_prompt file_map ;;
      match dict_get result (lit "success") with
      | Some success =>
          if truthy success then ret result
          else try_apis self rest first_prompt file_map
      | None => raise (Error (lit "'success'"))
      end
  end.

(** [LLMOrchestrator.feedback_loop] *)
Definition feedback_loop (self : LLMOrchestrator) (first_prompt : pystr)
  (file_map : list (pystr * pystr)) : M (list (pystr * value)) :=
  try_apis self apis first_prompt file_map.

End Orchestrator.

End LLMOrchestrator.

(** ** Concrete inputs and worlds *)

Module Examples.
Import Py Machine.

(** A runtime that prints a float as it was read and a string between
    single quotes. *)
Definition plain_runtime : Runtime :=
  {| repr_float := fun x => x;
     repr_str := fun s => [39%N] ++ s ++ [39%N] |}.

(** The object with the single key [k] and the JSON text [v] as its value. *)
Definition obj1 (k v : pystr) : pystr :=
  lit "{" ++ quoted k ++ lit ": " ++ v ++ lit "}".

(** The four reference replies of the parser. *)
Definition reply_answer_4 : pystr :=
  obj1 (lit "final answer") (quoted (lit "4")).

Definition reply_code_print : pystr :=
  obj1 (lit "code") (quoted (lit "print(1)")).

Definition reply_code_list : pystr :=
  lit "{" ++ quoted (lit "code") ++ lit ": ["
  ++ quoted (lit "a") ++ lit "," ++ quoted (lit "b") ++ lit "], "
  ++ quoted (lit "analysis") ++ lit ":" ++ quoted (lit "x") ++ lit "}".

(** Two replies outside the invariant: an empty list of code, and a null
    answer. *)
Definition reply_code_empty : pystr := obj1 (lit "code") (lit "[]").
Definition reply_answer_null : pystr := obj1 (lit "final answer") (lit "null").

(** A reply that is no JSON and holds no fragment. *)
Definition reply_prose : pystr := lit "  Let me think about it. ".

Local Open Scope Z_scope.

(** A world in which the clock advances one second per interaction, the
    store works, and nothing is late; the providers and the child
    processes answer as given. *)
Definition make_world
  (gemini : nat -> pystr -> gemini_reply)
  (nvidia : nat -> pystr -> nvidia_reply)
  (openai : nat -> pystr -> openai_reply)
  (processes : nat -> list pystr -> process) : World :=
  {| clock := fun n => 1000 * Z.of_nat n;
     py_hash := fun prompt model => Z.of_nat (List.length prompt);
     disk_ok := fun _ => true;
     gemini_generate := gemini;
     nvidia_create := nvidia;
     openai_create := openai;
     urandom := fun _ => 0%N;
     overdue := fun _ => false;
     spawn := processes;
     mkdtemp := fun _ => Ok (lit "/tmp/sandbox_w");
     copy := fun _ _ _ => Ok tt;
     write_text := fun _ _ _ => Ok tt;
     uuid4_hex := fun _ => lit "0123456789abcdef0123456789abcdef";
     stdlib_module_names := fun m => str_eqb m (lit "os");
     process_error_text := fun _ _ => lit "non-zero exit status";
     SANDBOX_IMAGE := lit "python:3.11-slim";
     CODE_EXEC_TIMEOUT := 60 |}.

Definition no_gemini : nat -> pystr -> gemini_reply :=
  fun _ _ => GeminiRaises (lit "unavailable").
Definition no_nvidia : nat -> pystr -> nvidia_reply :=
  fun _ _ => NvidiaRaises (lit "unavailable").
Definition no_openai : nat -> pystr -> openai_reply :=
  fun _ _ => OpenAIRaises (lit "unavailable").

(** Every child process ends at once with status 0. *)
Definition quick : nat -> list pystr -> process :=
  fun _ _ => Finished 1000 0 [] [].

(** The script runs for 61 seconds, everything else ends at once. *)
Definition slow_script : nat -> list pystr -> process :=
  fun _ argv =>
    match argv with
    | [_; _; _; program; _] =>
        if str_eqb program (lit "python")
        then Finished 61000 0 [] []
        else Finished 1000 0 [] []
    | _ => Finished 1000 0 [] []
    end.

(** No provider answers; processes are quick. *)
Definition silent_world : World := make_world no_gemini no_nvidia no_openai quick.

(** No provider answers; the script outlasts its timeout. *)
Definition slow_world : World :=
  make_world no_gemini no_nvidia no_openai slow_script.

(** The state of a process that has just started. *)
Definition init_state : State :=
  {| step := 0; log := []; cache := [];
     _breakers := Clients.init_breakers;
     _active_container := None; _work_dir := None; dirs := [] |}.

Definition print_1 : CodeExecutor.code_arg :=
  CodeExecutor.CodeStr (lit "print(1)").

(** A client with all three SDKs at hand and the default settings. *)
Definition demo_client : Clients.LLMClient :=
  {| Clients.gemini_client := true;
     Clients.openai_client := true;
     Clients.nv_client := true;
     Clients.gemini_model := lit "gemini-2.5-flash";
     Clients.openai_model := lit "gpt-5";
     Clients.nvidia_model := lit "nvidia/llama-3.3-nemotron-super-49b-v1.5";
     Clients.per_provider_timeout := 30;
     Clients.max_retries := 2;
     Clients.backoff_base := 1000 |}.

Definition demo_orchestrator : LLMOrchestrator.LLMOrchestrator :=
  LLMOrchestrator.new_orchestrator demo_client.

Definition question : pystr := lit "What is 2+2?".

(** NVIDIA streams the answer object in two chunks. *)
Definition nvidia_answers : nat -> pystr -> nvidia_reply :=
  fun _ _ =>
    NvidiaStream
      [ Some (lit "{" ++ quoted (lit "final answer"));
        None;
        Some (lit ": " ++ quoted (lit "4") ++ lit "}") ].

(** NVIDIA answers at once; the other providers would raise. *)
Definition answer_world : World :=
  make_world no_gemini nvidia_answers no_openai quick.

(** Gemini returns a text on every request. *)
Definition gemini_answers : nat -> pystr -> gemini_reply :=
  fun _ _ => GeminiResponse (Some reply_answer_4) None.

Definition gemini_world : World :=
  make_world gemini_answers no_nvidia no_openai quick.

(** A state in which the breaker of Gemini is open: three failures, and
    blocked for a long time to come. *)
Definition open_breaker : _Breaker :=
  {| failures := 3; threshold := 3; cooldown_sec := 120;
     block_until := 1000000 |}.

Definition blocked_state : State :=
  {| step := 0; log := []; cache := [];
     _breakers :=
       [ (lit "gemini", open_breaker); (lit "openai", new_Breaker);
         (lit "nvidia", new_Breaker) ];
     _active_container := None; _work_dir := None; dirs := [] |}.

(** NVIDIA first asks for code to be run, then gives the answer. *)
Definition nvidia_code_then_answer : nat -> pystr -> nvidia_reply :=
  fun n _ =>
    if Nat.ltb n 5 then NvidiaStream [Some reply_code_print]
    else NvidiaStream [Some reply_answer_4].

(** Every child process prints a line with 1 and ends with status 0. *)
Definition prints_1 : nat -> list pystr -> process :=
  fun _ _ => Finished 10 0 (lit "1" ++ [10%N]) [].

Definition code_world : World :=
  make_world no_gemini nvidia_code_then_answer no_openai prints_1.

(** Four invocations of Gemini in a row. *)
Definition four_calls {W : World} : M (option pystr) :=
  bind (Clients.call_gemini demo_client question) (fun _ =>
  bind (Clients.call_gemini demo_client question) (fun _ =>
  bind (Clients.call_gemini demo_client question) (fun _ =>
  Clients.call_gemini demo_client question))).


(** CPython 3.11 with its default limits, where the top level of a script
    calls [LLMParser.parse_response]: integers of up to 4300 digits, and
    room for 994 nested calls when the scanner of [json.loads] starts. *)
Definition cpython : Limits.Interpreter :=
  {| Limits.int_max_str_digits := 4300; Limits.recursion_room := 994 |}.



End Examples.

(** ** Vocabulary of the specifications *)

Module Spec.
Import Py Machine.

Local Open Scope Z_scope.

(** Whatever [m] does, the state it starts from and the state it ends in
    are related by [R]. *)
Definition keeps {A : Type} (R : State -> State -> Prop) (m : M A) : Prop :=
  forall st o st', m st = (o, st') -> R st st'.

(** The trace has grown by events that satisfy [P]. *)
Definition grows (P : event -> Prop) (st st' : State) : Prop :=
  exists tr, log st' = log st ++ tr /\ Forall P tr.

(** Whatever [m] does, the trace grows by events that satisfy [P]. *)
Definition emits {A : Type} (P : event -> Prop) (m : M A) : Prop :=
  keeps (grows P) m.

(** What a provider call for [api] leaves in the trace: cache accesses,
    sleeps, and requests to that provider. *)
Definition client_event (api : pystr) (e : event) : Prop :=
  match e with
  | EvCacheGet _ | EvCacheSet _ _ _ | EvSleep _ _ _ => True
  | EvRequest provider _ => provider = api
  | _ => False
  end.

(** What the executor leaves in the trace. *)
Definition executor_event (e : event) : Prop :=
  match e with
  | EvRun _ | EvMkdtemp | EvCopy _ _ | EvWrite _ _ | EvUuid | EvRmtree _ =>
      True
  | _ => False
  end.

(** What one iteration of the feedback loop leaves after its invocation. *)
Definition body_event (api : pystr) (e : event) : Prop :=
  client_event api e \/ executor_event e.

(** What a whole attempt for [api] leaves in the trace. *)
Definition attempt_event (api : pystr) (e : event) : Prop :=
  match e with
  | EvClock _ => True
  | EvInvoke a _ => a = api
  | _ => body_event api e
  end.

Definition is_invoke (e : event) : bool :=
  match e with EvInvoke _ _ => true | _ => false end.

(** The number of provider invocations in a trace. *)
Definition invocations (tr : list event) : nat :=
  List.length (filter is_invoke tr).

(** The shape of the trace of the feedback loop for [api] under the
    deadline [d]: iterations that read the clock in time, invoke the
    provider and do their work, closed by the end of the loop, by a clock
    reading past the deadline, or by a reading in time with nothing
    invoked after it.  The number counts the invocations, the outcome is
    what the loop returns. *)
Inductive loop_trace (d : time) (api : pystr)
  : nat -> outcome (list (pystr * value)) -> list event -> Prop :=
  | LT_end (o : outcome (list (pystr * value))) : loop_trace d api O o []
  | LT_late (t : time) :
      d <= t ->
      loop_trace d api O (Ok (LLMOrchestrator.deadline_exceeded api))
        [EvClock t]
  | LT_idle (t : time) (o : outcome (list (pystr * value))) :
      t < d -> loop_trace d api O o [EvClock t]
  | LT_iter (t : time) (prompt : pystr) (body rest : list event) (n : nat)
      (o : outcome (list (pystr * value))) :
      t < d ->
      Forall (body_event api) body ->
      loop_trace d api n o rest ->
      loop_trace d api (S n) o
        (EvClock t :: EvInvoke api prompt :: body ++ rest).

(** The state of the executor between calls: a container that is recorded
    has a name, and a work directory that is recorded exists. *)
Definition session_ok (st : State) : Prop :=
  _active_container st <> Some []
  /\ forall wd, _work_dir st = Some wd -> In wd (dirs st).

(** The events that tear a session down: stopping and removing a
    container, and deleting a work directory. *)
Definition is_teardown (e : event) : bool :=
  match e with
  | EvRmtree _ => true
  | EvRun [program; verb; _] =>
      str_eqb program (lit "docker")
      && (str_eqb verb (lit "stop") || str_eqb verb (lit "rm"))
  | _ => false
  end.

Definition stop_event (container : pystr) : event :=
  EvRun [lit "docker"; lit "stop"; container].

Definition rm_event (container : pystr) : event :=
  EvRun [lit "docker"; lit "rm"; container].

(** From [st] to [st'] the session of [st] has been torn down, and nothing
    else has happened: its container stopped and removed, its work
    directory deleted, and both globals cleared. *)
Definition torn_down (st st' : State) : Prop :=
  _active_container st' = None
  /\ _work_dir st' = None
  /\ exists tr,
       log st' = log st ++ tr
       /\ Forall (fun e => is_teardown e = true) tr
       /\ (forall c, _active_container st = Some c ->
                     In (stop_event c) tr /\ In (rm_event c) tr)
       /\ (forall wd, _work_dir st = Some wd ->
                      In (EvRmtree wd) tr /\ ~ In wd (dirs st')).

(** From [st] to [st'] nothing has been torn down: no teardown event, no
    directory deleted, and a container that was active is active still. *)
Definition kept (st st' : State) : Prop :=
  grows (fun e => is_teardown e = false) st st'
  /\ (forall d, In d (dirs st) -> In d (dirs st'))
  /\ (forall c, _active_container st = Some c ->
                _active_container st' = Some c).

(** Whenever [m] returns, its result satisfies [Q]. *)
Definition returns {A : Type} (Q : A -> Prop) (m : M A) : Prop :=
  forall st a st', m st = (Ok a, st') -> Q a.

(** The dictionaries an attempt for [api] can return. *)
Definition attempt_result (self : LLMOrchestrator.LLMOrchestrator)
  (api : pystr) (r : list (pystr * value)) : Prop :=
  r = LLMOrchestrator.max_iterations_reached self api
  \/ r = LLMOrchestrator.deadline_exceeded api
  \/ r = LLMOrchestrator.unknown_api api
  \/ r = LLMOrchestrator.returned_none api
  \/ exists iteration parsed llm_output,
       r = LLMOrchestrator.succeeded api iteration parsed llm_output.

(** The names of the fields of a success. *)
Definition success_keys : list pystr :=
  [ lit "success"; lit "final_answer"; lit "api_used"; lit "iterations";
    lit "parsed"; lit "raw_output" ].

(** The names of the fields of the failure of all providers. *)
Definition failure_keys : list pystr :=
  [ lit "success"; lit "error"; lit "final_answer" ].

(** From [st] to [st'] the attempts for the listed APIs have run one after
    the other, and each has returned a failure. *)
Inductive failed_attempts {RT : Runtime} {W : World}
  (self : LLMOrchestrator.LLMOrchestrator) (prompt : pystr)
  (files : list (pystr * pystr)) : list pystr -> State -> State -> Prop :=
  | FA_nil (st : State) : failed_attempts self prompt files [] st st
  | FA_cons (api : pystr) (rest : list pystr) (st st1 st2 : State)
      (r : list (pystr * value)) :
      LLMOrchestrator._run_api_loop self api prompt files st = (Ok r, st1) ->
      dict_get r (lit "success") = Some (PBool false) ->
      failed_attempts self prompt files rest st1 st2 ->
      failed_attempts self prompt files (api :: rest) st st2.

(** The number of requests sent to a provider in a trace. *)
Definition requests_to (provider : pystr) (tr : list event) : nat :=
  List.length
    (filter (fun e => match e with
                      | EvRequest p _ => str_eqb p provider
                      | _ => false
                      end) tr).

(** The breakers as [LLMClient.__init__] creates them.  A run never has
    others: the provider calls, the feedback loop and the executor leave
    the breakers alone, and [chat], the one method that records a success
    or a failure, raises before it gets there. *)
Definition fresh_breakers (st : State) : Prop :=
  _breakers st = Clients.init_breakers.

(** From [st] to [st'] no breaker has changed. *)
Definition same_breakers (st st' : State) : Prop :=
  _breakers st' = _breakers st.







End Spec.

(** ** utils/validation.py *)

Module Validation.
Import Py.

(** [s.split(c)[0]]: the text before the first [c]. *)
Fixpoint before (c : char) (s : pystr) : pystr :=
  match s with
  | [] => []
  | x :: r => if x =? c then [] else x :: before c r
  end.

(** [s.split(c)[-1]]: the text after the last [c]. *)
Definition after_last (c : char) (s : pystr) : pystr :=
  rev (before c (rev s)).

(** The characters [re.sub] replaces by an underscore: the angle brackets,
    the colon, the double quote, the bar, the question mark and the star. *)
Definition reserved : pystr := lit "<>:" ++ [dq] ++ lit "|?*".

Definition sub_reserved (s : pystr) : pystr :=
  map (fun c => if in_chars reserved c then 95 else c) s.

(** [s.strip(cs)] *)
Definition strip_chars (cs s : pystr) : pystr :=
  rstrip_chars cs (lstrip_chars cs s).

(** [sanitize_filename], defined in utils/validation.py and once more, with
    the same body, in data_loader.py. *)
Definition sanitize_filename (filename : pystr) : pystr :=
  let filename := after_last 92 (after_last 47 filename) in
  let filename := sub_reserved filename in
  let filename := strip_chars (lit " .") filename in
  match filename with
  | [] => lit "untitled"
  | _ => filename
  end.

End Validation.

(** ** utils/llm_clients.py: the check of the legacy entry point *)

Module StrictJson.
Import Py.

(** [set(keys) == {k}] *)
Definition only_key (k : pystr) (keys : list pystr) : bool :=
  match keys with
  | [] => false
  | _ => forallb (str_eqb k) keys
  end.

Section Strict.
Context {I : Limits.Interpreter}.

(** [LLMClient._is_strict_json].  Like the parser it catches
    [json.JSONDecodeError] only: the other exceptions of [json.loads]
    escape it. *)
Definition _is_strict_json (text : pystr) : Limits.returned bool :=
  match strip text with
  | [] => Limits.Returns false
  | _ =>
    let t := strip text in
    if startswith t (lit "```") || endswith t (lit "```")
    then Limits.Returns false
    else
      match Limits.loads t with
      | Limits.Fatal e => Limits.Raises e
      | Limits.Parsed (PDict obj) =>
          let keys := dict_keys obj in
          if only_key (lit "final answer") keys then Limits.Returns true
          else
            Limits.Returns
              (existsb (str_eqb (lit "code")) keys
               && forallb (fun k => str_eqb k (lit "code")
                                    || str_eqb k (lit "analysis")) keys
               && match dict_get obj (lit "code") with
                  | Some (PStr _) => true
                  | _ => false
                  end)
      | _ => Limits.Returns false
      end
  end.

End Strict.

End StrictJson.

(** ** Further concrete inputs *)

Module Cases.
Import Py Machine Examples.

Local Open Scope Z_scope.

(** The state after a first call of Gemini that obtained the answer: the
    cache holds it. *)
Definition warm_state : State :=
  snd (Clients.call_gemini (W := gemini_world) demo_client question
         init_state).

(** The state after a run of print(1) that kept its container open: a
    session is at hand. *)
Definition session_state : State :=
  snd (CodeExecutor.run_code (W := silent_world) print_1 [] true init_state).

(** A script that imports a package outside the standard library. *)
Definition import_requests : CodeExecutor.code_arg :=
  CodeExecutor.CodeStr (lit "import requests" ++ [10%N] ++ lit "print(1)").

(** The installation of packages runs for 61 seconds, everything else ends
    at once. *)
Definition slow_pip : nat -> list pystr -> process :=
  fun _ argv =>
    match argv with
    | _ :: _ :: _ :: program :: _ =>
        if str_eqb program (lit "pip")
        then Finished 61000 0 [] []
        else Finished 1000 0 [] []
    | _ => Finished 1000 0 [] []
    end.

Definition slow_pip_world : World :=
  make_world no_gemini no_nvidia no_openai slow_pip.

End Cases.

(** ** Further vocabulary of the specifications *)

Module Props.
Import Py Machine.

Local Open Scope Z_scope.

(** A character that may stay in a file name: no path separator and none of
    the reserved characters. *)
Definition safe_char (c : char) : Prop :=
  c <> 47%N /\ c <> 92%N /\ in_chars Validation.reserved c = false.

(** A file name [sanitize_filename] has nothing to change in: not empty,
    made of safe characters, with neither a space nor a dot at either
    end. *)
Definition safe_name (s : pystr) : Prop :=
  s <> []
  /\ Forall safe_char s
  /\ head_kept (in_chars (lit " .")) s
  /\ head_kept (in_chars (lit " .")) (rev s).

(** A reply in a Markdown code fence: the opening fence with its language
    tag, the body on lines of its own, the closing fence. *)
Definition fenced (tag body : pystr) : pystr :=
  lit "```" ++ tag ++ [10%N] ++ body ++ [10%N] ++ lit "```".

(** The language tags [_strip_backticks_if_needed] knows: none, and [json]
    in any mix of upper and lower case. *)
Definition json_tag (tag : pystr) : Prop :=
  tag = [] \/ lower tag = lit "json".

(** A regular expression without a capturing group. *)
Fixpoint groupless (r : Re.re) : bool :=
  match r with
  | Re.Eps | Re.Chr _ | Re.Star _ => true
  | Re.Seq a b | Re.Alt a b => groupless a && groupless b
  | Re.Grp _ => false
  end.

(** A text a pattern of the parser can capture: at least one character,
    none of them a double quote. *)
Definition captured_text (v : pystr) : Prop :=
  v <> [] /\ Forall (fun c => c <> dq) v.

Definition is_request (e : event) : bool :=
  match e with EvRequest _ _ => true | _ => false end.

Definition is_sleep (e : event) : bool :=
  match e with EvSleep _ _ _ => true | _ => false end.

(** The number of events of a kind in a trace. *)
Definition count (kind : event -> bool) (tr : list event) : nat :=
  List.length (filter kind tr).

(** From [st] to [st'] the trace has grown by at most [r] requests and at
    most [s] sleeps. *)
Definition bounded (r s : nat) (st st' : State) : Prop :=
  exists tr,
    log st' = log st ++ tr
    /\ (count is_request tr <= r)%nat /\ (count is_sleep tr <= s)%nat.


(** [n] failures recorded in a row on a breaker. *)
Fixpoint fail_times {W : World} (n : nat) (b : _Breaker) : M _Breaker :=
  match n with
  | O => ret b
  | S n' => bind (Clients.record_failure b) (fail_times n')
  end.


(** The text of the script [run_code] writes. *)
Definition source_text (code : CodeExecutor.code_arg) : pystr :=
  match code with
  | CodeExecutor.CodeList blocks => join [10; 10]%N blocks
  | CodeExecutor.CodeStr s => s
  end.

(** A command run inside the container [c]. *)
Definition exec_in (c : pystr) (e : event) : Prop :=
  exists rest, e = EvRun (lit "docker" :: lit "exec" :: c :: rest).

(** The command that installs packages in the container [c]. *)
Definition pip_install (c : pystr) (packages : list pystr) : list pystr :=
  [ lit "docker"; lit "exec"; c; lit "pip"; lit "install";
    lit "--no-cache-dir" ] ++ packages.


(** Whenever [m] returns, the state it started from and the state it ends
    in are related by [R]. *)
Definition keeps_on_return {A : Type} (R : State -> State -> Prop) (m : M A)
  : Prop :=
  forall st a st', m st = (Ok a, st') -> R st st'.

(** The executor has no session: neither a container nor a work directory
    is recorded. *)
Definition idle (st : State) : Prop :=
  _active_container st = None /\ _work_dir st = None.

End Props.

(** ** Vocabulary for the limits of the interpreter *)

Module Bounds.
Import Py.






(** The scan with the limits and the scan without them agree wherever the
    first one raises nothing but a [JSONDecodeError]. *)
Definition agrees {A : Type} (x : Limits.scanned A) (y : option A) : Prop :=
  match x with
  | Limits.Parsed a => y = Some a
  | Limits.NoValue | Limits.DecodeError => y = None
  | Limits.Fatal _ => True
  end.





End Bounds.

(** * Properties of [json.loads] *)

Import Py.

Section JsonFuel.
Import Json.

Lemma lstrip_by_length (p : char -> bool) (s : pystr) :
  (List.length (lstrip_by p s) <= List.length s)%nat.
Proof.
  induction s as [|c r IH]; cbn; [lia|].
  destruct (p c); cbn; lia.
Qed.

Lemma skip_ws_length (s : pystr) :
  (List.length (skip_ws s) <= List.length s)%nat.
Proof. apply lstrip_by_length. Qed.

Lemma scanstring_length (n : nat) :
  forall s acc x r,
    (List.length s <= n)%nat ->
    scanstring s acc = Some (x, r) ->
    (List.length r < List.length s)%nat.
Proof.
  induction n as [|n IH]; intros s acc x r Hn H.
  - destruct s; [discriminate | cbn in Hn; lia].
  - destruct s as [|c s1]; [discriminate|].
    cbn [scanstring] in H. cbn [List.length] in *.
    repeat match type of H with
           | context [match ?t with _ => _ end] => destruct t eqn:?
           end;
      try discriminate;
      try (inversion H; subst; lia);
      try (apply IH in H; cbn [List.length] in *; lia).
Qed.

Lemma span_digits_length (s ds rest : pystr) :
  span_digits s = (ds, rest) -> (List.length rest <= List.length s)%nat.
Proof.
  revert ds rest. induction s as [|c r IH]; intros ds rest H; cbn in H.
  - inversion H; subst. cbn; lia.
  - destruct (is_digit c).
    + destruct (span_digits r) as [ds' rest'] eqn:E. inversion H; subst.
      specialize (IH _ _ eq_refl). cbn; lia.
    + inversion H; subst. cbn; lia.
Qed.

Lemma match_int_length (s ip r : pystr) :
  match_int s = Some (ip, r) -> (List.length r < List.length s)%nat.
Proof.
  unfold match_int. destruct s as [|c s1]; [discriminate|].
  destruct (c =? 48); [intros H; inversion H; subst; cbn; lia|].
  destruct ((49 <=? c) && (c <=? 57)); [|discriminate].
  destruct (span_digits s1) as [ds rest] eqn:E. intros H; inversion H; subst.
  apply span_digits_length in E. cbn; lia.
Qed.

Lemma match_frac_length (s fp r : pystr) :
  match_frac s = (fp, r) -> (List.length r <= List.length s)%nat.
Proof.
  unfold match_frac. destruct s as [|dot [|d s1]];
    try (intros H; inversion H; subst; cbn; lia).
  destruct ((dot =? 46) && is_digit d);
    [|intros H; inversion H; subst; cbn; lia].
  destruct (span_digits s1) as [ds rest] eqn:E. intros H; inversion H; subst.
  apply span_digits_length in E. cbn; lia.
Qed.

Lemma match_exp_length (s ep r : pystr) :
  match_exp s = (ep, r) -> (List.length r <= List.length s)%nat.
Proof.
  unfold match_exp. destruct s as [|e s1];
    [intros H; inversion H; subst; cbn; lia|].
  destruct ((e =? 101) || (e =? 69));
    [|intros H; inversion H; subst; cbn; lia].
  assert (Hs : forall (sign r1 : pystr),
             (List.length r1 <= List.length s1)%nat ->
             match span_digits r1 with
             | ([], _) => ([], e :: s1)
             | (ds, rest) => (e :: sign ++ ds, rest)
             end = (ep, r) ->
             (List.length r <= List.length (e :: s1))%nat).
  { intros sign r1 Hr1. destruct (span_digits r1) as [ds rest] eqn:E.
    apply span_digits_length in E.
    destruct ds; intros H; inversion H; subst; cbn; lia. }
  destruct s1 as [|g s2]; [apply (Hs [] []); cbn; lia|].
  destruct ((g =? 45) || (g =? 43));
    [apply (Hs [g] s2) | apply (Hs [] (g :: s2))]; cbn; lia.
Qed.

Lemma match_number_length (s : pystr) (v : value) (r : pystr) :
  match_number s = Some (v, r) -> (List.length r < List.length s)%nat.
Proof.
  unfold match_number.
  assert (Hs : forall (neg : bool) (s1 : pystr),
             (List.length s1 <= List.length s)%nat ->
             match match_int s1 with
             | None => None
             | Some (ip, r1) =>
                 let (fp, r2) := match_frac r1 in
                 let (ep, r3) := match_exp r2 in
                 match fp, ep with
                 | [], [] =>
                     let z := Z_of_digits ip in
                     Some (PInt (if neg then (- z)%Z else z), r3)
                 | _, _ =>
                     Some (PFloat ((if neg then [45] else []) ++ ip ++ fp
                                   ++ ep), r3)
                 end
             end = Some (v, r) ->
             (List.length r < List.length s)%nat).
  { intros neg s1 Hs1.
    destruct (match_int s1) as [[ip r1]|] eqn:Ei; [|discriminate].
    apply match_int_length in Ei.
    destruct (match_frac r1) as [fp r2] eqn:Ef. apply match_frac_length in Ef.
    destruct (match_exp r2) as [ep r3] eqn:Ee. apply match_exp_length in Ee.
    destruct fp, ep; intros H; inversion H; subst; lia. }
  destruct s as [|c s1]; [apply (Hs false []); cbn; lia|].
  destruct (c =? 45); [apply (Hs true s1) | apply (Hs false (c :: s1))];
    cbn; lia.
Qed.

Lemma startswith_length (s pre : pystr) :
  startswith s pre = true -> (List.length pre <= List.length s)%nat.
Proof.
  revert s. induction pre as [|p pre IH]; intros s H; cbn; [lia|].
  destruct s as [|c s1]; [discriminate|]. cbn in H.
  apply andb_true_iff in H. destruct H as [_ H]. apply IH in H. cbn; lia.
Qed.

Lemma strip_prefix_length (s pre r : pystr) :
  strip_prefix s pre = Some r ->
  (List.length r + List.length pre = List.length s)%nat.
Proof.
  unfold strip_prefix. destruct (startswith s pre) eqn:E; [|discriminate].
  intros H; inversion H; subst. apply startswith_length in E.
  rewrite length_skipn. lia.
Qed.

(** A term that is read with some fuel has consumed input, and is read
    the same with any fuel of at least twice the consumed length. *)
Lemma scan_fuel (f : nat) :
  (forall s v r,
      scan_once f s = Some (v, r) ->
      (List.length r < List.length s)%nat
      /\ forall g, (2 * (List.length s - List.length r) <= g)%nat ->
                   scan_once g s = Some (v, r))
  /\ (forall s acc v r,
         parse_items f s acc = Some (v, r) ->
         (List.length r < List.length s)%nat
         /\ forall g, (2 * (List.length s - List.length r) <= g)%nat ->
                      parse_items g s acc = Some (v, r))
  /\ (forall s acc v r,
         parse_members f s acc = Some (v, r) ->
         (List.length r < List.length s)%nat
         /\ forall g, (2 * (List.length s - List.length r) <= g)%nat ->
                      parse_members g s acc = Some (v, r)).
Proof.
  induction f as [|f (IH1 & IH2 & IH3)].
  { repeat split; intros; discriminate. }
  split; [|split].
  - (* scan_once *)
    intros s v r H. destruct s as [|c r0]; [discriminate|].
    cbn [scan_once] in H.
    destruct (c =? 34) eqn:Eq.
    { destruct (scanstring r0 []) as [[x r']|] eqn:Es; [|discriminate].
      inversion H; subst.
      pose proof (scanstring_length _ _ _ _ _ (le_n _) Es).
      split; [cbn [List.length]; lia|].
      intros g Hg. destruct g; [cbn [List.length] in Hg; lia|].
      cbn [scan_once]. rewrite Eq, Es. reflexivity. }
    destruct (c =? 123) eqn:Eb.
    { pose proof (skip_ws_length r0).
      destruct (skip_ws r0) as [|c1 r1] eqn:Ew; [discriminate|].
      destruct (c1 =? 125) eqn:Ec.
      - inversion H; subst. cbn [List.length] in *. split; [lia|].
        intros g Hg. destruct g; [lia|].
        cbn [scan_once]. rewrite Eq, Eb, Ew, Ec. reflexivity.
      - apply IH3 in H. destruct H as [Hl Hf]. cbn [List.length] in *.
        split; [lia|].
        intros g Hg. destruct g; [lia|].
        cbn [scan_once]. rewrite Eq, Eb, Ew, Ec. apply Hf.
        cbn [List.length]. lia. }
    destruct (c =? 91) eqn:Ea.
    { pose proof (skip_ws_length r0).
      destruct (skip_ws r0) as [|c1 r1] eqn:Ew; [discriminate|].
      destruct (c1 =? 93) eqn:Ec.
      - inversion H; subst. cbn [List.length] in *. split; [lia|].
        intros g Hg. destruct g; [lia|].
        cbn [scan_once]. rewrite Eq, Eb, Ea, Ew, Ec. reflexivity.
      - apply IH2 in H. destruct H as [Hl Hf]. cbn [List.length] in *.
        split; [lia|].
        intros g Hg. destruct g; [lia|].
        cbn [scan_once]. rewrite Eq, Eb, Ea, Ew, Ec. apply Hf.
        cbn [List.length]. lia. }
    assert (Hlen : (List.length r < List.length (c :: r0))%nat).
    { repeat match type of H with
             | context [strip_prefix ?a ?b] =>
                 let E := fresh "E" in
                 destruct (strip_prefix a b) eqn:E;
                   [apply strip_prefix_length in E; cbn [lit List.length] in E
                   | clear E]
             end;
        try (inversion H; subst; cbn [List.length] in *; lia).
      apply match_number_length in H. exact H. }
    split; [exact Hlen|].
    intros g Hg. destruct g; [lia|].
    cbn [scan_once]. rewrite Eq, Eb, Ea. exact H.
  - (* parse_items *)
    intros s acc v r H. cbn [parse_items] in H.
    destruct (scan_once f s) as [[v1 r1]|] eqn:E1; [|discriminate].
    apply IH1 in E1. destruct E1 as [L1 F1].
    pose proof (skip_ws_length r1).
    destruct (skip_ws r1) as [|c r2] eqn:Ew; [discriminate|].
    cbn [List.length] in *.
    destruct (c =? 93) eqn:Ec.
    { inversion H; subst. split; [lia|].
      intros g Hg. destruct g; [lia|].
      cbn [parse_items]. rewrite (F1 g) by lia. rewrite Ew, Ec.
      reflexivity. }
    destruct (c =? 44) eqn:Ecm; [|discriminate].
    pose proof (skip_ws_length r2).
    apply IH2 in H. destruct H as [L2 F2].
    split; [lia|].
    intros g Hg. destruct g; [lia|].
    cbn [parse_items]. rewrite (F1 g) by lia. rewrite Ew, Ec, Ecm.
    apply F2. lia.
  - (* parse_members *)
    intros s acc v r H. cbn [parse_members] in H.
    destruct s as [|q r0]; [discriminate|].
    destruct (q =? 34) eqn:Eq; [|discriminate].
    destruct (scanstring r0 []) as [[key r1]|] eqn:Es; [|discriminate].
    pose proof (scanstring_length _ _ _ _ _ (le_n _) Es).
    pose proof (skip_ws_length r1).
    destruct (skip_ws r1) as [|colon r2] eqn:Ew1; [discriminate|].
    destruct (colon =? 58) eqn:Ecol; [|discriminate].
    pose proof (skip_ws_length r2).
    destruct (scan_once f (skip_ws r2)) as [[v1 r3]|] eqn:E1; [|discriminate].
    apply IH1 in E1. destruct E1 as [L1 F1].
    pose proof (skip_ws_length r3).
    destruct (skip_ws r3) as [|c r4] eqn:Ew2; [discriminate|].
    cbn [List.length] in *.
    destruct (c =? 125) eqn:Ec.
    { inversion H; subst. split; [lia|].
      intros g Hg. destruct g; [lia|].
      cbn [parse_members]. rewrite Eq, Es, Ew1, Ecol.
      rewrite (F1 g) by lia. rewrite Ew2, Ec. reflexivity. }
    destruct (c =? 44) eqn:Ecm; [|discriminate].
    pose proof (skip_ws_length r4).
    apply IH3 in H. destruct H as [L2 F2].
    split; [lia|].
    intros g Hg. destruct g; [lia|].
    cbn [parse_members]. rewrite Eq, Es, Ew1, Ecol.
    rewrite (F1 g) by lia. rewrite Ew2, Ec, Ecm.
    apply F2. lia.
Qed.

(** The fuel [loads] gives is enough: more fuel reads the same. *)
Theorem loads_fuel_enough (s : pystr) (f : nat) :
  (fuel_for s <= f)%nat ->
  scan_once f (skip_ws s) = scan_once (fuel_for s) (skip_ws s).
Proof.
  intros Hf. pose proof (skip_ws_length s) as Hw. unfold fuel_for in *.
  destruct (scan_once (2 * List.length s + 2) (skip_ws s))
    as [[v r]|] eqn:E.
  - destruct (proj1 (scan_fuel _) _ _ _ E) as [_ F]. apply F. lia.
  - destruct (scan_once f (skip_ws s)) as [[v r]|] eqn:E'; [|reflexivity].
    destruct (proj1 (scan_fuel _) _ _ _ E') as [_ F].
    rewrite F in E by lia. discriminate.
Qed.

End JsonFuel.

(** * Properties of the parser *)

Section StripFacts.
Variable p : char -> bool.

Lemma lstrip_by_head_kept (s : pystr) : head_kept p (lstrip_by p s).
Proof.
  induction s as [|c r IH]; simpl; [exact I|].
  destruct (p c) eqn:E; [exact IH | simpl; exact E].
Qed.

Lemma lstrip_by_fixed (l : pystr) : head_kept p l -> lstrip_by p l = l.
Proof.
  destruct l as [|c r]; simpl; [reflexivity|].
  intros ->. reflexivity.
Qed.

Lemma lstrip_by_app_kept (l : pystr) (c : char) :
  p c = false -> exists l', lstrip_by p (l ++ [c]) = l' ++ [c].
Proof.
  intros Hc. induction l as [|x r IH]; simpl.
  - rewrite Hc. exists []. reflexivity.
  - destruct (p x).
    + exact IH.
    + exists (x :: r). reflexivity.
Qed.

Lemma rstrip_by_head_kept (l : pystr) :
  head_kept p l -> head_kept p (rstrip_by p l).
Proof.
  unfold rstrip_by. destruct l as [|c r]; simpl; [intros _; exact I|].
  intros Hc. destruct (lstrip_by_app_kept (rev r) c Hc) as [l' ->].
  rewrite rev_app_distr. simpl. exact Hc.
Qed.

Lemma rstrip_by_idem (l : pystr) :
  rstrip_by p (rstrip_by p l) = rstrip_by p l.
Proof.
  unfold rstrip_by. rewrite rev_involutive.
  rewrite (lstrip_by_fixed (lstrip_by p (rev l))); [reflexivity|].
  apply lstrip_by_head_kept.
Qed.

Lemma strip_by_idem (s : pystr) :
  rstrip_by p (lstrip_by p (rstrip_by p (lstrip_by p s)))
  = rstrip_by p (lstrip_by p s).
Proof.
  rewrite (lstrip_by_fixed (rstrip_by p (lstrip_by p s))).
  - apply rstrip_by_idem.
  - apply rstrip_by_head_kept, lstrip_by_head_kept.
Qed.

End StripFacts.

(** [s.strip().strip() == s.strip()] *)
Lemma strip_idem (s : pystr) : strip (strip s) = strip s.
Proof. unfold strip. apply strip_by_idem. Qed.

Section ParserFacts.
Import LLMParser.
Context {RT : Runtime}.

(** The result of the fall-back tiers does not depend on the text the
    caller keeps as [raw_response], apart from that field. *)
Lemma parse_fallback_fields (r1 r2 text : pystr) :
  let a := parse_fallback r1 text in
  let b := parse_fallback r2 text in
  type a = type b /\ content a = content b /\ code_blocks a = code_blocks b
  /\ final_answer a = final_answer b /\ analysis a = analysis b
  /\ requires_followup a = requires_followup b.
Proof.
  unfold parse_fallback.
  destruct (Re.search answer_re text); [cbn; tauto|].
  destruct (Re.search code_re text); cbn; tauto.
Qed.

(** Parsing the stripped text gives the fields parsing the reply gives. *)
Lemma parse_response_strip (response : pystr) :
  strip response <> [] ->
  let a := parse_response (strip response) in
  let b := parse_response response in
  type a = type b /\ content a = content b /\ code_blocks a = code_blocks b.
Proof.
  intros Hne. unfold parse_response. rewrite strip_idem.
  destruct (strip response) as [|c r] eqn:Es; [congruence|].
  destruct (Json.loads (_strip_backticks_if_needed (c :: r))) as [v|].
  - destruct v;
      try (pose proof (parse_fallback_fields (c :: r) response (c :: r));
           cbn zeta in *; tauto).
    destruct (dict_get d (lit "final answer")); [cbn; tauto|].
    destruct (dict_get d (lit "code")); [cbn; tauto|].
    pose proof (parse_fallback_fields (c :: r) response (c :: r)).
    cbn zeta in *; tauto.
  - pose proof (parse_fallback_fields (c :: r) response (c :: r)).
    cbn zeta in *; tauto.
Qed.

End ParserFacts.

(** * The parser under the limits of the interpreter *)

Section LimitAgreement.
Import Json Bounds.
Context {PY : Limits.Interpreter}.

Lemma agrees_decode_error {A : Type} (room : nat) :
  agrees (Limits.decode_error (A := A) room) None.
Proof.
  unfold Limits.decode_error.
  destruct (Nat.leb Limits.exception_cost room); reflexivity.
Qed.

Lemma match_number_agrees (s : pystr) :
  agrees (Limits.match_number s) (match_number s).
Proof.
  unfold Limits.match_number, match_number.
  match goal with
  | |- context [let (_, _) := ?p in _] => destruct p as [neg s1]
  end.
  destruct (match_int s1) as [[ip r1]|]; [|reflexivity].
  destruct (match_frac r1) as [fp r2].
  destruct (match_exp r2) as [ep r3].
  destruct fp, ep; try reflexivity.
  destruct (Limits.too_long ip); reflexivity.
Qed.

(** Where the scan with the limits gives a result or a decode error, the
    scan without them gives the same. *)
Lemma scan_agrees (f : nat) :
  (forall room s, agrees (Limits.scan_once f room s) (scan_once f s))
  /\ (forall room s acc,
         agrees (Limits.parse_items f room s acc) (parse_items f s acc))
  /\ (forall room s acc,
         agrees (Limits.parse_members f room s acc) (parse_members f s acc)).
Proof.
  induction f as [|f (IH1 & IH2 & IH3)].
  { repeat split; intros; reflexivity. }
  split; [|split].
  - intros room s. destruct s as [|c r]; [reflexivity|].
    cbn [Limits.scan_once scan_once].
    destruct (c =? 34).
    { destruct (scanstring r []) as [[x r']|];
        [reflexivity | apply agrees_decode_error]. }
    destruct (c =? 123).
    { destruct room as [|room']; [exact I|].
      destruct (skip_ws r) as [|c1 r1]; [apply agrees_decode_error|].
      destruct (c1 =? 125); [reflexivity | apply IH3]. }
    destruct (c =? 91).
    { destruct room as [|room']; [exact I|].
      destruct (skip_ws r) as [|c1 r1]; [reflexivity|].
      destruct (c1 =? 93); [reflexivity | apply IH2]. }
    repeat match goal with
           | |- context [strip_prefix ?a ?b] => destruct (strip_prefix a b)
           end; try reflexivity.
    apply match_number_agrees.
  - intros room s acc. cbn [Limits.parse_items parse_items].
    pose proof (IH1 room s) as H.
    destruct (Limits.scan_once f room s) as [[v r]| | |e]; cbn [agrees] in H;
      try (rewrite H; reflexivity); [|exact I].
    rewrite H.
    destruct (skip_ws r) as [|c r1]; [apply agrees_decode_error|].
    destruct (c =? 93); [reflexivity|].
    destruct (c =? 44); [apply IH2 | apply agrees_decode_error].
  - intros room s acc. cbn [Limits.parse_members parse_members].
    destruct s as [|q r]; [apply agrees_decode_error|].
    destruct (q =? 34); [|apply agrees_decode_error].
    destruct (scanstring r []) as [[key r1]|]; [|apply agrees_decode_error].
    destruct (skip_ws r1) as [|colon r2]; [apply agrees_decode_error|].
    destruct (colon =? 58); [|apply agrees_decode_error].
    pose proof (IH1 room (skip_ws r2)) as H.
    destruct (Limits.scan_once f room (skip_ws r2)) as [[v r3]| | |e];
      cbn [agrees] in H; try (rewrite H; reflexivity); [|exact I].
    rewrite H. cbv zeta.
    destruct (skip_ws r3) as [|c r4]; [apply agrees_decode_error|].
    destruct (c =? 125); [reflexivity|].
    destruct (c =? 44); [apply IH3 | apply agrees_decode_error].
Qed.

(** The fuel [loads] gives is enough with the limits too: no scan of a
    text stops for want of fuel, so more fuel reads the same. *)
Lemma limits_scan_fuel (f : nat) :
  (forall g room s,
      (2 * List.length s < f)%nat -> (2 * List.length s < g)%nat ->
      Limits.scan_once f room s = Limits.scan_once g room s)
  /\ (forall g room s acc,
         (2 * List.length s + 1 < f)%nat -> (2 * List.length s + 1 < g)%nat ->
         Limits.parse_items f room s acc = Limits.parse_items g room s acc)
  /\ (forall g room s acc,
         (2 * List.length s + 1 < f)%nat -> (2 * List.length s + 1 < g)%nat ->
         Limits.parse_members f room s acc
         = Limits.parse_members g room s acc).
Proof.
  induction f as [|f (IH1 & IH2 & IH3)].
  { repeat split; intros; lia. }
  split; [|split].
  - intros g room s Hf Hg. destruct g as [|g]; [lia|].
    destruct s as [|c r]; [reflexivity|].
    cbn [Limits.scan_once]. cbn [List.length] in *.
    destruct (c =? 34); [reflexivity|].
    destruct (c =? 123).
    { destruct room as [|room']; [reflexivity|].
      pose proof (skip_ws_length r) as Hw.
      destruct (skip_ws r) as [|c1 r1]; [reflexivity|].
      destruct (c1 =? 125); [reflexivity|].
      apply IH3; cbn [List.length] in *; lia. }
    destruct (c =? 91); [|reflexivity].
    destruct room as [|room']; [reflexivity|].
    pose proof (skip_ws_length r) as Hw.
    destruct (skip_ws r) as [|c1 r1]; [reflexivity|].
    destruct (c1 =? 93); [reflexivity|].
    apply IH2; cbn [List.length] in *; lia.
  - intros g room s acc Hf Hg. destruct g as [|g]; [lia|].
    cbn [Limits.parse_items]. rewrite (IH1 g room s) by lia.
    pose proof (proj1 (scan_agrees g) room s) as Ha.
    destruct (Limits.scan_once g room s) as [[v r]| | |e]; try reflexivity.
    cbn [agrees] in Ha. apply (proj1 (scan_fuel g)) in Ha.
    destruct Ha as [Hl _].
    pose proof (skip_ws_length r) as Hw.
    destruct (skip_ws r) as [|c r1]; [reflexivity|].
    destruct (c =? 93); [reflexivity|].
    destruct (c =? 44); [|reflexivity].
    pose proof (skip_ws_length r1).
    apply IH2; cbn [List.length] in *; lia.
  - intros g room s acc Hf Hg. destruct g as [|g]; [lia|].
    cbn [Limits.parse_members].
    destruct s as [|q r]; [reflexivity|].
    destruct (q =? 34); [|reflexivity].
    destruct (scanstring r []) as [[key r1]|] eqn:Es; [|reflexivity].
    pose proof (scanstring_length _ _ _ _ _ (le_n _) Es) as H1.
    pose proof (skip_ws_length r1) as Hw1.
    destruct (skip_ws r1) as [|colon r2]; [reflexivity|].
    destruct (colon =? 58); [|reflexivity].
    pose proof (skip_ws_length r2) as Hw2.
    cbn [List.length] in *.
    rewrite (IH1 g room (skip_ws r2)) by lia.
    pose proof (proj1 (scan_agrees g) room (skip_ws r2)) as Ha.
    destruct (Limits.scan_once g room (skip_ws r2)) as [[v r3]| | |e];
      try reflexivity.
    cbn [agrees] in Ha. apply (proj1 (scan_fuel g)) in Ha.
    destruct Ha as [Hl _]. cbv zeta.
    pose proof (skip_ws_length r3) as Hw3.
    destruct (skip_ws r3) as [|c r4]; [reflexivity|].
    destruct (c =? 125); [reflexivity|].
    destruct (c =? 44); [|reflexivity].
    pose proof (skip_ws_length r4).
    apply IH3; cbn [List.length] in *; lia.
Qed.

Theorem limits_fuel_enough (s : pystr) (room f : nat) :
  (fuel_for s <= f)%nat ->
  Limits.scan_once f room (skip_ws s)
  = Limits.scan_once (fuel_for s) room (skip_ws s).
Proof.
  intros Hf. pose proof (skip_ws_length s) as Hw. unfold fuel_for in *.
  apply (proj1 (limits_scan_fuel f)); lia.
Qed.

Lemma loads_agrees (s : pystr) : agrees (Limits.loads s) (loads s).
Proof.
  unfold Limits.loads, loads.
  destruct (startswith s [65279]); [reflexivity|].
  pose proof (proj1 (scan_agrees (fuel_for s)) Limits.recursion_room
                (skip_ws s)) as H.
  destruct (Limits.scan_once (fuel_for s) Limits.recursion_room (skip_ws s))
    as [[v r]| | |e]; cbn [agrees] in H; try rewrite H.
  - destruct (skip_ws r); [reflexivity | apply agrees_decode_error].
  - apply agrees_decode_error.
  - reflexivity.
  - exact I.
Qed.

End LimitAgreement.

Section LimitBounds.
Import Json Bounds.































Context {PY : Limits.Interpreter}.











Context {RT : Runtime}.





End LimitBounds.

Section ParserClaims.
Import LLMParser Examples.

(** C3. The four reference replies: the answer object yields a final answer
    with content 4; the code object yields the single block print(1); the
    object with a list of code yields the blocks a, b in that order and the
    analysis x; the empty reply yields a continuation that requires a
    follow-up. *)
Theorem C3_parser_reference_cases (RT : Runtime) :
  (type (parse_response reply_answer_4) = lit "final_answer"
   /\ content (parse_response reply_answer_4) = PStr (lit "4"))
  /\ (type (parse_response reply_code_print) = lit "code"
      /\ code_blocks (parse_response reply_code_print) = [lit "print(1)"])
  /\ (code_blocks (parse_response reply_code_list) = [lit "a"; lit "b"]
      /\ analysis (parse_response reply_code_list) = PStr (lit "x"))
  /\ (type (parse_response []) = lit "continuation"
      /\ requires_followup (parse_response []) = true).
Proof. vm_compute. repeat split; reflexivity. Qed.

(** C4, as stated, fails: an object whose code is the empty list parses
    to kind code with no code block, and an object whose final answer is
    null parses to kind final answer with the content None. *)
Lemma C4_counterexample :
  (type (parse_response (RT := plain_runtime) reply_code_empty) = lit "code"
   /\ code_blocks (parse_response (RT := plain_runtime) reply_code_empty) = [])
  /\ (type (parse_response (RT := plain_runtime) reply_answer_null)
      = lit "final_answer"
      /\ content (parse_response (RT := plain_runtime) reply_answer_null)
         = PNone).
Proof. vm_compute. repeat split; reflexivity. Qed.

Lemma normalize_code_empty (RT : Runtime) (v : value) :
  normalize_code v = [] -> v = PList [].
Proof.
  destruct v as [| | | | |l|]; cbn; try discriminate.
  destruct l; cbn; [reflexivity | discriminate].
Qed.

(** C4, amended.  A result of kind code has at least one code block unless
    the reply is a JSON object without a final answer whose code is the
    empty list; a result of kind final answer has a content other than None
    unless the reply is a JSON object whose final answer is null. *)
Theorem C4_parsed_invariant (RT : Runtime) (response : pystr) :
  let r := parse_response response in
  let cleaned := _strip_backticks_if_needed (strip response) in
  (type r = lit "code" -> code_blocks r = [] ->
   exists d, Json.loads cleaned = Some (PDict d)
             /\ dict_get d (lit "final answer") = None
             /\ dict_get d (lit "code") = Some (PList []))
  /\ (type r = lit "final_answer" -> content r = PNone ->
      exists d, Json.loads cleaned = Some (PDict d)
                /\ dict_get d (lit "final answer") = Some PNone).
Proof.
  cbv zeta. unfold parse_response.
  assert (Hfb : forall text,
             (type (parse_fallback response text) = lit "code" ->
              code_blocks (parse_fallback response text) = [] -> False)
             /\ (type (parse_fallback response text) = lit "final_answer" ->
                 content (parse_fallback response text) = PNone -> False)).
  { intros text. unfold parse_fallback.
    destruct (Re.search answer_re text); [cbn; split; discriminate|].
    destruct (Re.search code_re text); cbn; split; discriminate. }
  destruct (strip response) as [|c r] eqn:Es.
  { cbn. split; discriminate. }
  destruct (Json.loads (_strip_backticks_if_needed (c :: r))) as [v|] eqn:El;
    [ destruct v as [| | | | | |d] |];
    try solve [destruct (Hfb (c :: r)) as [H1 H2];
               split; intros Ht Hc; exfalso; auto].
  destruct (dict_get d (lit "final answer")) as [fa|] eqn:Ef.
  { cbn. split; [discriminate|]. intros _ ->. exists d. auto. }
  destruct (dict_get d (lit "code")) as [code|] eqn:Ec.
  { cbn. split; [|discriminate]. intros _ Hn.
    apply normalize_code_empty in Hn. subst code. exists d. auto. }
  destruct (Hfb (c :: r)) as [H1 H2].
  split; intros Ht Hc; exfalso; auto.
Qed.

(** The amended invariant at the reply whose code is the empty list. *)
Lemma C4_witness :
  exists d,
    Json.loads (_strip_backticks_if_needed (strip reply_code_empty))
    = Some (PDict d)
    /\ dict_get d (lit "final answer") = None
    /\ dict_get d (lit "code") = Some (PList []).
Proof.
  apply (proj1 (C4_parsed_invariant plain_runtime reply_code_empty));
    vm_compute; reflexivity.
Defined.

(** C9. Parsing is idempotent on continuations: when a reply parses to a
    continuation, its content is a string, and both that content and the
    raw text parse to a continuation again, with the same content. *)
Theorem C9_continuation_idempotent (RT : Runtime) (response : pystr) :
  type (parse_response response) = lit "continuation" ->
  exists text,
    content (parse_response response) = PStr text
    /\ type (parse_response text) = lit "continuation"
    /\ content (parse_response text) = PStr text
    /\ type (parse_response (raw_response (parse_response response)))
       = lit "continuation".
Proof.
  intros Hk.
  assert (Hraw : raw_response (parse_response response) = response).
  { unfold parse_response, parse_fallback.
    destruct (strip response); [reflexivity|].
    repeat match goal with
           | |- context [match ?x with _ => _ end] => destruct x
           end; reflexivity. }
  rewrite Hraw.
  destruct (strip response) as [|c r] eqn:Es.
  - exists []. unfold parse_response. rewrite Es.
    cbn. repeat split; reflexivity.
  - assert (Hne : strip response <> []) by (rewrite Es; discriminate).
    destruct (parse_response_strip response Hne) as (Ht & Hc & _).
    exists (strip response).
    assert (Hcont : content (parse_response response) = PStr (strip response)).
    { revert Hk. unfold parse_response. rewrite Es.
      assert (Hfb : type (parse_fallback response (c :: r))
                    = lit "continuation" ->
                    content (parse_fallback response (c :: r))
                    = PStr (c :: r)).
      { unfold parse_fallback.
        destruct (Re.search answer_re (c :: r)); [cbn; discriminate|].
        destruct (Re.search code_re (c :: r)); cbn;
          [discriminate | reflexivity]. }
      destruct (Json.loads (_strip_backticks_if_needed (c :: r))) as [v|];
        [destruct v as [| | | | | |d] |]; try exact Hfb.
      destruct (dict_get d (lit "final answer")); [cbn; discriminate|].
      destruct (dict_get d (lit "code")); [cbn; discriminate|].
      exact Hfb. }
    rewrite Ht, Hc. auto.
Qed.

(** The idempotence at a reply in prose. *)
Lemma C9_witness :
  exists text,
    content (parse_response (RT := plain_runtime) reply_prose) = PStr text
    /\ type (parse_response (RT := plain_runtime) text) = lit "continuation"
    /\ content (parse_response (RT := plain_runtime) text) = PStr text
    /\ type (parse_response (RT := plain_runtime)
               (raw_response
                  (parse_response (RT := plain_runtime) reply_prose)))
       = lit "continuation".
Proof.
  apply (C9_continuation_idempotent plain_runtime reply_prose).
  vm_compute. reflexivity.
Defined.




End ParserClaims.

(** * Properties of the effects *)

Import Machine Spec.

Section KeepsFacts.
Context {W : World}.
Variable R : State -> State -> Prop.
Hypothesis R_refl : forall st, R st st.
Hypothesis R_trans : forall a b c, R a b -> R b c -> R a c.

Lemma keeps_ret {A : Type} (a : A) : keeps R (ret a).
Proof. intros st o st' H. inversion H; subst. apply R_refl. Qed.

Lemma keeps_raise {A : Type} (e : exn) : keeps R (raise (A := A) e).
Proof. intros st o st' H. inversion H; subst. apply R_refl. Qed.

Lemma keeps_get : keeps R get.
Proof. intros st o st' H. inversion H; subst. apply R_refl. Qed.

Lemma keeps_lift {A : Type} (o : outcome A) : keeps R (lift o).
Proof. destruct o; [apply keeps_ret | apply keeps_raise]. Qed.

Lemma keeps_bind {A B : Type} (m : M A) (k : A -> M B) :
  keeps R m -> (forall a, keeps R (k a)) -> keeps R (bind m k).
Proof.
  intros Hm Hk st o st' H. unfold bind in H.
  destruct (m st) as [[a|e] st1] eqn:E.
  - eapply R_trans; [eapply Hm | eapply Hk]; eauto.
  - inversion H; subst. eapply Hm; eauto.
Qed.

Lemma keeps_try_except {A : Type} (m : M A) (h : exn -> M A) :
  keeps R m -> (forall e, keeps R (h e)) -> keeps R (try_except m h).
Proof.
  intros Hm Hh st o st' H. unfold try_except in H.
  destruct (m st) as [[a|e] st1] eqn:E.
  - inversion H; subst. eapply Hm; eauto.
  - eapply R_trans; [eapply Hm | eapply Hh]; eauto.
Qed.

End KeepsFacts.

Lemma keeps_modify {W : World} (R : State -> State -> Prop)
  (f : State -> State) :
  (forall st, R st (f st)) -> keeps R (modify f).
Proof. intros Hf st o st' H. inversion H; subst. apply Hf. Qed.

Lemma keeps_interact {W : World} (R : State -> State -> Prop) {A : Type}
  (e : event) (answer : nat -> A) :
  (forall st, R st (record e st)) -> keeps R (interact e answer).
Proof. intros He st o st' H. inversion H; subst. apply He. Qed.

Lemma keeps_attempt {W : World} (R : State -> State -> Prop) {A : Type}
  (e : event) (answer : nat -> outcome A) :
  (forall st, R st (record e st)) -> keeps R (attempt e answer).
Proof.
  intros He st o st' H. unfold attempt in H.
  destruct (answer (step st)); inversion H; subst; apply He.
Qed.

Lemma keeps_time_time {W : World} (R : State -> State -> Prop) :
  (forall t st, R st (record (EvClock t) st)) -> keeps R time_time.
Proof. intros He st o st' H. inversion H; subst. apply He. Qed.

Lemma grows_refl (P : event -> Prop) (st : State) : grows P st st.
Proof. exists []. rewrite app_nil_r. auto. Qed.

Lemma grows_trans (P : event -> Prop) (a b c : State) :
  grows P a b -> grows P b c -> grows P a c.
Proof.
  intros (t1 & L1 & F1) (t2 & L2 & F2).
  exists (t1 ++ t2). rewrite L2, L1, app_assoc.
  split; [reflexivity | apply Forall_app; auto].
Qed.

Lemma grows_record (P : event -> Prop) (e : event) (st : State) :
  P e -> grows P st (record e st).
Proof. intros He. exists [e]. split; [reflexivity | auto]. Qed.

Lemma grows_same_log (P : event -> Prop) (st st' : State) :
  log st' = log st -> grows P st st'.
Proof. intros E. exists []. rewrite app_nil_r. auto. Qed.

Lemma grows_weaken (P Q : event -> Prop) (st st' : State) :
  (forall e, P e -> Q e) -> grows P st st' -> grows Q st st'.
Proof.
  intros HPQ (tr & L & F). exists tr. split; [exact L|].
  eapply Forall_impl; eauto.
Qed.

Section EmitsFacts.
Context {W : World}.
Variable P : event -> Prop.

Lemma emits_ret {A : Type} (a : A) : emits P (ret a).
Proof. apply keeps_ret, grows_refl. Qed.

Lemma emits_raise {A : Type} (e : exn) : emits P (raise (A := A) e).
Proof. apply keeps_raise, grows_refl. Qed.

Lemma emits_get : emits P get.
Proof. apply keeps_get, grows_refl. Qed.

Lemma emits_modify (f : State -> State) :
  (forall st, log (f st) = log st) -> emits P (modify f).
Proof. intros Hf. apply keeps_modify. intros st. apply grows_same_log, Hf. Qed.

Lemma emits_lift {A : Type} (o : outcome A) : emits P (lift o).
Proof. apply keeps_lift, grows_refl. Qed.

Lemma emits_bind {A B : Type} (m : M A) (k : A -> M B) :
  emits P m -> (forall a, emits P (k a)) -> emits P (bind m k).
Proof. apply keeps_bind, grows_trans. Qed.

Lemma emits_try_except {A : Type} (m : M A) (h : exn -> M A) :
  emits P m -> (forall e, emits P (h e)) -> emits P (try_except m h).
Proof. apply keeps_try_except, grows_trans. Qed.

Lemma emits_interact {A : Type} (e : event) (answer : nat -> A) :
  P e -> emits P (interact e answer).
Proof. intros He. apply keeps_interact. intros st. apply grows_record, He. Qed.

Lemma emits_attempt {A : Type} (e : event) (answer : nat -> outcome A) :
  P e -> emits P (attempt e answer).
Proof. intros He. apply keeps_attempt. intros st. apply grows_record, He. Qed.

Lemma emits_time_time : (forall t, P (EvClock t)) -> emits P time_time.
Proof.
  intros He. apply keeps_time_time. intros t st. apply grows_record, He.
Qed.

End EmitsFacts.

Lemma emits_weaken {W : World} {A : Type} (P Q : event -> Prop) (m : M A) :
  (forall e, P e -> Q e) -> emits P m -> emits Q m.
Proof.
  intros HPQ Hm st o st' H. eapply grows_weaken; [exact HPQ|].
  eapply Hm; eauto.
Qed.

(** One step of a proof that a computation emits only events of a class:
    through binds, handlers and case distinctions down to the primitives. *)
Ltac emits_step :=
  match goal with
  | |- emits _ (ret _) => apply emits_ret
  | |- emits _ (raise _) => apply emits_raise
  | |- emits _ get => apply emits_get
  | |- emits _ (lift _) => apply emits_lift
  | |- emits _ (modify _) => apply emits_modify; intros; reflexivity
  | |- emits _ (bind _ _) => apply emits_bind; [|intros ?]
  | |- emits _ (try_except _ _) => apply emits_try_except; [|intros ?]
  | |- emits _ (interact _ _) => apply emits_interact
  | |- emits _ (attempt _ _) => apply emits_attempt
  | |- emits _ (match ?x with _ => _ end) => destruct x
  | |- emits _ (let '(_, _) := ?x in _) => destruct x
  end.

Section ClientFacts.
Import Clients.
Context {W : World}.

Lemma cache_get_emits (P : event -> Prop) (key : pystr) :
  P (EvCacheGet key) -> emits P (cache_get key).
Proof.
  intros He st o st' H. unfold cache_get in H.
  assert (st' = record (EvCacheGet key) st) as ->.
  { repeat match type of H with
           | context [match ?x with _ => _ end] => destruct x
           end; inversion H; subst; reflexivity. }
  apply grows_record, He.
Qed.

Lemma cache_set_emits (P : event -> Prop) (key value : pystr) (expire : Z) :
  P (EvCacheSet key value expire) -> emits P (cache_set key value expire).
Proof.
  intros He st o st' H. unfold cache_set in H.
  exists [EvCacheSet key value expire]. split; [|auto].
  destruct (disk_ok (step st)); inversion H; subst; reflexivity.
Qed.

Lemma _sleep_backoff_emits (P : event -> Prop) (attempt base : Z) :
  (forall rnd, P (EvSleep attempt base rnd)) ->
  emits P (_sleep_backoff attempt base).
Proof.
  intros He st o st' H. inversion H; subst.
  eexists [_]. split; [reflexivity | auto].
Qed.

Lemma on_failure_emits (api : pystr) (self : LLMClient) (attempt : Z) :
  emits (client_event api) (on_failure self attempt).
Proof.
  unfold on_failure. destruct (_ <=? _)%Z.
  - apply _sleep_backoff_emits. intros; exact I.
  - apply emits_ret.
Qed.

Ltac client_step :=
  first
    [ apply on_failure_emits
    | apply cache_get_emits; exact I
    | apply cache_set_emits; exact I
    | emits_step ].

Lemma gemini_loop_emits (self : LLMClient) (prompt key : pystr)
  (fuel : nat) (attempt : Z) :
  emits (client_event (lit "gemini"))
    (gemini_loop self prompt key fuel attempt).
Proof.
  revert attempt. induction fuel as [|fuel IH]; intros attempt; cbn.
  - apply emits_ret.
  - repeat first [apply IH | reflexivity | client_step].
Qed.

Lemma call_gemini_emits (self : LLMClient) (prompt : pystr) :
  emits (client_event (lit "gemini")) (call_gemini self prompt).
Proof.
  unfold call_gemini.
  repeat first [apply gemini_loop_emits | reflexivity | client_step].
Qed.

Lemma nvidia_loop_emits (self : LLMClient) (prompt key : pystr)
  (fuel : nat) (attempt : Z) :
  emits (client_event (lit "nvidia"))
    (nvidia_loop self prompt key fuel attempt).
Proof.
  revert attempt. induction fuel as [|fuel IH]; intros attempt; cbn.
  - apply emits_ret.
  - repeat first [apply IH | reflexivity | client_step].
Qed.

Lemma call_nvidia_emits (self : LLMClient) (prompt : pystr) :
  emits (client_event (lit "nvidia")) (call_nvidia self prompt).
Proof.
  unfold call_nvidia.
  repeat first [apply nvidia_loop_emits | reflexivity | client_step].
Qed.

Lemma openai_loop_emits (self : LLMClient) (prompt key : pystr)
  (fuel : nat) (attempt : Z) :
  emits (client_event (lit "openai"))
    (openai_loop self prompt key fuel attempt).
Proof.
  revert attempt. induction fuel as [|fuel IH]; intros attempt; cbn.
  - apply emits_ret.
  - repeat first [apply IH | reflexivity | client_step].
Qed.

Lemma call_openai_emits (self : LLMClient) (prompt : pystr) :
  emits (client_event (lit "openai")) (call_openai self prompt).
Proof.
  unfold call_openai.
  repeat first [apply openai_loop_emits | reflexivity | client_step].
Qed.

End ClientFacts.

(** * Properties of the executor *)

Lemma keeps_subprocess_run {W : World} (R : State -> State -> Prop)
  (argv : list pystr) (timeout : option Z) (check : bool) :
  (forall st, R st (record (EvRun argv) st)) ->
  keeps R (CodeExecutor.subprocess_run argv timeout check).
Proof.
  intros He st o st' H. unfold CodeExecutor.subprocess_run in H.
  assert (st' = record (EvRun argv) st) as ->; [|apply He].
  repeat match type of H with
         | context [match ?x with _ => _ end] => destruct x
         end; inversion H; subst; reflexivity.
Qed.

(** One step of a proof that a computation keeps a relation, [rf] and [tr]
    being its reflexivity and transitivity. *)
Ltac keeps_step rf tr :=
  match goal with
  | |- keeps _ (ret _) => apply keeps_ret; exact rf
  | |- keeps _ (raise _) => apply keeps_raise; exact rf
  | |- keeps _ get => apply keeps_get; exact rf
  | |- keeps _ (lift _) => apply keeps_lift; exact rf
  | |- keeps _ (bind _ _) => apply keeps_bind; [exact tr | | intros ?]
  | |- keeps _ (try_except _ _) =>
      apply keeps_try_except; [exact tr | | intros ?]
  | |- keeps _ (modify _) => apply keeps_modify; intros ?
  | |- keeps _ (interact _ _) => apply keeps_interact; intros ?
  | |- keeps _ (attempt _ _) => apply keeps_attempt; intros ?
  | |- keeps _ (CodeExecutor.subprocess_run _ _ _) =>
      apply keeps_subprocess_run; intros ?
  | |- keeps _ (match ?x with _ => _ end) => destruct x
  end.

Section ExecutorFacts.
Import CodeExecutor.
Context {W : World}.

Section Relation.
Variable R : State -> State -> Prop.
Hypothesis R_refl : forall st, R st st.
Hypothesis R_trans : forall a b c, R a b -> R b c -> R a c.
Hypothesis R_record : forall e st, is_teardown e = false -> R st (record e st).

Lemma copy_files_keeps (files : list (pystr * pystr)) (wd : pystr) :
  keeps R (copy_files files wd).
Proof.
  induction files as [|[fname fpath] rest IH]; cbn.
  - apply keeps_ret, R_refl.
  - repeat first [exact IH | apply R_record; reflexivity
                 | keeps_step R_refl R_trans].
Qed.

Lemma execute_script_keeps (code : code_arg) : keeps R (execute_script code).
Proof.
  unfold execute_script.
  repeat first [apply R_record; reflexivity | keeps_step R_refl R_trans].
Qed.

Hypothesis R_new_dir :
  forall wd st, R st (set_work_dir (Some wd) (set_dirs (wd :: dirs st) st)).
Hypothesis R_new_container :
  forall hex st,
    R st (set_active_container (Some (lit "sandbox_" ++ firstn 8 hex)) st).

Lemma provision_keeps (files : list (pystr * pystr)) :
  keeps R (provision files).
Proof.
  unfold provision.
  repeat first [apply copy_files_keeps | apply R_record; reflexivity
               | apply R_new_dir | apply R_new_container
               | keeps_step R_refl R_trans].
Qed.

Lemma run_script_keeps (code : code_arg) (files : list (pystr * pystr)) :
  keeps R (run_script code files).
Proof.
  unfold run_script.
  repeat first [apply provision_keeps | apply execute_script_keeps
               | keeps_step R_refl R_trans].
Qed.

(** With the container kept open, [run_code] is [run_script] and the
    choice of the result. *)
Lemma run_code_keep_keeps (code : code_arg) (files : list (pystr * pystr)) :
  keeps R (run_code code files true).
Proof.
  unfold run_code, run_body, cleanup_unless.
  repeat first [apply run_script_keeps | keeps_step R_refl R_trans
               | match goal with
                 | |- keeps _ (let '(_, _) := ?x in _) => destruct x
                 end].
Qed.

End Relation.

End ExecutorFacts.

Section ExecutorSession.
Import CodeExecutor.
Context {W : World}.

(** A run that keeps the container open leaves the executor in a state
    that is in order. *)
Lemma run_code_keep_session_ok (code : code_arg)
  (files : list (pystr * pystr)) (st st' : State)
  (o : outcome (list (pystr * value))) :
  session_ok st -> run_code code files true st = (o, st') -> session_ok st'.
Proof.
  intros Hok H. revert Hok.
  refine (run_code_keep_keeps (fun a b => session_ok a -> session_ok b)
            _ _ _ _ _ code files st o st' H); clear.
  - auto.
  - auto.
  - intros e st _ H. exact H.
  - intros wd st [Hc Hw]. split; [exact Hc|].
    cbn. intros wd' E. inversion E; subst. left; reflexivity.
  - intros hex st [Hc Hw]. split; [cbn; discriminate | exact Hw].
Qed.

Lemma execute_script_same_session (code : code_arg) (st st' : State)
  (o : outcome (Z * pystr * pystr)) :
  execute_script code st = (o, st') ->
  _active_container st' = _active_container st
  /\ _work_dir st' = _work_dir st /\ dirs st' = dirs st.
Proof.
  intros H.
  refine (execute_script_keeps
            (fun a b => _active_container b = _active_container a
                        /\ _work_dir b = _work_dir a /\ dirs b = dirs a)
            _ _ _ code st o st' H); clear.
  - auto.
  - intros a b c (H1 & H2 & H3) (H4 & H5 & H6).
    repeat split; congruence.
  - intros e st _. auto.
Qed.

(** A run that keeps the container open tears nothing down. *)
Lemma run_code_keep_kept (code : code_arg) (files : list (pystr * pystr))
  (st st' : State) (o : outcome (list (pystr * value))) :
  run_code code files true st = (o, st') -> kept st st'.
Proof.
  intros H. unfold kept.
  assert (H12 : grows (fun e => is_teardown e = false) st st'
                /\ (forall d, In d (dirs st) -> In d (dirs st'))).
  { refine (run_code_keep_keeps
              (fun a b => grows (fun e => is_teardown e = false) a b
                          /\ (forall d, In d (dirs a) -> In d (dirs b)))
              _ _ _ _ _ code files st o st' H); clear.
    - intros st. split; [apply grows_refl | auto].
    - intros a b c [G1 D1] [G2 D2].
      split; [eapply grows_trans; eauto | auto].
    - intros e st He. split; [apply grows_record, He | auto].
    - intros wd st. split; [apply grows_same_log; reflexivity|].
      cbn. auto.
    - intros hex st. split; [apply grows_same_log; reflexivity | auto]. }
  destruct H12 as [H1 H2]. repeat split; [exact H1 | exact H2 |].
  intros c Hc. revert H.
  unfold run_code, run_body, run_script, cleanup_unless, try_except.
  unfold bind at 1 2. unfold get at 1. rewrite Hc.
  unfold bind at 1. unfold ret at 1.
  destruct (execute_script code st) as [[r|e] st1] eqn:E;
    apply execute_script_same_session in E; destruct E as (E1 & _).
  - unfold bind, ret. destruct r as [[rc out] err].
    intros H; inversion H; subst. congruence.
  - unfold bind, ret. intros H; inversion H; subst. congruence.
Qed.

Lemma subprocess_run_state (argv : list pystr) (timeout : option Z)
  (check : bool) (st st' : State) (o : outcome (Z * pystr * pystr)) :
  subprocess_run argv timeout check st = (o, st') ->
  st' = record (EvRun argv) st.
Proof.
  unfold subprocess_run. intros H.
  repeat match type of H with
         | context [match ?x with _ => _ end] => destruct x
         end; inversion H; subst; reflexivity.
Qed.

Lemma str_eqb_refl (s : pystr) : str_eqb s s = true.
Proof.
  induction s as [|c r IH]; cbn; [reflexivity|].
  rewrite N.eqb_refl. exact IH.
Qed.

Lemma str_eqb_eq (a b : pystr) : str_eqb a b = true -> a = b.
Proof.
  revert b. induction a as [|x a IH]; intros [|y b]; cbn;
    try discriminate; [reflexivity|].
  intros H. apply andb_true_iff in H. destruct H as [H1 H2].
  apply N.eqb_eq in H1. apply IH in H2. congruence.
Qed.

Lemma not_in_filter_out (wd : pystr) (ds : list pystr) :
  ~ In wd (filter (fun d => negb (str_eqb d wd)) ds).
Proof.
  intros H. apply filter_In in H. destruct H as [_ H].
  rewrite str_eqb_refl in H. discriminate.
Qed.

Lemma existsb_str_eqb_In (wd : pystr) (ds : list pystr) :
  In wd ds -> existsb (str_eqb wd) ds = true.
Proof.
  intros H. apply existsb_exists. exists wd. split; [exact H|].
  apply str_eqb_refl.
Qed.

(** A completed [_cleanup_container] tears the session down. *)
Lemma cleanup_tears_down (st st' : State) :
  session_ok st -> _cleanup_container st = (Ok tt, st') -> torn_down st st'.
Proof.
  intros [Hname Hdir]. unfold _cleanup_container, torn_down.
  cbv beta iota delta [bind get ret modify rmtree].
  destruct (_active_container st) as [[|c r]|] eqn:Ec;
    [exfalso; apply Hname; reflexivity| |].
  - (* a container is active: stop, rm, then the work directory *)
    match goal with
    | |- context [subprocess_run ?a ?t ?k st] =>
        destruct (subprocess_run a t k st) as [[x|e] s1] eqn:E1;
          [apply subprocess_run_state in E1; subst s1
          |intros H; inversion H]
    end.
    match goal with
    | |- context [subprocess_run ?a ?t ?k ?s] =>
        destruct (subprocess_run a t k s) as [[y|e] s2] eqn:E2;
          [apply subprocess_run_state in E2; subst s2
          |intros H; inversion H]
    end.
    cbn [_work_dir set_active_container record dirs].
    destruct (_work_dir st) as [wd|] eqn:Ew.
    + rewrite (existsb_str_eqb_In wd (dirs st) (Hdir wd eq_refl)).
      intros H; inversion H; subst; clear H. cbn.
      split; [reflexivity|]. split; [reflexivity|].
      eexists [_; _; _]. split; [rewrite <- !app_assoc; reflexivity|].
      split; [repeat constructor|]. split.
      * intros c0 E; inversion E; subst.
        split; [left; reflexivity | right; left; reflexivity].
      * intros wd0 E; inversion E; subst.
        split; [right; right; left; reflexivity | apply not_in_filter_out].
    + intros H; inversion H; subst; clear H. cbn.
      split; [reflexivity|]. split; [exact Ew|].
      eexists [_; _]. split; [rewrite <- !app_assoc; reflexivity|].
      split; [repeat constructor|]. split.
      * intros c0 E; inversion E; subst.
        split; [left; reflexivity | right; left; reflexivity].
      * intros wd0 E. discriminate.
  - (* no container: the work directory only *)
    destruct (_work_dir st) as [wd|] eqn:Ew.
    + rewrite (existsb_str_eqb_In wd (dirs st) (Hdir wd eq_refl)).
      intros H; inversion H; subst; clear H. cbn.
      split; [exact Ec|]. split; [reflexivity|].
      eexists [_]. split; [reflexivity|].
      split; [repeat constructor|]. split.
      * intros c0 E; discriminate.
      * intros wd0 E; inversion E; subst.
        split; [left; reflexivity | apply not_in_filter_out].
    + intros H; inversion H; subst; clear H.
      split; [exact Ec|]. split; [exact Ew|].
      exists []. split; [rewrite app_nil_r; reflexivity|].
      split; [constructor|]. split; intros ? E; discriminate.
Qed.

(** A [_cleanup_container] that raises has changed nothing but the
    trace. *)
Lemma cleanup_raises_unchanged (st st' : State) (e : exn) :
  _cleanup_container st = (Raise e, st') ->
  _active_container st' = _active_container st
  /\ _work_dir st' = _work_dir st
  /\ dirs st' = dirs st
  /\ exists tr,
       log st' = log st ++ tr /\ Forall (fun e => is_teardown e = true) tr.
Proof.
  unfold _cleanup_container.
  cbv beta iota delta [bind get ret modify rmtree].
  destruct (_active_container st) as [[|c r]|] eqn:Ec.
  - destruct (_work_dir st) as [wd|];
      [destruct (existsb (str_eqb wd) (dirs st))|]; discriminate.
  - match goal with
    | |- context [subprocess_run ?a ?t ?k st] =>
        destruct (subprocess_run a t k st) as [[x|e1] s1] eqn:E1;
          apply subprocess_run_state in E1; subst s1
    end.
    + match goal with
      | |- context [subprocess_run ?a ?t ?k ?s] =>
          destruct (subprocess_run a t k s) as [[y|e2] s2] eqn:E2;
            apply subprocess_run_state in E2; subst s2
      end.
      * cbn [_work_dir set_active_container record dirs].
        destruct (_work_dir st) as [wd|];
          [destruct (existsb (str_eqb wd) (dirs st))|]; discriminate.
      * intros H; inversion H; subst. cbn.
        split; [auto|]. split; [auto|]. split; [auto|].
        eexists [_; _].
        split; [rewrite <- !app_assoc; reflexivity | repeat constructor].
    + intros H; inversion H; subst. cbn.
      split; [auto|]. split; [auto|]. split; [auto|].
      eexists [_]. split; [reflexivity | repeat constructor].
  - destruct (_work_dir st) as [wd|];
      [destruct (existsb (str_eqb wd) (dirs st))|]; discriminate.
Qed.

Lemma torn_down_after (st st2 st' : State) :
  _active_container st2 = _active_container st ->
  _work_dir st2 = _work_dir st ->
  (exists tr,
      log st2 = log st ++ tr /\ Forall (fun e => is_teardown e = true) tr) ->
  torn_down st2 st' -> torn_down st st'.
Proof.
  intros Ec Ew (tr0 & L0 & F0) (H1 & H2 & tr & L & F & Hc & Hw).
  split; [exact H1|]. split; [exact H2|].
  exists (tr0 ++ tr). split; [rewrite L, L0, app_assoc; reflexivity|].
  split; [apply Forall_app; auto|]. split.
  - intros c E. rewrite <- Ec in E. destruct (Hc c E).
    split; apply in_or_app; right; assumption.
  - intros wd E. rewrite <- Ew in E. destruct (Hw wd E).
    split; [apply in_or_app; right; assumption | assumption].
Qed.

(** [run_code] with the container kept open: the run of the script and
    the choice of the result. *)
Lemma run_code_keep_eq (code : code_arg) (files : list (pystr * pystr))
  (st : State) :
  run_code code files true st
  = match run_script code files st with
    | (Ok (rc, out, err), st1) =>
        (Ok (exec_result (rc =? 0)%Z (strip out) (strip err)), st1)
    | (Raise e, st1) => (Ok (failure_result e), st1)
    end.
Proof.
  unfold run_code, run_body, cleanup_unless, try_except, bind, ret.
  destruct (run_script code files st) as [[[[rc out] err]|e] st1];
    reflexivity.
Qed.

(** [run_code] with the default flag: the run of the script, then
    [_cleanup_container], and once more in the handler when the first one
    raised. *)
Lemma run_code_default_eq (code : code_arg) (files : list (pystr * pystr))
  (st : State) :
  run_code code files false st
  = match run_script code files st with
    | (Ok (rc, out, err), st1) =>
        match _cleanup_container st1 with
        | (Ok _, st') =>
            (Ok (exec_result (rc =? 0)%Z (strip out) (strip err)), st')
        | (Raise e, st2) =>
            match _cleanup_container st2 with
            | (Ok _, st') => (Ok (failure_result e), st')
            | (Raise e', st') => (Raise e', st')
            end
        end
    | (Raise e, st1) =>
        match _cleanup_container st1 with
        | (Ok _, st') => (Ok (failure_result e), st')
        | (Raise e', st') => (Raise e', st')
        end
    end.
Proof.
  unfold run_code, run_body, cleanup_unless, try_except, bind, ret.
  destruct (run_script code files st) as [[[[rc out] err]|e] st1].
  - destruct (_cleanup_container st1) as [[u|e] st2]; [reflexivity|].
    destruct (_cleanup_container st2) as [[u|e'] st3]; reflexivity.
  - destruct (_cleanup_container st1) as [[u|e'] st2]; reflexivity.
Qed.

End ExecutorSession.

Section ExecutorClaims.
Import CodeExecutor Examples.

(** C5, as stated, fails: with the container kept open, a script that
    times out leaves the session in place. The call returns the timeout
    result, the container and the work directory are still recorded, the
    directory still exists, and no teardown event is in the trace. *)
Lemma C5_counterexample :
  let run := run_code (W := slow_world) print_1 [] true init_state in
  fst run = Ok (exec_result false [] (lit "Execution timed out."))
  /\ _active_container (snd run) = Some (lit "sandbox_01234567")
  /\ _work_dir (snd run) = Some (lit "/tmp/sandbox_w")
  /\ dirs (snd run) = [lit "/tmp/sandbox_w"]
  /\ existsb is_teardown (log (snd run)) = false.
Proof. vm_compute. repeat split; reflexivity. Qed.

(** C5, amended.  From a state of the executor that is in order: a call
    with the default flag that returns has torn the session down right after
    the run, the timeout or the error, that is, from the state in which the
    same call with the container kept open returns; and a call with the
    container kept open tears nothing down, whatever happens. *)
Theorem C5_teardown_follows_flag (W : World) (code : code_arg)
  (files : list (pystr * pystr)) (st : State) :
  session_ok st ->
  (forall d st',
      run_code code files false st = (Ok d, st') ->
      exists d1 st1,
        run_code code files true st = (Ok d1, st1) /\ torn_down st1 st')
  /\ (forall o st1, run_code code files true st = (o, st1) -> kept st st1).
Proof.
  intros Hok. split; [|intros o st1; apply run_code_keep_kept].
  intros d st'.
  assert (Hkeep : forall o st1,
             run_code code files true st = (o, st1) -> session_ok st1).
  { intros o st1. apply run_code_keep_session_ok, Hok. }
  rewrite run_code_default_eq. revert Hkeep. rewrite run_code_keep_eq.
  destruct (run_script code files st) as [[[[rc out] err]|e] st1];
    intros Hkeep.
  - specialize (Hkeep _ _ eq_refl).
    destruct (_cleanup_container st1) as [[[]|e] st2] eqn:E1.
    + intros H; inversion H; subst.
      eexists _, st1. split; [reflexivity|].
      apply cleanup_tears_down; assumption.
    + destruct (_cleanup_container st2) as [[[]|e'] st3] eqn:E2;
        intros H; inversion H; subst.
      eexists _, st1. split; [reflexivity|].
      destruct (cleanup_raises_unchanged _ _ _ E1) as (A & B & C & D).
      apply (torn_down_after st1 st2 st'); try assumption.
      apply cleanup_tears_down; [|assumption].
      destruct Hkeep as [Hn Hd]. split.
      * rewrite A. exact Hn.
      * intros wd Ewd. rewrite C. apply Hd. rewrite <- B. exact Ewd.
  - specialize (Hkeep _ _ eq_refl).
    destruct (_cleanup_container st1) as [[[]|e'] st2] eqn:E1;
      intros H; inversion H; subst.
    eexists _, st1. split; [reflexivity|].
    apply cleanup_tears_down; assumption.
Qed.

(** The theorem at a run of print(1) in a fresh process. *)
Lemma C5_witness :
  exists d1 st1,
    run_code (W := silent_world) print_1 [] true init_state = (Ok d1, st1)
    /\ torn_down st1
         (snd (run_code (W := silent_world) print_1 [] false init_state)).
Proof.
  refine (proj1 (C5_teardown_follows_flag silent_world print_1 []
                   init_state _) _ _ _).
  - split; [discriminate | intros wd E; discriminate].
  - vm_compute. reflexivity.
Defined.

End ExecutorClaims.

Section ExecutorTrace.
Import CodeExecutor.
Context {W : World}.

Lemma subprocess_run_emits (P : event -> Prop) (argv : list pystr)
  (timeout : option Z) (check : bool) :
  P (EvRun argv) -> emits P (subprocess_run argv timeout check).
Proof.
  intros He. apply keeps_subprocess_run. intros st. apply grows_record, He.
Qed.

Lemma rmtree_emits (P : event -> Prop) (path : pystr) :
  P (EvRmtree path) -> emits P (rmtree path).
Proof.
  intros He st o st' H. inversion H; subst.
  exists [EvRmtree path]. split; [reflexivity | auto].
Qed.

Ltac executor_step :=
  first
    [ apply subprocess_run_emits; exact I
    | apply rmtree_emits; exact I
    | exact I
    | emits_step ].

Lemma _cleanup_container_emits : emits executor_event _cleanup_container.
Proof. unfold _cleanup_container. repeat executor_step. Qed.

Lemma copy_files_emits (files : list (pystr * pystr)) (wd : pystr) :
  emits executor_event (copy_files files wd).
Proof.
  induction files as [|[fname fpath] rest IH]; cbn.
  - apply emits_ret.
  - repeat first [exact IH | executor_step].
Qed.

Lemma run_code_emits (code : code_arg) (files : list (pystr * pystr))
  (keep : bool) :
  emits executor_event (run_code code files keep).
Proof.
  unfold run_code, run_body, run_script, execute_script, provision,
    cleanup_unless.
  repeat first [apply copy_files_emits | apply _cleanup_container_emits
               | executor_step].
Qed.

Lemma run_emits (code : code_arg) (files : list (pystr * pystr)) :
  emits executor_event (run code files).
Proof. apply run_code_emits. Qed.

End ExecutorTrace.

(** * Properties of the orchestrator *)

Section ReturnsFacts.
Context {A B : Type}.

Lemma returns_ret (Q : A -> Prop) (a : A) : Q a -> returns Q (ret a).
Proof. intros Ha st a' st' H. inversion H; subst. exact Ha. Qed.

Lemma returns_raise (Q : A -> Prop) (e : exn) : returns Q (raise e).
Proof. intros st a st' H. inversion H. Qed.

Lemma returns_bind (Q : B -> Prop) (m : M A) (k : A -> M B) :
  (forall a, returns Q (k a)) -> returns Q (bind m k).
Proof.
  intros Hk st b st' H. unfold bind in H.
  destruct (m st) as [[a|e] st1]; [|inversion H].
  eapply Hk; eauto.
Qed.

End ReturnsFacts.

Section OrchestratorFacts.
Import LLMOrchestrator.
Context {RT : Runtime} {W : World}.

(** The method the orchestrator picks for an API leaves only events of that
    API's client in the trace. *)
Lemma provider_emits (self : LLMOrchestrator) (api : pystr)
  (fn : pystr -> M (option pystr)) (prompt : pystr) :
  provider self api = Some fn -> emits (client_event api) (fn prompt).
Proof.
  unfold provider.
  destruct (str_eqb api (lit "openai")) eqn:E1.
  { apply str_eqb_eq in E1. subst api. intros H; inversion H; subst.
    apply call_openai_emits. }
  destruct (str_eqb api (lit "nvidia")) eqn:E2.
  { apply str_eqb_eq in E2. subst api. intros H; inversion H; subst.
    apply call_nvidia_emits. }
  destruct (str_eqb api (lit "gemini")) eqn:E3; [|discriminate].
  apply str_eqb_eq in E3. subst api. intros H; inversion H; subst.
  apply call_gemini_emits.
Qed.

(** An invocation leaves its own event and then events of the client. *)
Lemma _call_with_timeout_trace (self : LLMOrchestrator) (api : pystr)
  (fn : pystr -> M (option pystr)) (prompt : pystr) (st st' : State)
  (o : outcome (option pystr)) :
  provider self api = Some fn ->
  _call_with_timeout api fn prompt st = (o, st') ->
  exists body,
    log st' = log st ++ EvInvoke api prompt :: body
    /\ Forall (client_event api) body.
Proof.
  intros Hp H. unfold _call_with_timeout in H.
  destruct (fn prompt (record (EvInvoke api prompt) st)) as [r st2] eqn:E.
  destruct (provider_emits self api fn prompt Hp _ _ _ E) as (body & L & F).
  assert (st' = st2) as ->.
  { destruct r; destruct (overdue (step st)); inversion H; reflexivity. }
  exists body. split; [|exact F].
  rewrite L. cbn. rewrite <- app_assoc. reflexivity.
Qed.

Lemma loop_trace_body (d : time) (api prompt : pystr) (t : time)
  (body : list event) (o : outcome (list (pystr * value))) :
  (t < d)%Z -> Forall (body_event api) body ->
  loop_trace d api 1 o (EvClock t :: EvInvoke api prompt :: body).
Proof.
  intros Ht Hb.
  rewrite <- (app_nil_r body).
  apply LT_iter; [exact Ht | exact Hb | apply LT_end].
Qed.

(** The trace of the loop of an attempt has the shape [loop_trace]
    describes, with no more invocations than iterations left. *)
Lemma api_loop_trace (self : LLMOrchestrator) (api initial_prompt : pystr)
  (files : list (pystr * pystr)) (d : time) (fuel : nat) :
  forall history prompt iteration st o st',
    api_loop self api initial_prompt files d fuel history prompt iteration st
    = (o, st') ->
    exists n tr,
      log st' = log st ++ tr /\ (n <= fuel)%nat /\ loop_trace d api n o tr.
Proof.
  induction fuel as [|fuel IH]; intros history prompt iteration st o st' H.
  - inversion H; subst. exists O, []. rewrite app_nil_r.
    repeat split; [lia | apply LT_end].
  - cbn [api_loop] in H. unfold bind at 1 in H. unfold time_time at 1 in H.
    set (t := clock (step st)) in *.
    set (st1 := record (EvClock t) st) in *.
    destruct (d <=? t)%Z eqn:Ed.
    { inversion H; subst. exists O, [EvClock t].
      repeat split; [lia | apply LT_late; lia]. }
    apply Z.leb_gt in Ed.
    destruct (provider self api) as [fn|] eqn:Ep.
    2:{ inversion H; subst. exists O, [EvClock t].
        repeat split; [lia | apply LT_idle; lia]. }
    unfold bind at 1 in H.
    destruct (_call_with_timeout api fn prompt st1) as [r st2] eqn:Ec.
    destruct (_call_with_timeout_trace self api fn prompt _ _ _ Ep Ec)
      as (body1 & L1 & F1).
    assert (Fb1 : Forall (body_event api) body1).
    { eapply Forall_impl; [|exact F1]. intros e He. left; exact He. }
    assert (Hstop : forall o', st' = st2 -> o = o' ->
               exists n tr,
                 log st' = log st ++ tr /\ (n <= S fuel)%nat
                 /\ loop_trace d api n o tr).
    { intros o' -> ->. exists 1%nat, (EvClock t :: EvInvoke api prompt :: body1).
      split; [rewrite L1; cbn; rewrite <- app_assoc; reflexivity|].
      split; [lia|]. apply loop_trace_body; assumption. }
    destruct r as [llm_output|e]; [|inversion H; subst; eauto].
    destruct (Clients.nonempty llm_output) as [out|];
      [|inversion H; subst; eauto].
    destruct (str_eqb _ (lit "final_answer"));
      [inversion H; subst; eauto|].
    match type of H with
    | (if ?b then _ else _) _ = _ => destruct b
    end.
    + unfold bind at 1 in H.
      match type of H with
      | context [CodeExecutor.run ?c ?f st2] =>
          destruct (CodeExecutor.run c f st2) as [r2 st3] eqn:Er
      end.
      destruct (run_emits _ _ _ _ _ Er) as (body2 & L2 & F2).
      assert (Fb : Forall (body_event api) (body1 ++ body2)).
      { apply Forall_app. split; [exact Fb1|].
        eapply Forall_impl; [|exact F2]. intros e He. right; exact He. }
      destruct r2 as [exec_results|e].
      * destruct (IH _ _ _ _ _ _ H) as (n & tr & L & Hn & Ht).
        exists (S n), (EvClock t :: EvInvoke api prompt
                       :: (body1 ++ body2) ++ tr).
        split.
        { rewrite L, L2, L1. cbn. rewrite <- !app_assoc. reflexivity. }
        split; [lia|]. apply LT_iter; assumption.
      * inversion H; subst.
        exists 1%nat, (EvClock t :: EvInvoke api prompt :: body1 ++ body2).
        split.
        { rewrite L2, L1. cbn. rewrite <- !app_assoc. reflexivity. }
        split; [lia|]. apply loop_trace_body; assumption.
    + destruct (IH _ _ _ _ _ _ H) as (n & tr & L & Hn & Ht).
      exists (S n), (EvClock t :: EvInvoke api prompt :: body1 ++ tr).
      split.
      { rewrite L, L1. cbn. rewrite <- !app_assoc. reflexivity. }
      split; [lia|]. apply LT_iter; assumption.
Qed.

End OrchestratorFacts.

Section LoopTraceFacts.
Import LLMOrchestrator.
Variable d : time.
Variable api : pystr.

Lemma body_event_not_invoke (a p : pystr) : ~ body_event api (EvInvoke a p).
Proof. intros [H|H]; exact H. Qed.

Lemma body_event_not_clock (t : time) : ~ body_event api (EvClock t).
Proof. intros [H|H]; exact H. Qed.

(** An event that is no body event lies behind a body it follows. *)
Lemma split_after_body (body rest before after : list event) (e : event) :
  Forall (body_event api) body ->
  ~ body_event api e ->
  body ++ rest = before ++ e :: after ->
  exists middle, before = body ++ middle /\ rest = middle ++ e :: after.
Proof.
  intros Hb He. revert before.
  induction Hb as [|b body Hb1 Hb2 IH]; intros before E; cbn in E.
  - exists before. auto.
  - destruct before as [|x before]; cbn in E; inversion E; subst.
    + contradiction.
    + destruct (IH before H1) as (middle & -> & ->).
      exists middle. auto.
Qed.

Lemma invocations_body (body : list event) :
  Forall (body_event api) body -> invocations body = O.
Proof.
  unfold invocations. induction 1 as [|e body He Hb IH]; cbn; [reflexivity|].
  destruct e; cbn; try exact IH.
  exfalso. eapply body_event_not_invoke; eauto.
Qed.

Lemma invocations_app (a b : list event) :
  invocations (a ++ b) = (invocations a + invocations b)%nat.
Proof. unfold invocations. rewrite filter_app, length_app. reflexivity. Qed.

Lemma loop_trace_invocations (n : nat) (o : outcome (list (pystr * value)))
  (tr : list event) :
  loop_trace d api n o tr -> invocations tr = n.
Proof.
  induction 1 as [o|t Ht|t o Ht|t prompt body rest n o Ht Hb Hr IH];
    try reflexivity.
  change (S (invocations (body ++ rest)) = S n).
  rewrite invocations_app, invocations_body, IH; auto.
Qed.

Lemma loop_trace_guarded (n : nat) (o : outcome (list (pystr * value)))
  (tr : list event) :
  loop_trace d api n o tr ->
  forall before a p after,
    tr = before ++ EvInvoke a p :: after ->
    a = api
    /\ exists earlier t, before = earlier ++ [EvClock t] /\ (t < d)%Z.
Proof.
  induction 1 as [o|t Ht|t o Ht|t prompt body rest n o Ht Hb Hr IH];
    intros before a p after E.
  - destruct before; discriminate.
  - destruct before as [|x [|y before]]; discriminate.
  - destruct before as [|x [|y before]]; discriminate.
  - destruct before as [|x [|y before]]; cbn in E; inversion E; subst.
    + split; [reflexivity|]. exists [], t. auto.
    + destruct (split_after_body _ _ _ _ _ Hb
                  (body_event_not_invoke a p) H2) as (middle & -> & Er).
      destruct (IH _ _ _ _ Er) as (Ha & earlier & t' & -> & Ht').
      split; [exact Ha|].
      exists (EvClock t :: EvInvoke api prompt :: body ++ earlier), t'.
      split; [|exact Ht']. cbn. rewrite <- app_assoc. reflexivity.
Qed.

Lemma loop_trace_deadline (n : nat) (o : outcome (list (pystr * value)))
  (tr : list event) :
  loop_trace d api n o tr ->
  forall before t after,
    tr = before ++ EvClock t :: after ->
    (d <= t)%Z ->
    after = [] /\ o = Ok (deadline_exceeded api).
Proof.
  induction 1 as [o|t0 Ht|t0 o Ht|t0 prompt body rest n o Ht Hb Hr IH];
    intros before t after E Hd.
  - destruct before; discriminate.
  - destruct before as [|x [|y before]]; inversion E; subst. auto.
  - destruct before as [|x [|y before]]; inversion E; subst. lia.
  - destruct before as [|x [|y before]]; cbn in E; inversion E; subst.
    + lia.
    + destruct (split_after_body _ _ _ _ _ Hb
                  (body_event_not_clock t) H2) as (middle & -> & Er).
      eapply IH; eauto.
Qed.

Lemma loop_trace_events (n : nat) (o : outcome (list (pystr * value)))
  (tr : list event) :
  loop_trace d api n o tr -> Forall (attempt_event api) tr.
Proof.
  induction 1 as [o|t Ht|t o Ht|t prompt body rest n o Ht Hb Hr IH].
  - constructor.
  - repeat constructor.
  - repeat constructor.
  - constructor; [exact I|]. constructor; [reflexivity|].
    apply Forall_app. split; [|exact IH].
    eapply Forall_impl; [|exact Hb].
    intros e He. destruct e; try exact He; destruct He as [[]|[]].
Qed.

End LoopTraceFacts.

Section OrchestratorClaims.
Import LLMOrchestrator Examples.

(** The trace of an attempt: the reading of the start time, then the
    trace of the loop under the deadline it fixes. *)
Lemma _run_api_loop_trace (RT : Runtime) (W : World) (self : LLMOrchestrator)
  (api prompt : pystr) (files : list (pystr * pystr)) (st st' : State)
  (o : outcome (list (pystr * value))) :
  _run_api_loop self api prompt files st = (o, st') ->
  exists n tr,
    log st' = log st ++ EvClock (clock (step st)) :: tr
    /\ (n <= Z.to_nat (max_iterations self))%nat
    /\ loop_trace (clock (step st) + seconds (global_budget_sec self))%Z
         api n o tr.
Proof.
  unfold _run_api_loop. unfold bind at 1, time_time at 1. intros H.
  destruct (api_loop_trace _ _ _ _ _ _ _ _ _ _ _ _ H)
    as (n & tr & L & Hn & Ht).
  exists n, tr. split; [|auto].
  rewrite L. cbn. rewrite <- app_assoc. reflexivity.
Qed.

(** C2. An attempt against one provider reads the start time and then
    invokes the provider at most [max_iterations] times; every invocation
    is of that provider and comes right after a reading of the clock that
    lies before the deadline (start time plus budget); and a reading at
    or past the deadline is the last event of the attempt, which returns
    the deadline failure. *)
Theorem C2_attempt_bounded (RT : Runtime) (W : World) (self : LLMOrchestrator)
  (api prompt : pystr) (files : list (pystr * pystr)) (st st' : State)
  (o : outcome (list (pystr * value))) :
  _run_api_loop self api prompt files st = (o, st') ->
  let deadline := (clock (step st) + seconds (global_budget_sec self))%Z in
  exists tr,
    log st' = log st ++ EvClock (clock (step st)) :: tr
    /\ (invocations tr <= Z.to_nat (max_iterations self))%nat
    /\ (forall before a p after,
           tr = before ++ EvInvoke a p :: after ->
           a = api
           /\ exists earlier t,
                before = earlier ++ [EvClock t] /\ (t < deadline)%Z)
    /\ (forall before t after,
           tr = before ++ EvClock t :: after ->
           (deadline <= t)%Z ->
           after = [] /\ o = Ok (deadline_exceeded api)).
Proof.
  intros H deadline.
  destruct (_run_api_loop_trace _ _ _ _ _ _ _ _ _ H) as (n & tr & L & Hn & Ht).
  exists tr. split; [exact L|]. split.
  - rewrite (loop_trace_invocations _ _ _ _ _ Ht). exact Hn.
  - split.
    + exact (loop_trace_guarded _ _ _ _ _ Ht).
    + exact (loop_trace_deadline _ _ _ _ _ Ht).
Qed.

(** The bound at the attempt in which NVIDIA first returns code and then
    the answer. *)
Lemma C2_witness :
  let run :=
    _run_api_loop (RT := plain_runtime) (W := code_world) demo_orchestrator
      (lit "nvidia") question [] init_state in
  exists tr,
    log (snd run) = log init_state ++ EvClock 0%Z :: tr
    /\ (invocations tr <= 9)%nat
    /\ (forall before a p after,
           tr = before ++ EvInvoke a p :: after ->
           a = lit "nvidia"
           /\ exists earlier t,
                before = earlier ++ [EvClock t] /\ (t < 300000)%Z)
    /\ (forall before t after,
           tr = before ++ EvClock t :: after ->
           (300000 <= t)%Z ->
           after = [] /\ fst run = Ok (deadline_exceeded (lit "nvidia"))).
Proof.
  apply (C2_attempt_bounded plain_runtime code_world demo_orchestrator
           (lit "nvidia") question [] init_state).
  vm_compute. reflexivity.
Defined.

(** One step of a proof about what a computation returns. *)
Ltac returns_step :=
  match goal with
  | |- returns _ (ret _) => apply returns_ret
  | |- returns _ (raise _) => apply returns_raise
  | |- returns _ (bind _ _) => apply returns_bind; intros ?
  | |- returns _ (match ?x with _ => _ end) => destruct x
  end.

Lemma api_loop_returns (RT : Runtime) (W : World) (self : LLMOrchestrator)
  (api initial_prompt : pystr) (files : list (pystr * pystr)) (d : time)
  (fuel : nat) :
  forall history prompt iteration,
    returns (attempt_result self api)
      (api_loop self api initial_prompt files d fuel history prompt
         iteration).
Proof.
  induction fuel as [|fuel IH]; intros history prompt iteration; cbn.
  - apply returns_ret. left; reflexivity.
  - repeat first [apply IH | returns_step]; unfold attempt_result.
    + right; left; reflexivity.
    + right; right; right; right. eauto.
    + right; right; right; left; reflexivity.
    + right; right; left; reflexivity.
Qed.

Lemma _run_api_loop_returns (RT : Runtime) (W : World)
  (self : LLMOrchestrator) (api prompt : pystr)
  (files : list (pystr * pystr)) :
  returns (attempt_result self api) (_run_api_loop self api prompt files).
Proof.
  unfold _run_api_loop. apply returns_bind. intros start.
  apply api_loop_returns.
Qed.

(** C8, as stated, fails: when no provider answers, the result of the
    feedback loop has neither an [api_used] nor an [iterations] field; and
    when the first provider answers, the result has no [error] field, and
    has the two further fields [parsed] and [raw_output]. *)
Lemma C8_counterexample :
  (exists failure,
      fst (feedback_loop (RT := plain_runtime) (W := silent_world)
             demo_orchestrator question [] init_state) = Ok failure
      /\ dict_keys failure = failure_keys
      /\ dict_has failure (lit "api_used") = false
      /\ dict_has failure (lit "iterations") = false)
  /\ (exists success,
         fst (feedback_loop (RT := plain_runtime) (W := answer_world)
                demo_orchestrator question [] init_state) = Ok success
         /\ dict_keys success = success_keys
         /\ dict_has success (lit "error") = false).
Proof.
  split; eexists; (split; [vm_compute; reflexivity|]);
    vm_compute; repeat split; reflexivity.
Qed.

Lemma try_apis_returns (RT : Runtime) (W : World) (self : LLMOrchestrator)
  (todo : list pystr) (prompt : pystr) (files : list (pystr * pystr)) :
  returns
    (fun result =>
       (exists api iteration parsed llm_output,
           In api todo
           /\ result = succeeded api iteration parsed llm_output)
       \/ result = all_failed)
    (try_apis self todo prompt files).
Proof.
  induction todo as [|api rest IH]; cbn [try_apis].
  - apply returns_ret. right; reflexivity.
  - intros st result st' H. unfold bind in H.
    destruct (_run_api_loop self api prompt files st) as [[r|e] st1] eqn:E;
      [|inversion H].
    pose proof (_run_api_loop_returns _ _ _ _ _ _ _ _ _ E) as Hr.
    destruct Hr as [->|[->|[->|[->|(it & parsed & out & ->)]]]];
      cbn in H;
      try (destruct (IH _ _ _ H) as [(a & i & p & l & Hin & ->)| ->];
           [left; exists a, i, p, l; split; [right; exact Hin | reflexivity]
           |right; reflexivity]).
    inversion H; subst. left. exists api, it, parsed, out.
    split; [left; reflexivity | reflexivity].
Qed.

(** C8, amended.  Every result the feedback loop returns has one of two
    shapes.  A success has the fields success (true), final_answer,
    api_used (one of the three providers), iterations, parsed and
    raw_output, and no error field.  A failure is the failure of all
    providers, with the fields success (false), error and final_answer
    (None), and neither api_used nor iterations. *)
Theorem C8_result_shapes (RT : Runtime) (W : World) (self : LLMOrchestrator)
  (prompt : pystr) (files : list (pystr * pystr)) (st st' : State)
  (result : list (pystr * value)) :
  feedback_loop self prompt files st = (Ok result, st') ->
  (dict_keys result = success_keys
   /\ dict_get result (lit "success") = Some (PBool true)
   /\ exists api iteration,
        In api apis
        /\ dict_get result (lit "api_used") = Some (PStr api)
        /\ dict_get result (lit "iterations") = Some (PInt iteration))
  \/ (dict_keys result = failure_keys
      /\ result = all_failed
      /\ dict_get result (lit "success") = Some (PBool false)
      /\ dict_get result (lit "final_answer") = Some PNone).
Proof.
  intros H.
  destruct (try_apis_returns _ _ _ _ _ _ _ _ _ H)
    as [(api & it & parsed & out & Hin & ->)| ->].
  - left. split; [reflexivity|]. split; [reflexivity|].
    exists api, it. auto.
  - right. repeat split; reflexivity.
Qed.

(** The shapes at the run in which NVIDIA answers at once. *)
Lemma C8_witness :
  let result :=
    match fst (feedback_loop (RT := plain_runtime) (W := answer_world)
                 demo_orchestrator question [] init_state) with
    | Ok r => r
    | Raise _ => []
    end in
  (dict_keys result = success_keys
   /\ dict_get result (lit "success") = Some (PBool true)
   /\ exists api iteration,
        In api apis
        /\ dict_get result (lit "api_used") = Some (PStr api)
        /\ dict_get result (lit "iterations") = Some (PInt iteration))
  \/ (dict_keys result = failure_keys
      /\ result = all_failed
      /\ dict_get result (lit "success") = Some (PBool false)
      /\ dict_get result (lit "final_answer") = Some PNone).
Proof.
  refine (C8_result_shapes plain_runtime answer_world demo_orchestrator
            question [] init_state _ _ _).
  vm_compute. reflexivity.
Defined.

(** A run of two iterations: NVIDIA returns code, the executor runs it in a
    new container and tears the session down, the result goes back in the
    next prompt, and NVIDIA returns the answer. *)
Example code_then_answer :
  let run :=
    feedback_loop (RT := plain_runtime) (W := code_world) demo_orchestrator
      question [] init_state in
  (exists result,
      fst run = Ok result
      /\ dict_get result (lit "final_answer") = Some (PStr (lit "4"))
      /\ dict_get result (lit "iterations") = Some (PInt 2))
  /\ invocations (log (snd run)) = 2%nat
  /\ In (EvRun [lit "docker"; lit "exec"; lit "sandbox_01234567";
                lit "python"; lit "script.py"]) (log (snd run))
  /\ _active_container (snd run) = None
  /\ dirs (snd run) = [].
Proof.
  cbv zeta. split; [eexists; split; [vm_compute; reflexivity|]|];
    vm_compute; repeat split; try reflexivity; auto 20.
Qed.

(** C6. The providers are tried in the order nvidia, gemini, openai, and
    the first attempt that succeeds wins: when the attempts for the
    providers before one have failed and its own attempt returns a success,
    the feedback loop returns that result in the state in which that
    attempt ended, so that no later provider is invoked; and everything this
    attempt has left in the trace belongs to its own provider. *)
Theorem C6_first_answer_wins (RT : Runtime) (W : World)
  (self : LLMOrchestrator) (prompt : pystr) (files : list (pystr * pystr))
  (before after : list pystr) (api : pystr) (st st_k st' : State)
  (result : list (pystr * value)) :
  [lit "nvidia"; lit "gemini"; lit "openai"] = before ++ api :: after ->
  failed_attempts self prompt files before st st_k ->
  _run_api_loop self api prompt files st_k = (Ok result, st') ->
  dict_get result (lit "success") = Some (PBool true) ->
  feedback_loop self prompt files st = (Ok result, st')
  /\ grows (attempt_event api) st_k st'.
Proof.
  intros Hapis Hfail Hrun Hsucc. split.
  - unfold feedback_loop. change apis with [lit "nvidia"; lit "gemini";
      lit "openai"]. rewrite Hapis. clear Hapis.
    induction Hfail as [st|a rest st st1 st2 r Ha Hr Hrest IH].
    + cbn [app try_apis]. unfold bind. rewrite Hrun, Hsucc. reflexivity.
    + cbn [app try_apis]. unfold bind at 1. rewrite Ha, Hr.
      cbn [truthy]. apply IH, Hrun.
  - destruct (_run_api_loop_trace _ _ _ _ _ _ _ _ _ Hrun)
      as (n & tr & L & _ & Ht).
    exists (EvClock (clock (step st_k)) :: tr). split; [exact L|].
    constructor; [exact I|]. eapply loop_trace_events; eauto.
Qed.

(** The theorem at the run in which NVIDIA, the first provider, answers on
    its first iteration: the feedback loop returns that answer, and the
    trace holds the two clock readings, the invocation of NVIDIA and the
    events of its client, nothing else. *)
Lemma C6_witness :
  let run :=
    feedback_loop (RT := plain_runtime) (W := answer_world) demo_orchestrator
      question [] init_state in
  (fst run
   = Ok (succeeded (lit "nvidia") 1
           (LLMParser.parse_response (RT := plain_runtime) reply_answer_4)
           reply_answer_4)
   /\ snd run
      = snd (_run_api_loop (RT := plain_runtime) (W := answer_world)
               demo_orchestrator (lit "nvidia") question [] init_state))
  /\ grows (attempt_event (lit "nvidia")) init_state (snd run).
Proof.
  destruct (C6_first_answer_wins plain_runtime answer_world demo_orchestrator
              question [] [] [lit "gemini"; lit "openai"] (lit "nvidia")
              init_state init_state
              (snd (_run_api_loop (RT := plain_runtime) (W := answer_world)
                      demo_orchestrator (lit "nvidia") question []
                      init_state))
              (succeeded (lit "nvidia") 1
                 (LLMParser.parse_response (RT := plain_runtime)
                    reply_answer_4)
                 reply_answer_4)
              eq_refl (FA_nil _ _ _ _)) as [H1 H2].
  - vm_compute. reflexivity.
  - vm_compute. reflexivity.
  - cbv zeta. rewrite H1. cbn [fst snd]. auto.
Defined.

End OrchestratorClaims.

(** * Properties of the provider client *)

Section ClientRelation.
Import Clients.
Context {W : World}.
Variable R : State -> State -> Prop.
Hypothesis R_refl : forall st, R st st.
Hypothesis R_trans : forall a b c, R a b -> R b c -> R a c.
Hypothesis R_record : forall e st, R st (record e st).
Hypothesis R_store :
  forall e c st, R st (set_cache c (record e st)).

Lemma cache_get_keeps (key : pystr) : keeps R (cache_get key).
Proof.
  intros st o st' H. unfold cache_get in H.
  assert (st' = record (EvCacheGet key) st) as ->; [|apply R_record].
  repeat match type of H with
         | context [match ?x with _ => _ end] => destruct x
         end; inversion H; subst; reflexivity.
Qed.

Lemma cache_set_keeps (key value : pystr) (expire : Z) :
  keeps R (cache_set key value expire).
Proof.
  intros st o st' H. unfold cache_set in H.
  destruct (disk_ok (step st)); inversion H; subst;
    [apply R_store | apply R_record].
Qed.

Lemma on_failure_keeps (self : LLMClient) (attempt : Z) :
  keeps R (on_failure self attempt).
Proof.
  unfold on_failure. destruct (_ <=? _)%Z.
  - intros st o st' H. inversion H; subst. apply R_record.
  - apply keeps_ret, R_refl.
Qed.

Ltac client_keeps :=
  first
    [ apply on_failure_keeps
    | apply cache_get_keeps
    | apply cache_set_keeps
    | apply R_record
    | keeps_step R_refl R_trans ].

Lemma call_gemini_keeps (self : LLMClient) (prompt : pystr) :
  keeps R (call_gemini self prompt).
Proof.
  assert (Hloop : forall key fuel attempt,
             keeps R (gemini_loop self prompt key fuel attempt)).
  { intros key fuel. induction fuel as [|fuel IH]; intros attempt; cbn.
    - apply keeps_ret, R_refl.
    - repeat first [apply IH | client_keeps]. }
  unfold call_gemini. repeat first [apply Hloop | client_keeps].
Qed.

Lemma call_nvidia_keeps (self : LLMClient) (prompt : pystr) :
  keeps R (call_nvidia self prompt).
Proof.
  assert (Hloop : forall key fuel attempt,
             keeps R (nvidia_loop self prompt key fuel attempt)).
  { intros key fuel. induction fuel as [|fuel IH]; intros attempt; cbn.
    - apply keeps_ret, R_refl.
    - repeat first [apply IH | client_keeps]. }
  unfold call_nvidia. repeat first [apply Hloop | client_keeps].
Qed.

Lemma call_openai_keeps (self : LLMClient) (prompt : pystr) :
  keeps R (call_openai self prompt).
Proof.
  assert (Hloop : forall key fuel attempt,
             keeps R (openai_loop self prompt key fuel attempt)).
  { intros key fuel. induction fuel as [|fuel IH]; intros attempt; cbn.
    - apply keeps_ret, R_refl.
    - repeat first [apply IH | client_keeps]. }
  unfold call_openai. repeat first [apply Hloop | client_keeps].
Qed.

End ClientRelation.

(** * The breakers in a run *)

Section ExecutorFrame.
Import CodeExecutor.
Context {W : World}.
Variable R : State -> State -> Prop.
Hypothesis R_refl : forall st, R st st.
Hypothesis R_trans : forall a b c, R a b -> R b c -> R a c.
Hypothesis R_record : forall e st, R st (record e st).
Hypothesis R_container : forall c st, R st (set_active_container c st).
Hypothesis R_work_dir : forall w st, R st (set_work_dir w st).
Hypothesis R_dirs : forall d st, R st (set_dirs d st).

Lemma rmtree_keeps (path : pystr) : keeps R (rmtree path).
Proof.
  intros st o st' H. inversion H; subst.
  eapply R_trans; [apply R_record | apply R_dirs].
Qed.

Lemma _cleanup_container_keeps : keeps R _cleanup_container.
Proof.
  unfold _cleanup_container.
  repeat first [apply rmtree_keeps | apply R_record | apply R_container
               | apply R_work_dir | keeps_step R_refl R_trans].
Qed.

(** What the events of the trace and the globals of the executor do not
    touch, [run_code] leaves as it was. *)
Lemma run_code_frame (code : code_arg) (files : list (pystr * pystr))
  (keep : bool) :
  keeps R (run_code code files keep).
Proof.
  unfold run_code, run_body, cleanup_unless.
  repeat first
    [ apply _cleanup_container_keeps
    | apply run_script_keeps;
        [exact R_refl | exact R_trans | intros; apply R_record
        | intros wd st; eapply R_trans; [apply R_dirs | apply R_work_dir]
        | intros; apply R_container]
    | keeps_step R_refl R_trans
    | match goal with
      | |- keeps _ (let '(_, _) := ?x in _) => destruct x
      | |- keeps _ (if ?b then _ else _) => destruct b
      end ].
Qed.

End ExecutorFrame.

Section OrchestratorFrame.
Import LLMOrchestrator.
Context {RT : Runtime} {W : World}.
Variable R : State -> State -> Prop.
Hypothesis R_refl : forall st, R st st.
Hypothesis R_trans : forall a b c, R a b -> R b c -> R a c.
Hypothesis R_record : forall e st, R st (record e st).
Hypothesis R_store : forall e c st, R st (set_cache c (record e st)).
Hypothesis R_run : forall code files, keeps R (CodeExecutor.run code files).

Lemma provider_frame (self : LLMOrchestrator) (api : pystr)
  (fn : pystr -> M (option pystr)) (prompt : pystr) :
  provider self api = Some fn -> keeps R (fn prompt).
Proof.
  unfold provider.
  destruct (str_eqb api (lit "openai")).
  { intros H; inversion H; subst. apply call_openai_keeps; assumption. }
  destruct (str_eqb api (lit "nvidia")).
  { intros H; inversion H; subst. apply call_nvidia_keeps; assumption. }
  destruct (str_eqb api (lit "gemini")); [|discriminate].
  intros H; inversion H; subst. apply call_gemini_keeps; assumption.
Qed.

Lemma _call_with_timeout_frame (self : LLMOrchestrator) (api : pystr)
  (fn : pystr -> M (option pystr)) (prompt : pystr) :
  provider self api = Some fn -> keeps R (_call_with_timeout api fn prompt).
Proof.
  intros Hp st o st' H. unfold _call_with_timeout in H.
  destruct (fn prompt (record (EvInvoke api prompt) st)) as [r st2] eqn:E.
  assert (st' = st2) as ->.
  { destruct r; destruct (overdue (step st)); inversion H; reflexivity. }
  eapply R_trans; [apply R_record|].
  eapply provider_frame; eauto.
Qed.

Lemma api_loop_frame (self : LLMOrchestrator) (api initial_prompt : pystr)
  (files : list (pystr * pystr)) (d : time) (fuel : nat) :
  forall history prompt iteration,
    keeps R
      (api_loop self api initial_prompt files d fuel history prompt
         iteration).
Proof.
  induction fuel as [|fuel IH]; intros history prompt iteration;
    cbn [api_loop].
  - apply keeps_ret, R_refl.
  - apply keeps_bind; [exact R_trans | |intros now].
    { apply keeps_time_time. intros t st. apply R_record. }
    destruct (d <=? now)%Z; [apply keeps_ret, R_refl|].
    destruct (provider self api) as [fn|] eqn:Ep; [|apply keeps_ret, R_refl].
    apply keeps_bind; [exact R_trans | |intros llm_output].
    { eapply _call_with_timeout_frame; eauto. }
    destruct (Clients.nonempty llm_output) as [out|];
      [|apply keeps_ret, R_refl].
    destruct (str_eqb _ (lit "final_answer")); [apply keeps_ret, R_refl|].
    match goal with
    | |- keeps _ (if ?b then _ else _) => destruct b
    end.
    + apply keeps_bind; [exact R_trans | apply R_run |].
      intros exec_results. apply IH.
    + apply IH.
Qed.

Lemma _run_api_loop_frame (self : LLMOrchestrator) (api prompt : pystr)
  (files : list (pystr * pystr)) :
  keeps R (_run_api_loop self api prompt files).
Proof.
  unfold _run_api_loop.
  apply keeps_bind; [exact R_trans | |intros start].
  - apply keeps_time_time. intros t st. apply R_record.
  - apply api_loop_frame.
Qed.

Lemma feedback_loop_frame (self : LLMOrchestrator) (prompt : pystr)
  (files : list (pystr * pystr)) :
  keeps R (feedback_loop self prompt files).
Proof.
  unfold feedback_loop. generalize apis as todo.
  induction todo as [|api rest IH]; cbn [try_apis].
  - apply keeps_ret, R_refl.
  - apply keeps_bind; [exact R_trans | |intros result].
    + apply _run_api_loop_frame.
    + destruct (dict_get result (lit "success")) as [success|];
        [|apply keeps_raise, R_refl].
      destruct (truthy success); [apply keeps_ret, R_refl | exact IH].
Qed.

End OrchestratorFrame.

Section BreakerInvariant.
Import Clients.

Lemma same_breakers_refl (st : State) : same_breakers st st.
Proof. reflexivity. Qed.

Lemma same_breakers_trans (a b c : State) :
  same_breakers a b -> same_breakers b c -> same_breakers a c.
Proof. unfold same_breakers. congruence. Qed.

(** Nothing a run calls changes a breaker, whether the call returns or
    raises: not the three provider calls, not [chat], not the executor,
    and not the feedback loop. *)
Lemma run_keeps_breakers (RT : Runtime) (W : World) :
  (forall self prompt,
      keeps same_breakers (call_gemini self prompt)
      /\ keeps same_breakers (call_nvidia self prompt)
      /\ keeps same_breakers (call_openai self prompt))
  /\ (forall self task_prompt files,
         keeps same_breakers (chat self task_prompt files))
  /\ (forall code files keep,
         keeps same_breakers (CodeExecutor.run_code code files keep))
  /\ keeps same_breakers CodeExecutor.cleanup
  /\ (forall self prompt files,
         keeps same_breakers (LLMOrchestrator.feedback_loop self prompt files)).
Proof.
  assert (Hrun : forall code files keep,
             keeps same_breakers (CodeExecutor.run_code code files keep)).
  { intros. apply run_code_frame;
      first [exact same_breakers_refl | exact same_breakers_trans
            | intros; reflexivity]. }
  split; [|split; [|split; [|split]]].
  - intros self prompt.
    split; [|split];
      [apply call_gemini_keeps | apply call_nvidia_keeps
      | apply call_openai_keeps];
      first [exact same_breakers_refl | exact same_breakers_trans
            | intros; reflexivity].
  - intros self task_prompt files st o st' H. unfold chat in H.
    inversion H; subst. reflexivity.
  - exact Hrun.
  - apply _cleanup_container_keeps;
      first [exact same_breakers_refl | exact same_breakers_trans
            | intros; reflexivity].
  - intros self prompt files. apply feedback_loop_frame;
      first [exact same_breakers_refl | exact same_breakers_trans
            | intros; apply Hrun | intros; reflexivity].
Qed.

(** So the breakers [__init__] has created are the breakers of every later
    state of the run. *)
Lemma fresh_breakers_kept (st st' : State) :
  same_breakers st st' -> fresh_breakers st -> fresh_breakers st'.
Proof. unfold same_breakers, fresh_breakers. congruence. Qed.

End BreakerInvariant.

Section ClientClaims.
Import Clients Examples.


(** The breaker itself: a success clears it; the failure that reaches the
    threshold blocks it for the cooldown from the time of that failure; and
    it is open exactly while the clock is before [block_until]. *)
Lemma record_success_resets (b : _Breaker) :
  failures (record_success b) = 0%Z /\ block_until (record_success b) = 0%Z.
Proof. split; reflexivity. Qed.

Lemma record_failure_blocks (W : World) (b : _Breaker) (st : State) :
  (threshold b <= failures b + 1)%Z ->
  exists b',
    record_failure b st = (Ok b', record (EvClock (clock (step st))) st)
    /\ failures b' = (failures b + 1)%Z
    /\ block_until b' = (clock (step st) + seconds (cooldown_sec b))%Z.
Proof.
  intros H. unfold record_failure.
  apply Z.leb_le in H. rewrite H.
  eexists. split; [reflexivity|]. split; reflexivity.
Qed.

Lemma is_open_iff (W : World) (b : _Breaker) (st : State) :
  fst (is_open b st) = Ok true <-> (clock (step st) < block_until b)%Z.
Proof.
  unfold is_open, bind, time_time, ret. cbn [fst].
  destruct (clock (step st) <? block_until b)%Z eqn:E.
  - apply Z.ltb_lt in E. split; auto.
  - apply Z.ltb_ge in E. split; [discriminate | lia].
Qed.

(** C1, on the code.  With the breaker of Gemini open at the time of the
    call (three failures, blocked until later), [call_gemini] still sends
    the request and returns its text.  And from a fresh process in which
    every request to Gemini raises, four invocations in a row send their
    three requests each, twelve in all: no failure is ever recorded, and
    the breaker stays closed. *)
Theorem C1_breaker_not_consulted :
  (fst (is_open (W := gemini_world) open_breaker blocked_state) = Ok true
   /\ dict_get (_breakers blocked_state) (lit "gemini") = Some open_breaker
   /\ fst (call_gemini (W := gemini_world) demo_client question blocked_state)
      = Ok (Some reply_answer_4)
   /\ requests_to (lit "gemini")
        (log (snd (call_gemini (W := gemini_world) demo_client question
                     blocked_state))) = 1%nat)
  /\ (fst (four_calls (W := silent_world) init_state) = Ok None
      /\ requests_to (lit "gemini")
           (log (snd (four_calls (W := silent_world) init_state))) = 12%nat
      /\ _breakers (snd (four_calls (W := silent_world) init_state))
         = init_breakers).
Proof. vm_compute. repeat split; reflexivity. Qed.


Lemma nonempty_some (o : option pystr) (t : pystr) :
  nonempty o = Some t -> t <> [] /\ o = Some t.
Proof.
  destruct o as [[|c r]|]; cbn; try discriminate.
  intros H; inversion H; subst. split; [discriminate | reflexivity].
Qed.

Section ProviderSuccess.
Context {W : World}.
Variables (obtained : nat -> option pystr) (api prompt key : pystr).





End ProviderSuccess.

Section LoopSuccess.
Context {W : World}.
Variables (self : LLMClient) (prompt key : pystr).






End LoopSuccess.



End ClientClaims.

(** * Properties of the file names *)

Section SanitizeFacts.
Import Validation Props.

Lemma before_without (c : char) (s : pystr) :
  Forall (fun x => x <> c) (before c s).
Proof.
  induction s as [|x r IH]; cbn; [constructor|].
  destruct (x =? c)%N eqn:E; [constructor|].
  constructor; [apply N.eqb_neq, E | exact IH].
Qed.

Lemma before_Forall (P : char -> Prop) (c : char) (s : pystr) :
  Forall P s -> Forall P (before c s).
Proof.
  induction 1 as [|x r Hx Hr IH]; cbn; [constructor|].
  destruct (x =? c)%N; constructor; assumption.
Qed.

Lemma before_fixed (c : char) (s : pystr) :
  Forall (fun x => x <> c) s -> before c s = s.
Proof.
  induction 1 as [|x r Hx Hr IH]; cbn; [reflexivity|].
  apply N.eqb_neq in Hx. rewrite Hx, IH. reflexivity.
Qed.

Lemma after_last_without (c : char) (s : pystr) :
  Forall (fun x => x <> c) (after_last c s).
Proof. unfold after_last. apply Forall_rev, before_without. Qed.

Lemma after_last_Forall (P : char -> Prop) (c : char) (s : pystr) :
  Forall P s -> Forall P (after_last c s).
Proof.
  intros H. unfold after_last. apply Forall_rev, before_Forall, Forall_rev, H.
Qed.

Lemma after_last_fixed (c : char) (s : pystr) :
  Forall (fun x => x <> c) s -> after_last c s = s.
Proof.
  intros H. unfold after_last.
  rewrite before_fixed; [apply rev_involutive | apply Forall_rev, H].
Qed.

Lemma sub_reserved_safe (s : pystr) :
  Forall (fun x => x <> 47 /\ x <> 92) s -> Forall safe_char (sub_reserved s).
Proof.
  unfold sub_reserved. induction 1 as [|x r [H1 H2] Hr IH]; cbn [map];
    constructor; try exact IH.
  destruct (in_chars reserved x) eqn:E.
  - split; [discriminate | split; [discriminate | reflexivity]].
  - split; [exact H1 | split; [exact H2 | exact E]].
Qed.

Lemma sub_reserved_fixed (s : pystr) :
  Forall safe_char s -> sub_reserved s = s.
Proof.
  unfold sub_reserved. induction 1 as [|x r (_ & _ & H) Hr IH]; cbn [map];
    [reflexivity|].
  rewrite H, IH. reflexivity.
Qed.

Lemma lstrip_by_Forall (P : char -> Prop) (p : char -> bool) (s : pystr) :
  Forall P s -> Forall P (lstrip_by p s).
Proof.
  induction 1 as [|x r Hx Hr IH]; cbn; [constructor|].
  destruct (p x); [exact IH | constructor; assumption].
Qed.

Lemma rstrip_by_Forall (P : char -> Prop) (p : char -> bool) (s : pystr) :
  Forall P s -> Forall P (rstrip_by p s).
Proof.
  intros H. unfold rstrip_by. apply Forall_rev, lstrip_by_Forall, Forall_rev, H.
Qed.

Lemma rstrip_by_fixed (p : char -> bool) (s : pystr) :
  head_kept p (rev s) -> rstrip_by p s = s.
Proof.
  intros H. unfold rstrip_by. rewrite lstrip_by_fixed; [|exact H].
  apply rev_involutive.
Qed.

Lemma rstrip_by_last_kept (p : char -> bool) (s : pystr) :
  head_kept p (rev (rstrip_by p s)).
Proof.
  unfold rstrip_by. rewrite rev_involutive. apply lstrip_by_head_kept.
Qed.

Lemma untitled_safe : safe_name (lit "untitled").
Proof.
  split; [discriminate|]. split; [|split; reflexivity].
  repeat constructor; discriminate.
Qed.

(** What [sanitize_filename] returns is a name it has nothing to change
    in. *)
Lemma sanitize_filename_is_safe (f : pystr) : safe_name (sanitize_filename f).
Proof.
  unfold sanitize_filename.
  set (f1 := after_last 92 (after_last 47 f)).
  assert (H1 : Forall (fun x => x <> 47 /\ x <> 92) f1).
  { apply Forall_and.
    - apply after_last_Forall, after_last_without.
    - apply after_last_without. }
  pose proof (sub_reserved_safe f1 H1) as H2.
  set (f2 := sub_reserved f1) in *.
  destruct (strip_chars (lit " .") f2) as [|c r] eqn:E;
    [apply untitled_safe|].
  rewrite <- E. unfold strip_chars, lstrip_chars, rstrip_chars.
  split; [unfold strip_chars, lstrip_chars, rstrip_chars in E;
          rewrite E; discriminate|].
  split; [apply rstrip_by_Forall, lstrip_by_Forall, H2|].
  split; [apply rstrip_by_head_kept, lstrip_by_head_kept
         |apply rstrip_by_last_kept].
Qed.

(** A safe name goes through [sanitize_filename] unchanged. *)
Lemma sanitize_filename_fixes_safe (s : pystr) :
  safe_name s -> sanitize_filename s = s.
Proof.
  intros (Hne & Hs & Hh & Hl). unfold sanitize_filename.
  assert (H47 : Forall (fun x => x <> 47) s).
  { eapply Forall_impl; [|exact Hs]. intros x (H & _ & _). exact H. }
  assert (H92 : Forall (fun x => x <> 92) s).
  { eapply Forall_impl; [|exact Hs]. intros x (_ & H & _). exact H. }
  rewrite (after_last_fixed 47 s H47), (after_last_fixed 92 s H92).
  rewrite (sub_reserved_fixed s Hs).
  unfold strip_chars, lstrip_chars, rstrip_chars.
  rewrite (lstrip_by_fixed _ s Hh), (rstrip_by_fixed _ s Hl).
  destruct s; [congruence | reflexivity].
Qed.

(** X1. Whatever the name it is given, [sanitize_filename] returns a name
    that is not empty, holds neither a slash nor a backslash nor one of the
    reserved characters, and has neither a space nor a dot at either end;
    so it is never a path, and never one of the names [.] and [..]. *)
Theorem sanitize_filename_safe (f : pystr) :
  let name := Validation.sanitize_filename f in
  name <> []
  /\ Forall (fun c => c <> 47 /\ c <> 92
                      /\ in_chars Validation.reserved c = false) name
  /\ (forall c r, name = c :: r -> c <> 32 /\ c <> 46)
  /\ (forall c r, name = r ++ [c] -> c <> 32 /\ c <> 46).
Proof.
  cbv zeta. destruct (sanitize_filename_is_safe f) as (Hne & Hs & Hh & Hl).
  split; [exact Hne|]. split; [exact Hs|]. split.
  - intros c r E. rewrite E in Hh. cbn in Hh.
    destruct (c =? 32)%N eqn:E1; [discriminate|].
    destruct (c =? 46)%N eqn:E2; [discriminate|].
    split; apply N.eqb_neq; assumption.
  - intros c r E. rewrite E, rev_app_distr in Hl. cbn in Hl.
    destruct (c =? 32)%N eqn:E1; [discriminate|].
    destruct (c =? 46)%N eqn:E2; [discriminate|].
    split; apply N.eqb_neq; assumption.
Qed.

(** X2. [sanitize_filename] is idempotent, and the names it leaves as they
    are are exactly the safe names: a name that the endpoint has sanitized
    is stored by the loader under that very name. *)
Theorem sanitize_filename_idempotent (f : pystr) :
  Validation.sanitize_filename (Validation.sanitize_filename f)
  = Validation.sanitize_filename f
  /\ (Validation.sanitize_filename f = f <-> safe_name f).
Proof.
  split.
  - apply sanitize_filename_fixes_safe, sanitize_filename_is_safe.
  - split.
    + intros E. rewrite <- E. apply sanitize_filename_is_safe.
    + apply sanitize_filename_fixes_safe.
Qed.

End SanitizeFacts.

(** * Further properties of the parser *)

Section StripMore.
Variables p q : char -> bool.
Hypothesis p_in_q : forall c, p c = true -> q c = true.

Lemma lstrip_by_app (x y : pystr) :
  lstrip_by p (x ++ y)
  = match lstrip_by p x with
    | [] => lstrip_by p y
    | z => z ++ y
    end.
Proof.
  induction x as [|c r IH]; cbn; [reflexivity|].
  destruct (p c); [exact IH | reflexivity].
Qed.

Lemma rstrip_by_cons (c : char) (r : pystr) :
  rstrip_by p (c :: r)
  = match rstrip_by p r with
    | [] => if p c then [] else [c]
    | z => c :: z
    end.
Proof.
  unfold rstrip_by. cbn [rev]. rewrite lstrip_by_app.
  destruct (lstrip_by p (rev r)) as [|x z] eqn:E.
  - cbn. destruct (p c); reflexivity.
  - cbn [rev]. rewrite rev_app_distr. cbn [rev app].
    destruct (rev z ++ [x]) eqn:E2; [|reflexivity].
    destruct (rev z); discriminate.
Qed.

Lemma rstrip_by_snoc (x : pystr) (c : char) :
  p c = true -> rstrip_by p (x ++ [c]) = rstrip_by p x.
Proof.
  intros Hc. unfold rstrip_by. rewrite rev_app_distr. cbn. rewrite Hc.
  reflexivity.
Qed.

Lemma lstrip_by_nil_rstrip (s : pystr) :
  lstrip_by p s = [] -> rstrip_by p s = [].
Proof.
  induction s as [|c r IH]; [reflexivity|].
  cbn [lstrip_by]. destruct (p c) eqn:E; [|discriminate].
  intros H. rewrite rstrip_by_cons, (IH H), E. reflexivity.
Qed.

Lemma rstrip_by_nil_lstrip (s : pystr) :
  rstrip_by p s = [] -> lstrip_by p s = [].
Proof.
  induction s as [|c r IH]; [reflexivity|].
  rewrite rstrip_by_cons. cbn [lstrip_by].
  destruct (rstrip_by p r) as [|x z]; [|discriminate].
  destruct (p c); [intros _; apply IH; reflexivity | discriminate].
Qed.

(** Stripping the two ends can be done in either order. *)
Lemma strip_by_comm (s : pystr) :
  rstrip_by p (lstrip_by p s) = lstrip_by p (rstrip_by p s).
Proof.
  induction s as [|c r IH]; [reflexivity|].
  cbn [lstrip_by]. destruct (p c) eqn:E.
  - rewrite rstrip_by_cons, E.
    destruct (rstrip_by p r) as [|x z] eqn:Er.
    + rewrite (rstrip_by_nil_lstrip r Er). reflexivity.
    + cbn [lstrip_by]. rewrite E. exact IH.
  - symmetry. apply lstrip_by_fixed, rstrip_by_head_kept. exact E.
Qed.

(** A narrower class stripped first makes no difference. *)
Lemma lstrip_by_absorb (s : pystr) :
  lstrip_by q (lstrip_by p s) = lstrip_by q s.
Proof.
  induction s as [|c r IH]; [reflexivity|].
  cbn [lstrip_by]. destruct (p c) eqn:E; [|reflexivity].
  rewrite (p_in_q c E). exact IH.
Qed.

Lemma rstrip_by_absorb (s : pystr) :
  rstrip_by q (rstrip_by p s) = rstrip_by q s.
Proof.
  unfold rstrip_by. rewrite rev_involutive, lstrip_by_absorb. reflexivity.
Qed.

End StripMore.

Section FenceFacts.
Import LLMParser Props.

Lemma fence_trim_isspace (c : char) :
  in_chars fence_trim c = true -> isspace c = true.
Proof.
  unfold in_chars, fence_trim. cbn [existsb].
  destruct (c =? 10)%N eqn:E1; [apply N.eqb_eq in E1; subst; reflexivity|].
  destruct (c =? 13)%N eqn:E2; [apply N.eqb_eq in E2; subst; reflexivity|].
  destruct (c =? 32)%N eqn:E3; [apply N.eqb_eq in E3; subst; reflexivity|].
  discriminate.
Qed.

(** Stripping the fence characters at either end first does not change
    what [strip] gives. *)
Lemma strip_absorbs_fence_trim (s : pystr) :
  strip (rstrip_chars fence_trim (lstrip_chars fence_trim s)) = strip s.
Proof.
  unfold strip, rstrip_chars, lstrip_chars.
  rewrite (strip_by_comm isspace
             (rstrip_by (in_chars fence_trim)
                (lstrip_by (in_chars fence_trim) s))).
  rewrite (rstrip_by_absorb _ _ fence_trim_isspace).
  rewrite <- (strip_by_comm isspace).
  rewrite (lstrip_by_absorb _ _ fence_trim_isspace).
  reflexivity.
Qed.

Lemma startswith_app (pre rest : pystr) : startswith (pre ++ rest) pre = true.
Proof.
  induction pre as [|c r IH]; [destruct rest; reflexivity|].
  cbn. rewrite N.eqb_refl. exact IH.
Qed.

Lemma endswith_app (rest suf : pystr) : endswith (rest ++ suf) suf = true.
Proof. unfold endswith. rewrite rev_app_distr. apply startswith_app. Qed.

Lemma drop_last_app (x suf : pystr) :
  drop_last (List.length suf) (x ++ suf) = x.
Proof.
  unfold drop_last. rewrite length_app.
  replace (List.length x + List.length suf - List.length suf)%nat
    with (List.length x + 0)%nat by lia.
  rewrite firstn_app_2. cbn. apply app_nil_r.
Qed.

Lemma strip_fixed (s : pystr) :
  head_kept isspace s -> head_kept isspace (rev s) -> strip s = s.
Proof.
  intros H1 H2. unfold strip. rewrite (lstrip_by_fixed isspace s H1).
  apply rstrip_by_fixed, H2.
Qed.

(** What is left of a fenced reply once the opening fence and its tag are
    cut off, with the fence characters stripped at the left. *)
Lemma fence_opened (body : pystr) :
  lstrip_chars fence_trim ([10] ++ body ++ [10] ++ lit "```")
  = match lstrip_chars fence_trim body with
    | [] => lit "```"
    | z => z ++ [10] ++ lit "```"
    end.
Proof.
  unfold lstrip_chars. cbn [app lstrip_by]. change (in_chars fence_trim 10)
    with true. cbv iota.
  rewrite lstrip_by_app.
  destruct (lstrip_by (in_chars fence_trim) body); reflexivity.
Qed.

(** The test for the empty text at the head of
    [_strip_backticks_if_needed] changes nothing. *)
Lemma _strip_backticks_eq (text : pystr) :
  _strip_backticks_if_needed text
  = let t := strip text in
    let t :=
      if startswith (lower t) (lit "```json")
      then lstrip_chars fence_trim (skipn 7 t)
      else if startswith t (lit "```")
           then lstrip_chars fence_trim (skipn 3 t)
           else t in
    let t :=
      if endswith t (lit "```")
      then rstrip_chars fence_trim (drop_last 3 t)
      else t in
    strip t.
Proof. destruct text; reflexivity. Qed.

(** The fences and the tag are removed, and the body comes out stripped. *)
Lemma fence_removed (tag body : pystr) :
  json_tag tag -> _strip_backticks_if_needed (fenced tag body) = strip body.
Proof.
  intros Htag. rewrite _strip_backticks_eq. cbv zeta.
  assert (Hs : strip (fenced tag body) = fenced tag body).
  { apply strip_fixed.
    - reflexivity.
    - unfold fenced. rewrite !rev_app_distr. reflexivity. }
  rewrite Hs.
  assert (Hopen :
            (if startswith (lower (fenced tag body)) (lit "```json")
             then lstrip_chars fence_trim (skipn 7 (fenced tag body))
             else if startswith (fenced tag body) (lit "```")
                  then lstrip_chars fence_trim (skipn 3 (fenced tag body))
                  else fenced tag body)
            = lstrip_chars fence_trim ([10] ++ body ++ [10] ++ lit "```")).
  { destruct Htag as [->|Hj].
    - reflexivity.
    - assert (Hl : lower (fenced tag body)
                   = lit "```json"
                     ++ lower ([10] ++ body ++ [10] ++ lit "```")).
      { unfold fenced, lower. rewrite !map_app. fold (lower tag).
        rewrite Hj. reflexivity. }
      rewrite Hl, startswith_app.
      assert (Hn : List.length tag = 4%nat).
      { rewrite <- (length_map lower_char tag). fold (lower tag).
        rewrite Hj. reflexivity. }
      destruct tag as [|a [|b [|c [|d [|e tag]]]]]; try discriminate.
      reflexivity. }
  rewrite Hopen, fence_opened. clear Hopen Hs.
  destruct (lstrip_chars fence_trim body) as [|c r] eqn:El.
  - change (endswith (lit "```") (lit "```")) with true. cbv iota.
    change (strip (rstrip_chars fence_trim (drop_last 3 (lit "```"))))
      with (@nil char).
    symmetry. unfold strip.
    rewrite <- (lstrip_by_absorb _ _ fence_trim_isspace body).
    unfold lstrip_chars in El. rewrite El. reflexivity.
  - cbv iota. rewrite app_assoc, endswith_app.
    change 3%nat with (List.length (lit "```")). rewrite drop_last_app.
    unfold rstrip_chars at 1. rewrite rstrip_by_snoc by reflexivity.
    rewrite <- El. apply strip_absorbs_fence_trim.
Qed.

End FenceFacts.

Section FenceClaims.
Import LLMParser Props Examples.

(** X3. A reply wrapped in a Markdown fence, with no language tag or with
    the tag json in any case, loses the fence: what
    [_strip_backticks_if_needed] returns is the body between the fences,
    stripped of the white space around it. *)
Theorem fence_round_trip (tag body : pystr) :
  json_tag tag ->
  _strip_backticks_if_needed (fenced tag body) = strip body.
Proof. apply fence_removed. Qed.

(** The round trip at the answer object in a fence tagged JSON. *)
Lemma fence_round_trip_witness :
  _strip_backticks_if_needed
    (fenced (lit "JSON") ([32; 32] ++ reply_answer_4 ++ [9]))
  = strip ([32; 32] ++ reply_answer_4 ++ [9]).
Proof.
  apply (fence_round_trip (lit "JSON") ([32; 32] ++ reply_answer_4 ++ [9])).
  right. reflexivity.
Defined.

Lemma fenced_stripped (tag body : pystr) :
  strip (fenced tag body) = fenced tag body.
Proof.
  apply strip_fixed.
  - reflexivity.
  - unfold fenced. rewrite !rev_app_distr. reflexivity.
Qed.

(** [parse_response] on a reply that is not blank: the three tiers. *)
Lemma parse_response_tiers (RT : Runtime) (response : pystr) :
  strip response <> [] ->
  parse_response response
  = match Json.loads (_strip_backticks_if_needed (strip response)) with
    | Some (PDict parsed) =>
        match dict_get parsed (lit "final answer") with
        | Some fa =>
            {| raw_response := response; type := lit "final_answer";
               content := fa; code_blocks := [];
               final_answer := fa; analysis := PNone; delegation := PNone;
               requires_followup := false |}
        | None =>
            match dict_get parsed (lit "code") with
            | Some code_content =>
                {| raw_response := response; type := lit "code";
                   content :=
                     PStr (join [10; 10] (normalize_code code_content));
                   code_blocks := normalize_code code_content;
                   final_answer := PNone;
                   analysis :=
                     match dict_get parsed (lit "analysis") with
                     | Some a => a
                     | None => PNone
                     end;
                   delegation := PNone; requires_followup := false |}
            | None => parse_fallback response (strip response)
            end
        end
    | _ => parse_fallback response (strip response)
    end.
Proof.
  intros Hne. unfold parse_response.
  destruct (strip response); [congruence | reflexivity].
Qed.

(** [parse_response] under the limits of the interpreter, by what
    [json.loads] does on the cleaned text. *)
Lemma limits_parse_response_eq (RT : Runtime) (PY : Limits.Interpreter)
  (response : pystr) :
  Limits.parse_response response
  = match strip response with
    | [] => Limits.Returns (parse_response response)
    | _ =>
        match Limits.loads (_strip_backticks_if_needed (strip response)) with
        | Limits.Fatal e => Limits.Raises e
        | _ => Limits.Returns (parse_response response)
        end
    end.
Proof.
  unfold Limits.parse_response, parse_response.
  destruct (strip response) as [|c t]; [reflexivity|]. cbv zeta.
  pose proof (loads_agrees (_strip_backticks_if_needed (c :: t))) as Ha.
  destruct (Limits.loads (_strip_backticks_if_needed (c :: t)))
    as [v| | |e]; cbn [Bounds.agrees] in Ha; try rewrite Ha;
    try reflexivity.
  destruct v; try reflexivity.
  destruct (dict_get d (lit "final answer")); [reflexivity|].
  destruct (dict_get d (lit "code")); reflexivity.
Qed.

Lemma limits_parse_response_parsed (RT : Runtime) (PY : Limits.Interpreter)
  (response : pystr) (v : value) :
  Limits.loads (_strip_backticks_if_needed (strip response))
  = Limits.Parsed v ->
  Limits.parse_response response = Limits.Returns (parse_response response).
Proof.
  intros Hl. rewrite limits_parse_response_eq.
  destruct (strip response); [reflexivity|]. rewrite Hl. reflexivity.
Qed.

Lemma limits_loads_parsed (PY : Limits.Interpreter) (s : pystr) (v : value) :
  Limits.loads s = Limits.Parsed v -> Json.loads s = Some v.
Proof.
  intros H. pose proof (loads_agrees s) as Ha. rewrite H in Ha. exact Ha.
Qed.

Lemma fenced_json_fields (RT : Runtime) (tag body : pystr)
  (d : list (pystr * value)) :
  json_tag tag ->
  Json.loads (strip body) = Some (PDict d) ->
  let r := parse_response (fenced tag body) in
  match dict_get d (lit "final answer"), dict_get d (lit "code") with
  | Some fa, _ =>
      type r = lit "final_answer" /\ content r = fa /\ final_answer r = fa
      /\ code_blocks r = []
  | None, Some code =>
      type r = lit "code" /\ code_blocks r = normalize_code code
      /\ content r = PStr (join [10; 10] (normalize_code code))
      /\ analysis r = match dict_get d (lit "analysis") with
                      | Some a => a
                      | None => PNone
                      end
  | None, None =>
      type r = type (parse_fallback (fenced tag body) (fenced tag body))
  end.
Proof.
  intros Htag Hl. cbv zeta. rewrite parse_response_tiers.
  2:{ rewrite fenced_stripped. discriminate. }
  rewrite fenced_stripped, (fence_removed tag body Htag), Hl.
  destruct (dict_get d (lit "final answer")); [cbn; auto|].
  destruct (dict_get d (lit "code")); cbn; auto.
Qed.

(** X4. A JSON object in a Markdown fence is parsed as the object itself:
    when json.loads reads the body between the fences, white space aside,
    as a JSON object, the parser returns, and the result is the final
    answer the object holds under its key, or else the code it holds,
    normalised into blocks, with its analysis. *)
Theorem fenced_json_parsed (RT : Runtime) (PY : Limits.Interpreter)
  (tag body : pystr) (d : list (pystr * value)) :
  json_tag tag ->
  Limits.loads (strip body) = Limits.Parsed (PDict d) ->
  exists r,
    Limits.parse_response (fenced tag body) = Limits.Returns r
    /\ match dict_get d (lit "final answer"), dict_get d (lit "code") with
       | Some fa, _ =>
           type r = lit "final_answer" /\ content r = fa
           /\ final_answer r = fa /\ code_blocks r = []
       | None, Some code =>
           type r = lit "code" /\ code_blocks r = normalize_code code
           /\ content r = PStr (join [10; 10] (normalize_code code))
           /\ analysis r = match dict_get d (lit "analysis") with
                           | Some a => a
                           | None => PNone
                           end
       | None, None =>
           type r
           = type (parse_fallback (fenced tag body) (fenced tag body))
       end.
Proof.
  intros Htag Hl. exists (parse_response (fenced tag body)). split.
  - apply (limits_parse_response_parsed RT PY _ (PDict d)).
    rewrite fenced_stripped, (fence_removed tag body Htag). exact Hl.
  - apply (fenced_json_fields RT tag body d Htag).
    apply (limits_loads_parsed PY), Hl.
Qed.

(** The theorem at the code object with a list of blocks, in a plain
    fence. *)
Lemma fenced_json_parsed_witness :
  exists r,
    Limits.parse_response (I := cpython) (RT := plain_runtime)
      (fenced [] reply_code_list)
    = Limits.Returns r
    /\ type r = lit "code" /\ code_blocks r = [lit "a"; lit "b"]
    /\ content r = PStr (lit "a" ++ [10; 10] ++ lit "b")
    /\ analysis r = PStr (lit "x").
Proof.
  refine (fenced_json_parsed plain_runtime cpython [] reply_code_list
            [(lit "code", PList [PStr (lit "a"); PStr (lit "b")]);
             (lit "analysis", PStr (lit "x"))] _ _).
  - left. reflexivity.
  - vm_compute. reflexivity.
Defined.

Lemma parse_fields_of_strip (RT : Runtime) (a b : pystr) :
  strip a = strip b ->
  let ra := parse_response a in
  let rb := parse_response b in
  type ra = type rb /\ content ra = content rb
  /\ code_blocks ra = code_blocks rb /\ final_answer ra = final_answer rb
  /\ analysis ra = analysis rb /\ delegation ra = delegation rb
  /\ requires_followup ra = requires_followup rb.
Proof.
  intros E. cbv zeta. unfold parse_response. rewrite E.
  assert (Hfb : forall text,
             let x := parse_fallback a text in
             let y := parse_fallback b text in
             type x = type y /\ content x = content y
             /\ code_blocks x = code_blocks y
             /\ final_answer x = final_answer y
             /\ analysis x = analysis y /\ delegation x = delegation y
             /\ requires_followup x = requires_followup y).
  { intros text. unfold parse_fallback.
    destruct (Re.search answer_re text); [cbn; tauto|].
    destruct (Re.search code_re text); cbn; tauto. }
  destruct (strip b) as [|c r]; [cbn; tauto|].
  destruct (Json.loads (_strip_backticks_if_needed (c :: r))) as [v|];
    [destruct v as [| | | | | |d] |]; try apply Hfb.
  destruct (dict_get d (lit "final answer")); [cbn; tauto|].
  destruct (dict_get d (lit "code")); [cbn; tauto|].
  apply Hfb.
Qed.

(** X5. White space around a reply does not matter: of two replies that
    are equal once stripped, either both are parsed, to results that agree
    in every field but the raw response, or both make the parser raise the
    same exception. *)
Theorem parse_ignores_outer_space (RT : Runtime) (PY : Limits.Interpreter)
  (a b : pystr) :
  strip a = strip b ->
  match Limits.parse_response a, Limits.parse_response b with
  | Limits.Returns ra, Limits.Returns rb =>
      type ra = type rb /\ content ra = content rb
      /\ code_blocks ra = code_blocks rb /\ final_answer ra = final_answer rb
      /\ analysis ra = analysis rb /\ delegation ra = delegation rb
      /\ requires_followup ra = requires_followup rb
  | Limits.Raises ea, Limits.Raises eb => ea = eb
  | _, _ => False
  end.
Proof.
  intros E. pose proof (parse_fields_of_strip RT a b E) as Hf.
  cbv zeta in Hf. rewrite !limits_parse_response_eq, E.
  destruct (strip b); [exact Hf|].
  destruct (Limits.loads _); first [exact Hf | reflexivity].
Qed.

(** The theorem at the answer object with and without white space around
    it. *)
Lemma parse_ignores_outer_space_witness :
  match Limits.parse_response (I := cpython) (RT := plain_runtime)
          ([32; 10] ++ reply_answer_4 ++ [9]),
        Limits.parse_response (I := cpython) (RT := plain_runtime)
          reply_answer_4 with
  | Limits.Returns ra, Limits.Returns rb =>
      type ra = type rb /\ content ra = content rb
      /\ code_blocks ra = code_blocks rb /\ final_answer ra = final_answer rb
      /\ analysis ra = analysis rb /\ delegation ra = delegation rb
      /\ requires_followup ra = requires_followup rb
  | Limits.Raises ea, Limits.Raises eb => ea = eb
  | _, _ => False
  end.
Proof.
  apply (parse_ignores_outer_space plain_runtime cpython
           ([32; 10] ++ reply_answer_4 ++ [9]) reply_answer_4).
  vm_compute. reflexivity.
Defined.

End FenceClaims.

Section PatternFacts.
Import Re Props.

Lemma star_split {R : Type} (p : char -> bool) (s : pystr)
  (k : pystr -> option R) (x : R) :
  star p s k = Some x ->
  exists m s', s = m ++ s' /\ Forall (fun c => p c = true) m /\ k s' = Some x.
Proof.
  induction s as [|c r IH]; cbn.
  - intros H. exists [], []. auto.
  - destruct (p c) eqn:E.
    + destruct (star p r k) as [y|] eqn:Es.
      * intros H. inversion H; subst.
        destruct (IH eq_refl) as (m & s' & -> & Hm & Hk).
        exists (c :: m), s'. auto.
      * intros H. exists [], (c :: r). auto.
    + intros H. exists [], (c :: r). auto.
Qed.

(** A match of a pattern without a group hands the group text on as it
    got it. *)
Lemma run_groupless (r : re) :
  groupless r = true ->
  forall s cap k g,
    run r s cap k = Some g -> exists s', k s' cap = Some g.
Proof.
  induction r as [|p|p|a IHa b IHb|a IHa b IHb|a IHa]; cbn [groupless run];
    intros Hg s cap k g H.
  - eauto.
  - destruct s as [|c s']; [discriminate|].
    destruct (p c); [eauto | discriminate].
  - destruct (star_split _ _ _ _ H) as (m & s' & _ & _ & Hk). eauto.
  - apply andb_true_iff in Hg. destruct Hg as [Ha Hb].
    destruct (IHa Ha _ _ _ _ H) as (s1 & H1). eapply IHb; eauto.
  - apply andb_true_iff in Hg. destruct Hg as [Ha Hb].
    destruct (run a s cap k) as [x|] eqn:E.
    + inversion H; subst. eapply IHa; eauto.
    + eapply IHb; eauto.
  - discriminate.
Qed.

Lemma text_groupless (s : pystr) : groupless (text s) = true.
Proof. induction s as [|c r IH]; cbn; [reflexivity | exact IH]. Qed.

(** The group of one or more characters of a class captures just that. *)
Lemma run_group_plus (p : char -> bool) (s cap : pystr)
  (k : pystr -> pystr -> option pystr) (g : pystr) :
  run (Grp (plus p)) s cap k = Some g ->
  exists c m s',
    p c = true /\ Forall (fun x => p x = true) m /\ k s' (c :: m) = Some g.
Proof.
  cbn [run plus]. destruct s as [|c s1]; [discriminate|].
  destruct (p c) eqn:E; [|discriminate].
  intros H. destruct (star_split _ _ _ _ H) as (m & s' & -> & Hm & Hk).
  exists c, m, s'. split; [exact E|]. split; [exact Hm|].
  assert (Hf : firstn (List.length (c :: m ++ s') - List.length s')
                 (c :: m ++ s') = c :: m).
  { cbn [List.length]. rewrite length_app.
    replace (S (List.length m + List.length s') - List.length s')%nat
      with (S (List.length m)) by lia.
    cbn [firstn]. f_equal.
    rewrite <- (Nat.add_0_r (List.length m)), firstn_app_2. cbn.
    apply app_nil_r. }
  rewrite Hf in Hk. exact Hk.
Qed.

(** What a keyed fragment captures. *)
Lemma keyed_fragment_captures (key s g : pystr) :
  search (keyed_fragment key) s = Some g -> captured_text g.
Proof.
  assert (Hm : forall s0, match_ (keyed_fragment key) s0 = Some g ->
                          captured_text g).
  { clear s. intros s. unfold match_, keyed_fragment. cbn [seq run].
    intros H.
    destruct s as [|c0 s]; [discriminate|].
    destruct (only 123 c0); [|discriminate].
    destruct (star_split _ _ _ _ H) as (m1 & s1 & _ & _ & H1). clear H.
    destruct (run_groupless _ (text_groupless (quoted key)) _ _ _ _ H1)
      as (s2 & H2). clear H1.
    destruct (star_split _ _ _ _ H2) as (m3 & s3 & _ & _ & H3). clear H2.
    destruct s3 as [|c3 s3]; [discriminate|].
    destruct (only 58 c3); [|discriminate].
    destruct (star_split _ _ _ _ H3) as (m4 & s4 & _ & _ & H4). clear H3.
    destruct s4 as [|c4 s4]; [discriminate|].
    destruct (only dq c4); [|discriminate].
    change (run (Grp (plus (except dq))) s4 []
              (fun s' cap' =>
                 run (seq [Chr (only dq); Star (except 125);
                           Chr (only 125)]) s' cap'
                   (fun _ cap => Some cap)) = Some g) in H4.
    destruct (run_group_plus _ _ _ _ _ H4) as (c & m & s5 & Hc & Hcs & H5).
    destruct (run_groupless
                (seq [Chr (only dq); Star (except 125); Chr (only 125)])
                eq_refl _ _ _ _ H5) as (s6 & H6).
    inversion H6; subst g.
    split; [discriminate|].
    constructor.
    - unfold except in Hc. intros ->. discriminate.
    - eapply Forall_impl; [|exact Hcs].
      unfold except. intros x Hx ->. discriminate. }
  induction s as [|c r IH]; cbn [search].
  - destruct (match_ (keyed_fragment key) []) eqn:E; [|discriminate].
    intros H; inversion H; subst. eapply Hm; eauto.
  - destruct (match_ (keyed_fragment key) (c :: r)) eqn:E.
    + intros H; inversion H; subst. eapply Hm; eauto.
    + exact IH.
Qed.

End PatternFacts.

Section PatternClaims.
Import LLMParser Props Examples.

(** X6. In the pattern tier of [parse_response] an extracted value is never
    empty and never holds a double quote: the result is a final answer
    whose content is such a text, or code with that text as its only block,
    or else the continuation with the whole text as content. *)
Theorem pattern_tier_values (RT : Runtime) (response text : pystr) :
  let r := parse_fallback response text in
  (exists v, captured_text v
             /\ type r = lit "final_answer"
             /\ content r = PStr v /\ final_answer r = PStr v
             /\ code_blocks r = [])
  \/ (exists v, captured_text v
                /\ type r = lit "code"
                /\ content r = PStr v /\ code_blocks r = [v])
  \/ (type r = lit "continuation" /\ content r = PStr text
      /\ code_blocks r = [] /\ requires_followup r = true).
Proof.
  cbv zeta. unfold parse_fallback.
  destruct (Re.search answer_re text) as [v|] eqn:Ea.
  { left. exists v. split; [eapply keyed_fragment_captures; eauto|].
    cbn. auto. }
  destruct (Re.search code_re text) as [v|] eqn:Ec.
  { right; left. exists v. split; [eapply keyed_fragment_captures; eauto|].
    cbn. auto. }
  right; right. cbn. auto.
Qed.

End PatternClaims.

(** * The strict check of the legacy entry point and the parser *)

Section StrictFacts.
Import LLMParser StrictJson Props Examples.

Lemma lower_char_backtick (c : char) :
  (lower_char c =? 96) = true -> (c =? 96) = true.
Proof.
  unfold lower_char. destruct ((65 <=? c) && (c <=? 90)) eqn:E; [|auto].
  apply andb_true_iff in E. destruct E as [E1 E2].
  apply N.leb_le in E1. apply N.leb_le in E2.
  intros H. apply N.eqb_eq in H. lia.
Qed.

Lemma startswith_lower_fence (t : pystr) :
  startswith (lower t) (lit "```json") = true ->
  startswith t (lit "```") = true.
Proof.
  destruct t as [|a [|b [|c t]]]; cbn; try discriminate;
    try (intros H; apply andb_true_iff in H; destruct H as [_ H];
         try (apply andb_true_iff in H; destruct H as [_ H]);
         discriminate).
  intros H.
  apply andb_true_iff in H. destruct H as [Ha H].
  apply andb_true_iff in H. destruct H as [Hb H].
  apply andb_true_iff in H. destruct H as [Hc _].
  rewrite (lower_char_backtick a Ha), (lower_char_backtick b Hb),
    (lower_char_backtick c Hc).
  destruct t; reflexivity.
Qed.

(** A stripped text without a fence at either end goes through
    [_strip_backticks_if_needed] unchanged. *)
Lemma unfenced_unchanged (t : pystr) :
  startswith (strip t) (lit "```") = false ->
  endswith (strip t) (lit "```") = false ->
  _strip_backticks_if_needed (strip t) = strip t.
Proof.
  intros Hs He. rewrite _strip_backticks_eq. cbv zeta.
  rewrite strip_idem.
  destruct (startswith (lower (strip t)) (lit "```json")) eqn:El.
  { apply startswith_lower_fence in El. congruence. }
  rewrite Hs, He. apply strip_idem.
Qed.

Lemma only_key_get {A : Type} (k : pystr) (d : list (pystr * A)) :
  only_key k (dict_keys d) = true -> exists v, dict_get d k = Some v.
Proof.
  destruct d as [|[k' v] r]; cbn; [discriminate|].
  intros H. apply andb_true_iff in H. destruct H as [H _].
  apply str_eqb_eq in H. subst k'. rewrite str_eqb_refl. eauto.
Qed.

Lemma dict_get_outside {A : Type} (P : pystr -> bool) (k : pystr)
  (d : list (pystr * A)) :
  forallb P (dict_keys d) = true -> P k = false -> dict_get d k = None.
Proof.
  intros H Hk. induction d as [|[k' v] r IH]; cbn in *; [reflexivity|].
  apply andb_true_iff in H. destruct H as [H1 H2].
  destruct (str_eqb k' k) eqn:E.
  - apply str_eqb_eq in E. congruence.
  - apply IH, H2.
Qed.

(** X7. What the strict check of the legacy entry point accepts, the parser
    takes at its first tier: on a text for which [_is_strict_json] returns
    True the parser returns, and the result is a final answer, or code with
    exactly one block, the code string of the object; it is never a
    continuation. *)
Theorem strict_json_is_parsed (RT : Runtime) (PY : Limits.Interpreter)
  (text : pystr) :
  _is_strict_json text = Limits.Returns true ->
  exists r,
    Limits.parse_response text = Limits.Returns r
    /\ requires_followup r = false
    /\ ((type r = lit "final_answer" /\ code_blocks r = []
         /\ final_answer r = content r)
        \/ (type r = lit "code"
            /\ exists code,
                 code_blocks r = [code] /\ content r = PStr code)).
Proof.
  unfold _is_strict_json. intros H. exists (parse_response text).
  destruct (strip text) as [|c0 r0] eqn:Es; [discriminate|].
  rewrite <- Es in H. cbv zeta in H.
  destruct (startswith (strip text) (lit "```")) eqn:E1; [discriminate|].
  destruct (endswith (strip text) (lit "```")) eqn:E2; [discriminate|].
  cbn [orb] in H.
  destruct (Limits.loads (strip text)) as [[| | | | | |d]| | |e] eqn:El;
    try discriminate.
  split.
  { apply (limits_parse_response_parsed RT PY text (PDict d)).
    rewrite (unfenced_unchanged text E1 E2). exact El. }
  apply limits_loads_parsed in El.
  rewrite parse_response_tiers by (rewrite Es; discriminate).
  rewrite (unfenced_unchanged text E1 E2), El.
  destruct (only_key (lit "final answer") (dict_keys d)) eqn:Ek.
  - destruct (only_key_get _ _ Ek) as (fa & ->). cbn. auto.
  - match type of H with
    | Limits.Returns ?x = _ =>
        assert (H' : x = true) by congruence; clear H; rename H' into H
    end.
    apply andb_true_iff in H. destruct H as [H Hc].
    apply andb_true_iff in H. destruct H as [_ Hall].
    rewrite (dict_get_outside _ (lit "final answer") d Hall eq_refl).
    destruct (dict_get d (lit "code")) as [[| | | |code| |]|];
      try discriminate.
    cbn. split; [reflexivity|]. right. split; [reflexivity|].
    exists code. auto.
Qed.

(** The theorem at the code object of the reference replies. *)
Lemma strict_json_is_parsed_witness :
  exists r,
    Limits.parse_response (I := cpython) (RT := plain_runtime)
      reply_code_print
    = Limits.Returns r
    /\ requires_followup r = false
    /\ ((type r = lit "final_answer" /\ code_blocks r = []
         /\ final_answer r = content r)
        \/ (type r = lit "code"
            /\ exists code,
                 code_blocks r = [code] /\ content r = PStr code)).
Proof.
  apply (strict_json_is_parsed plain_runtime cpython reply_code_print).
  vm_compute. reflexivity.
Defined.

End StrictFacts.

(** * Further properties of the provider client *)

Section BoundedFacts.
Import Props.
Context {W : World}.

Lemma bounded_refl (st : State) : bounded 0 0 st st.
Proof. exists []. rewrite app_nil_r. cbn. auto. Qed.

Lemma count_app (kind : event -> bool) (a b : list event) :
  count kind (a ++ b) = (count kind a + count kind b)%nat.
Proof. unfold count. rewrite filter_app, length_app. reflexivity. Qed.

Lemma bounded_trans (r1 s1 r2 s2 : nat) (a b c : State) :
  bounded r1 s1 a b -> bounded r2 s2 b c -> bounded (r1 + r2) (s1 + s2) a c.
Proof.
  intros (t1 & L1 & R1 & S1) (t2 & L2 & R2 & S2).
  exists (t1 ++ t2). rewrite L2, L1, app_assoc, !count_app.
  split; [reflexivity | lia].
Qed.

Lemma bounded_weaken (r s r' s' : nat) (a b : State) :
  (r <= r')%nat -> (s <= s')%nat -> bounded r s a b -> bounded r' s' a b.
Proof.
  intros Hr Hs (tr & L & R1 & S1). exists tr. split; [exact L | lia].
Qed.

Lemma bounded_record (e : event) (st : State) :
  bounded (if is_request e then 1 else 0) (if is_sleep e then 1 else 0)
    st (record e st).
Proof.
  exists [e]. split; [reflexivity|]. unfold count. cbn.
  destruct (is_request e), (is_sleep e); cbn; lia.
Qed.

Lemma keeps_bounded_weaken {A : Type} (r s r' s' : nat) (m : M A) :
  (r <= r')%nat -> (s <= s')%nat ->
  keeps (bounded r s) m -> keeps (bounded r' s') m.
Proof.
  intros Hr Hs Hm st o st' H. eapply bounded_weaken; eauto.
Qed.

Lemma keeps_bounded_bind {A B : Type} (r1 s1 r2 s2 : nat) (m : M A)
  (k : A -> M B) :
  keeps (bounded r1 s1) m -> (forall a, keeps (bounded r2 s2) (k a)) ->
  keeps (bounded (r1 + r2) (s1 + s2)) (bind m k).
Proof.
  intros Hm Hk st o st' H. unfold bind in H.
  destruct (m st) as [[a|e] st1] eqn:E.
  - eapply bounded_trans; [eapply Hm | eapply Hk]; eauto.
  - inversion H; subst.
    eapply bounded_weaken; [| |eapply Hm; eauto]; lia.
Qed.

Lemma keeps_bounded_ret {A : Type} (r s : nat) (a : A) :
  keeps (bounded r s) (ret a).
Proof.
  intros st o st' H. inversion H; subst.
  eapply bounded_weaken; [| |apply bounded_refl]; lia.
Qed.

Import Clients.

Lemma bounded_one (e : event) (st st' : State) :
  log st' = log st ++ [e] ->
  bounded (if is_request e then 1 else 0) (if is_sleep e then 1 else 0)
    st st'.
Proof.
  intros L. exists [e]. split; [exact L|]. unfold count. cbn.
  destruct (is_request e), (is_sleep e); cbn; lia.
Qed.

Lemma cache_get_bounded (key : pystr) : keeps (bounded 0 0) (cache_get key).
Proof.
  intros st o st' H. apply (bounded_one (EvCacheGet key)).
  unfold cache_get in H.
  repeat match type of H with
         | context [match ?x with _ => _ end] => destruct x
         end; inversion H; subst; reflexivity.
Qed.

Lemma cache_set_bounded (key value : pystr) (expire : Z) :
  keeps (bounded 0 0) (cache_set key value expire).
Proof.
  intros st o st' H. apply (bounded_one (EvCacheSet key value expire)).
  unfold cache_set in H.
  destruct (disk_ok (step st)); inversion H; subst; reflexivity.
Qed.

Lemma on_failure_bounded (self : LLMClient) (attempt : Z) :
  keeps (bounded 0 (if (attempt <=? max_retries self)%Z then 1 else 0))
    (on_failure self attempt).
Proof.
  unfold on_failure. destruct (attempt <=? max_retries self)%Z.
  - intros st o st' H. inversion H; subst.
    apply (bounded_one (EvSleep attempt (backoff_base self)
                          (urandom (step st)))).
    reflexivity.
  - apply keeps_bounded_ret.
Qed.

Lemma request_bounded {A : Type} (provider prompt : pystr)
  (answer : nat -> A) :
  keeps (bounded 1 0) (interact (EvRequest provider prompt) answer).
Proof.
  intros st o st' H. inversion H; subst.
  apply (bounded_one (EvRequest provider prompt)). reflexivity.
Qed.

(** The number of sleeps still ahead when the counter stands at
    [attempt]. *)
Lemma sleeps_ahead (self : LLMClient) (attempt : Z) :
  ((if (attempt + 1 <=? max_retries self)%Z then 1 else 0)
   + Z.to_nat (max_retries self - (attempt + 1))
   <= Z.to_nat (max_retries self - attempt))%nat.
Proof. destruct (attempt + 1 <=? max_retries self)%Z eqn:E; lia. Qed.

(** A failed attempt and the rest of the loop. *)
Lemma retry_bounded {A : Type} (self : LLMClient) (attempt : Z) (fuel : nat)
  (rest : M A) :
  keeps (bounded fuel (Z.to_nat (max_retries self - (attempt + 1)))) rest ->
  keeps (bounded fuel (Z.to_nat (max_retries self - attempt)))
    (bind (on_failure self (attempt + 1)) (fun _ => rest)).
Proof.
  intros Hrest.
  eapply keeps_bounded_weaken;
    [| |apply keeps_bounded_bind;
        [apply on_failure_bounded | intros _; exact Hrest]].
  - lia.
  - apply sleeps_ahead.
Qed.

Lemma skip_bounded {A : Type} (self : LLMClient) (attempt : Z) (fuel : nat)
  (rest : M A) :
  keeps (bounded fuel (Z.to_nat (max_retries self - (attempt + 1)))) rest ->
  keeps (bounded fuel (Z.to_nat (max_retries self - attempt))) rest.
Proof. apply keeps_bounded_weaken; lia. Qed.

Lemma store_bounded (key t : pystr) (r s : nat) :
  keeps (bounded r s) (bind (cache_set key t 900) (fun _ => ret (Some t))).
Proof.
  eapply keeps_bounded_weaken;
    [| |apply keeps_bounded_bind;
        [apply cache_set_bounded
        |intros _; apply (keeps_bounded_ret 0 0)]]; lia.
Qed.

Lemma gemini_loop_bounded (self : LLMClient) (prompt key : pystr)
  (fuel : nat) :
  forall attempt,
    keeps (bounded fuel (Z.to_nat (max_retries self - attempt)))
      (gemini_loop self prompt key fuel attempt).
Proof.
  induction fuel as [|fuel IH]; intros attempt; cbn [gemini_loop].
  - apply keeps_bounded_ret.
  - change (S fuel) with (1 + fuel)%nat.
    change (Z.to_nat (max_retries self - attempt))
      with (0 + Z.to_nat (max_retries self - attempt))%nat.
    apply keeps_bounded_bind; [apply request_bounded|].
    intros [msg|text candidates].
    + apply retry_bounded, IH.
    + destruct (nonempty text) as [t|]; [apply store_bounded|].
      destruct candidates as [[parts|e]|].
      * destruct (strip (List.concat parts));
          [apply skip_bounded, IH | apply store_bounded].
      * apply retry_bounded, IH.
      * apply skip_bounded, IH.
Qed.

Lemma nvidia_loop_bounded (self : LLMClient) (prompt key : pystr)
  (fuel : nat) :
  forall attempt,
    keeps (bounded fuel (Z.to_nat (max_retries self - attempt)))
      (nvidia_loop self prompt key fuel attempt).
Proof.
  induction fuel as [|fuel IH]; intros attempt; cbn [nvidia_loop].
  - apply keeps_bounded_ret.
  - change (S fuel) with (1 + fuel)%nat.
    change (Z.to_nat (max_retries self - attempt))
      with (0 + Z.to_nat (max_retries self - attempt))%nat.
    apply keeps_bounded_bind; [apply request_bounded|].
    intros [msg|deltas].
    + apply retry_bounded, IH.
    + destruct (stream_text deltas);
        [apply skip_bounded, IH | apply store_bounded].
Qed.

Lemma openai_loop_bounded (self : LLMClient) (prompt key : pystr)
  (fuel : nat) :
  forall attempt,
    keeps (bounded fuel (Z.to_nat (max_retries self - attempt)))
      (openai_loop self prompt key fuel attempt).
Proof.
  induction fuel as [|fuel IH]; intros attempt; cbn [openai_loop].
  - apply keeps_bounded_ret.
  - change (S fuel) with (1 + fuel)%nat.
    change (Z.to_nat (max_retries self - attempt))
      with (0 + Z.to_nat (max_retries self - attempt))%nat.
    apply keeps_bounded_bind; [apply request_bounded|].
    intros [msg|[|[[|c r]|] choices]];
      [apply retry_bounded, IH | apply skip_bounded, IH
      | apply skip_bounded, IH | apply store_bounded
      | apply skip_bounded, IH].
Qed.

(** A provider call: the look-up, then the loop from attempt 0. *)
Lemma call_bounded (self : LLMClient) (key : pystr)
  (loop : nat -> Z -> M (option pystr)) :
  (forall fuel attempt,
      keeps (bounded fuel (Z.to_nat (max_retries self - attempt)))
        (loop fuel attempt)) ->
  keeps (bounded (Z.to_nat (max_retries self + 1))
           (Z.to_nat (max_retries self)))
    (bind (cache_get key)
       (fun cached =>
          match nonempty cached with
          | Some c => ret (Some c)
          | None => loop (Z.to_nat (max_retries self + 1)) 0%Z
          end)).
Proof.
  intros Hloop.
  change (Z.to_nat (max_retries self + 1))
    with (0 + Z.to_nat (max_retries self + 1))%nat.
  change (Z.to_nat (max_retries self))
    with (0 + Z.to_nat (max_retries self))%nat.
  apply keeps_bounded_bind; [apply cache_get_bounded|].
  intros cached. destruct (nonempty cached); [apply keeps_bounded_ret|].
  replace (max_retries self) with (max_retries self - 0)%Z at 2 by lia.
  apply Hloop.
Qed.

End BoundedFacts.

Section BoundedClaims.
Import Clients Props Examples.

(** X8. A provider call sends at most [max_retries + 1] requests and sleeps
    at most [max_retries] times, whatever the provider answers: the retry
    loop is bounded, and there is no back-off after the last attempt. *)
Theorem provider_call_bounded (W : World) (self : LLMClient)
  (prompt : pystr) (st st' : State) (o : outcome (option pystr)) :
  call_gemini self prompt st = (o, st')
  \/ call_nvidia self prompt st = (o, st')
  \/ call_openai self prompt st = (o, st') ->
  exists tr,
    log st' = log st ++ tr
    /\ (count is_request tr <= Z.to_nat (max_retries self + 1))%nat
    /\ (count is_sleep tr <= Z.to_nat (max_retries self))%nat.
Proof.
  intros [H|[H|H]]; revert H;
    [unfold call_gemini | unfold call_nvidia | unfold call_openai];
    match goal with
    | |- (if ?b then _ else _) _ = _ -> _ => destruct b
    end;
    try (intros H; inversion H; subst; exists []; rewrite app_nil_r;
         cbn; repeat split; lia);
    intros H.
  - refine (call_bounded self _ _ _ _ _ _ H).
    intros fuel attempt. apply gemini_loop_bounded.
  - refine (call_bounded self _ _ _ _ _ _ H).
    intros fuel attempt. apply nvidia_loop_bounded.
  - refine (call_bounded self _ _ _ _ _ _ H).
    intros fuel attempt. apply openai_loop_bounded.
Qed.

(** The bound at a call of Gemini in a world in which every request
    raises: three requests and two sleeps with the default two retries. *)
Lemma provider_call_bounded_witness :
  exists tr,
    log (snd (call_gemini (W := silent_world) demo_client question
                init_state))
    = log init_state ++ tr
    /\ (count is_request tr <= 3)%nat /\ (count is_sleep tr <= 2)%nat.
Proof.
  apply (provider_call_bounded silent_world demo_client question init_state
           (snd (call_gemini (W := silent_world) demo_client question
                   init_state))
           (fst (call_gemini (W := silent_world) demo_client question
                   init_state))).
  left. vm_compute. reflexivity.
Defined.

End BoundedClaims.

Section ReturnFacts.
Import Clients Props.
Context {W : World}.















End ReturnFacts.

Section CacheClaims.
Import Clients Props Examples Cases.



(** X10. A reply that is in the cache is served from it: when the store
    works and holds, under the key of the prompt and the model, a text that
    is not empty and has not expired, the call returns that text after the
    one look-up, with no request to the provider and no write to the
    cache. *)
Theorem cached_reply_served (W : World) (self : LLMClient)
  (prompt : pystr) (st : State) (c : char) (r : pystr) (expiry : time) :
  disk_ok (step st) = true ->
  (clock (step st) < expiry)%Z ->
  (forall key,
      gemini_client self = true ->
      key = lit "llm:gemini:"
            ++ str_of_Z (py_hash prompt (gemini_model self)) ->
      dict_get (cache st) key = Some (c :: r, expiry) ->
      call_gemini self prompt st
      = (Ok (Some (c :: r)), record (EvCacheGet key) st))
  /\ (forall key,
         nv_client self = true ->
         key = lit "llm:nvidia:"
               ++ str_of_Z (py_hash prompt (nvidia_model self)) ->
         dict_get (cache st) key = Some (c :: r, expiry) ->
         call_nvidia self prompt st
         = (Ok (Some (c :: r)), record (EvCacheGet key) st))
  /\ (forall key,
         openai_client self = true ->
         key = lit "llm:openai:"
               ++ str_of_Z (py_hash prompt (openai_model self)) ->
         dict_get (cache st) key = Some (c :: r, expiry) ->
         call_openai self prompt st
         = (Ok (Some (c :: r)), record (EvCacheGet key) st)).
Proof.
  intros Hd Ht. apply Z.ltb_lt in Ht.
  split; [|split]; intros key Hc -> Hg.
  - unfold call_gemini. rewrite Hc. cbn [negb].
    unfold bind, cache_get. rewrite Hd, Hg, Ht. reflexivity.
  - unfold call_nvidia. rewrite Hc. cbn [negb].
    unfold bind, cache_get. rewrite Hd, Hg, Ht. reflexivity.
  - unfold call_openai. rewrite Hc. cbn [negb].
    unfold bind, cache_get. rewrite Hd, Hg, Ht. reflexivity.
Qed.

(** The theorem at a second call of Gemini with the prompt of a first call
    that obtained the answer. *)
Lemma cached_reply_served_witness :
  call_gemini (W := gemini_world) demo_client question warm_state
  = (Ok (Some reply_answer_4),
     record (EvCacheGet (lit "llm:gemini:12")) warm_state).
Proof.
  refine (proj1 (cached_reply_served gemini_world demo_client question
                   warm_state 123 (tl reply_answer_4) 902000%Z _ _)
            (lit "llm:gemini:12") _ _ _).
  - reflexivity.
  - vm_compute. reflexivity.
  - reflexivity.
  - reflexivity.
  - vm_compute. reflexivity.
Defined.

End CacheClaims.

Section BreakerClaims.
Import Clients Props Examples.

Lemma fail_times_below (W : World) (n : nat) :
  forall (b : _Breaker) (st : State),
    (failures b + Z.of_nat n < threshold b)%Z ->
    fail_times n b st
    = (Ok {| failures := failures b + Z.of_nat n;
             threshold := threshold b;
             cooldown_sec := cooldown_sec b;
             block_until := block_until b |}, st).
Proof.
  induction n as [|n IH]; intros b st H.
  - cbn [fail_times]. unfold ret. destruct b; cbn. do 2 f_equal.
    f_equal. lia.
  - cbn [fail_times]. unfold bind, record_failure.
    assert (E : (threshold b <=? failures b + 1)%Z = false).
    { apply Z.leb_gt. lia. }
    rewrite E. unfold ret at 1. rewrite IH by (cbn; lia).
    cbn. do 3 f_equal. lia.
Qed.

Lemma fail_times_snoc (W : World) (n : nat) :
  forall (b : _Breaker) (st : State),
    fail_times (S n) b st = bind (fail_times n b) record_failure st.
Proof.
  induction n as [|n IH]; intros b st.
  - cbn [fail_times]. unfold bind, ret.
    destruct (record_failure b st) as [[x|e] s]; reflexivity.
  - change (fail_times (S (S n)) b)
      with (bind (record_failure b) (fail_times (S n))).
    change (fail_times (S n) b)
      with (bind (record_failure b) (fail_times n)).
    unfold bind.
    destruct (record_failure b st) as [[x|e] s]; [|reflexivity].
    rewrite IH. reflexivity.
Qed.

(** X11. A breaker opens at the failure that reaches its threshold, and not
    before: the failures below the threshold read no clock and leave
    [block_until] as it was, and the one that reaches it blocks the breaker
    for the cooldown from the time of that failure. *)
Theorem breaker_trips_at_threshold (W : World) (b : _Breaker) (n : nat)
  (st : State) :
  threshold b = (failures b + Z.of_nat (S n))%Z ->
  (forall k, (k <= n)%nat ->
             exists bk,
               fail_times k b st = (Ok bk, st)
               /\ failures bk = (failures b + Z.of_nat k)%Z
               /\ block_until bk = block_until b)
  /\ exists b',
       fail_times (S n) b st = (Ok b', record (EvClock (clock (step st))) st)
       /\ failures b' = threshold b
       /\ block_until b' = (clock (step st) + seconds (cooldown_sec b))%Z.
Proof.
  intros Ht. split.
  - intros k Hk. eexists. split; [apply fail_times_below; lia|].
    split; reflexivity.
  - rewrite fail_times_snoc. unfold bind at 1.
    rewrite fail_times_below by lia.
    unfold record_failure. cbn [failures threshold cooldown_sec].
    assert (E2 : (threshold b <=? failures b + Z.of_nat n + 1)%Z = true).
    { apply Z.leb_le. lia. }
    rewrite E2. unfold bind, time_time, ret.
    eexists. split; [reflexivity|]. cbn. split; [lia | reflexivity].
Qed.

(** The theorem at a new breaker: the third failure in a row opens it for
    120 seconds. *)
Lemma breaker_trips_at_threshold_witness :
  exists b',
    fail_times (W := silent_world) 3 new_Breaker init_state
    = (Ok b', record (EvClock 0%Z) init_state)
    /\ failures b' = 3%Z
    /\ block_until b' = 120000%Z.
Proof.
  apply (breaker_trips_at_threshold silent_world new_Breaker 2 init_state).
  reflexivity.
Defined.

End BreakerClaims.

(** * Further properties of the executor *)

Section ImportFacts.
Import CodeExecutor Props.
Context {W : World}.









End ImportFacts.

Section ImportClaims.
Import CodeExecutor Props.


End ImportClaims.

Section RunFacts.
Import CodeExecutor Props.
Context {W : World}.



(** With a session at hand, [run_script] is [execute_script], and that is
    the write of the script, the installation of its packages if there
    are any, and its run. *)
Lemma run_script_in_session (code : code_arg) (files : list (pystr * pystr))
  (st : State) (c wd : pystr) :
  _active_container st = Some c -> _work_dir st = Some wd ->
  run_script code files st
  = bind
      (attempt (EvWrite (path_join wd (lit "script.py")) (source_text code))
         (fun n => write_text n (path_join wd (lit "script.py"))
                     (source_text code)))
      (fun _ =>
         bind
           match _extract_imports (source_text code) with
           | [] => ret tt
           | packages =>
               bind (subprocess_run (pip_install c packages) (Some 60%Z)
                       false)
                 (fun _ => ret tt)
           end
           (fun _ =>
              subprocess_run
                [lit "docker"; lit "exec"; c; lit "python"; lit "script.py"]
                (Some CODE_EXEC_TIMEOUT) false)) st.
Proof.
  intros Hc Hw. unfold run_script. unfold bind at 1 2. unfold get at 1.
  rewrite Hc. unfold ret at 1. unfold execute_script.
  unfold bind at 1. unfold get at 1. rewrite Hc, Hw.
  destruct code; reflexivity.
Qed.

End RunFacts.

Section RunClaims.
Import CodeExecutor Props Examples Cases.



(** X14. A call that finds a session and keeps the container open reuses
    it: it creates no directory, copies no file and starts no container,
    it writes the script into the work directory of the session and runs
    at most two commands, both inside the container of the session; and
    the session is afterwards what it was. *)
Theorem session_reused (W : World) (code : code_arg)
  (files : list (pystr * pystr)) (st st' : State) (c wd : pystr)
  (o : outcome (list (pystr * value))) :
  _active_container st = Some c ->
  _work_dir st = Some wd ->
  run_code code files true st = (o, st') ->
  _active_container st' = Some c
  /\ _work_dir st' = Some wd
  /\ dirs st' = dirs st
  /\ exists tr,
       log st'
       = log st
         ++ EvWrite (path_join wd (lit "script.py")) (source_text code) :: tr
       /\ Forall (exec_in c) tr
       /\ (List.length tr <= 2)%nat.
Proof.
  intros Hc Hw. rewrite run_code_keep_eq.
  rewrite (run_script_in_session code files st c wd Hc Hw).
  unfold bind at 1. unfold attempt at 1.
  set (e0 := EvWrite (path_join wd (lit "script.py")) (source_text code)).
  set (py := [lit "docker"; lit "exec"; c; lit "python"; lit "script.py"]).
  assert (Hpy : exec_in c (EvRun py)) by (eexists; reflexivity).
  destruct (write_text (step st) _ _) as [[]|e].
  2:{ intros H; inversion H; subst. cbn.
      repeat split; try assumption. exists []. auto. }
  unfold bind at 1.
  destruct (_extract_imports (source_text code)) as [|p ps].
  - unfold ret at 1.
    destruct (subprocess_run py (Some CODE_EXEC_TIMEOUT) false
                (record e0 st)) as [r st2] eqn:E.
    apply subprocess_run_state in E. subst st2.
    intros H.
    assert (st' = record (EvRun py) (record e0 st)) as ->.
    { destruct r as [[[rc out] err]|e]; inversion H; reflexivity. }
    cbn. repeat split; try assumption.
    exists [EvRun py]. split; [rewrite <- app_assoc; reflexivity|].
    split; [auto | cbn; lia].
  - set (pip := pip_install c (p :: ps)).
    assert (Hpip : exec_in c (EvRun pip)) by (eexists; reflexivity).
    unfold bind at 1.
    destruct (subprocess_run pip (Some 60%Z) false (record e0 st))
      as [r1 st1] eqn:E1.
    apply subprocess_run_state in E1. subst st1.
    destruct r1 as [x|e].
    + unfold ret at 1.
      destruct (subprocess_run py (Some CODE_EXEC_TIMEOUT) false
                  (record (EvRun pip) (record e0 st))) as [r st2] eqn:E.
      apply subprocess_run_state in E. subst st2.
      intros H.
      assert (st' = record (EvRun py) (record (EvRun pip) (record e0 st)))
        as ->.
      { destruct r as [[[rc out] err]|e]; inversion H; reflexivity. }
      cbn. repeat split; try assumption.
      exists [EvRun pip; EvRun py].
      split; [rewrite <- !app_assoc; reflexivity|].
      split; [auto | cbn; lia].
    + intros H; inversion H; subst. cbn. repeat split; try assumption.
      exists [EvRun pip]. split; [rewrite <- app_assoc; reflexivity|].
      split; [auto | cbn; lia].
Qed.

(** The theorem at a second run of print(1) in the session the first one
    has left. *)
Lemma session_reused_witness :
  let st' := snd (run_code (W := silent_world) print_1 [] true
                    session_state) in
  _active_container st' = Some (lit "sandbox_01234567")
  /\ _work_dir st' = Some (lit "/tmp/sandbox_w")
  /\ dirs st' = dirs session_state
  /\ exists tr,
       log st'
       = log session_state
         ++ EvWrite (path_join (lit "/tmp/sandbox_w") (lit "script.py"))
              (source_text print_1) :: tr
       /\ Forall (exec_in (lit "sandbox_01234567")) tr
       /\ (List.length tr <= 2)%nat.
Proof.
  refine (session_reused silent_world print_1 [] session_state _
            (lit "sandbox_01234567") (lit "/tmp/sandbox_w")
            (fst (run_code (W := silent_world) print_1 [] true
                    session_state)) _ _ _).
  - reflexivity.
  - reflexivity.
  - vm_compute. reflexivity.
Defined.

(** X15. An installation of packages that outlasts its 60 seconds ends the
    call: in a session, when the script is written and [pip install] runs
    longer than that, [run_code] returns the failure with the text
    Execution timed out., the same as for a script that is too slow, and
    the script is never run. *)
Theorem slow_install_times_out (W : World) (code : code_arg)
  (files : list (pystr * pystr)) (st : State) (c wd : pystr)
  (duration rc : Z) (out err : pystr) :
  let script := path_join wd (lit "script.py") in
  let packages := _extract_imports (source_text code) in
  _active_container st = Some c ->
  _work_dir st = Some wd ->
  write_text (step st) script (source_text code) = Ok tt ->
  packages <> [] ->
  spawn (S (step st)) (pip_install c packages)
  = Finished duration rc out err ->
  (seconds 60 < duration)%Z ->
  run_code code files true st
  = (Ok (exec_result false [] (lit "Execution timed out.")),
     record (EvRun (pip_install c packages))
       (record (EvWrite script (source_text code)) st)).
Proof.
  intros script packages Hc Hw Hwrite Hne Hspawn Hlate.
  rewrite run_code_keep_eq.
  rewrite (run_script_in_session code files st c wd Hc Hw).
  unfold bind at 1. unfold attempt at 1. fold script. rewrite Hwrite.
  unfold bind at 1. fold packages.
  destruct packages as [|p ps] eqn:Ep; [congruence|].
  unfold bind at 1. unfold subprocess_run at 1.
  cbn [step record]. rewrite Hspawn.
  apply Z.ltb_lt in Hlate. rewrite Hlate. reflexivity.
Qed.

(** The theorem at a script that imports requests, in the session of an
    earlier run. *)
Lemma slow_install_times_out_witness :
  run_code (W := slow_pip_world) import_requests [] true session_state
  = (Ok (exec_result false [] (lit "Execution timed out.")),
     record
       (EvRun (pip_install (lit "sandbox_01234567") [lit "requests"]))
       (record
          (EvWrite (lit "/tmp/sandbox_w/script.py")
             (source_text import_requests))
          session_state)).
Proof.
  refine (slow_install_times_out slow_pip_world import_requests []
            session_state (lit "sandbox_01234567") (lit "/tmp/sandbox_w")
            61000 0 [] [] _ _ _ _ _ _).
  - reflexivity.
  - reflexivity.
  - reflexivity.
  - vm_compute. discriminate.
  - vm_compute. reflexivity.
  - reflexivity.
Defined.

(** X16. [CodeExecutor.cleanup] is idempotent: after a clean-up that has
    returned, from a state of the executor that is in order, a second one
    runs no command, deletes nothing and changes nothing. *)
Theorem cleanup_idempotent (W : World) (st st1 : State) :
  session_ok st ->
  cleanup st = (Ok tt, st1) ->
  cleanup st1 = (Ok tt, st1).
Proof.
  intros Hok H.
  destruct (cleanup_tears_down st st1 Hok H) as (Hc & Hw & _).
  unfold cleanup, _cleanup_container.
  cbv beta iota delta [bind get ret modify rmtree].
  rewrite Hc, Hw. reflexivity.
Qed.

(** The theorem at the clean-up of the session of an earlier run. *)
Lemma cleanup_idempotent_witness :
  cleanup (W := silent_world) (snd (cleanup (W := silent_world) session_state))
  = (Ok tt, snd (cleanup (W := silent_world) session_state)).
Proof.
  apply (cleanup_idempotent silent_world session_state).
  - split; [discriminate|]. intros wd E. vm_compute in E.
    inversion E; subst. vm_compute. left. reflexivity.
  - vm_compute. reflexivity.
Defined.

End RunClaims.

(** * Further properties of the orchestrator *)

Section ReturnRelation.
Import Props.
Context {W : World}.
Variable R : State -> State -> Prop.
Hypothesis R_refl : forall st, R st st.
Hypothesis R_trans : forall a b c, R a b -> R b c -> R a c.

Lemma keeps_on_return_of_keeps {A : Type} (m : M A) :
  keeps R m -> keeps_on_return R m.
Proof. intros H st a st' E. eapply H; eauto. Qed.

Lemma keeps_on_return_ret {A : Type} (a : A) : keeps_on_return R (ret a).
Proof. intros st a' st' H. inversion H; subst. apply R_refl. Qed.

Lemma keeps_on_return_raise {A : Type} (e : exn) :
  keeps_on_return R (raise (A := A) e).
Proof. intros st a st' H. inversion H. Qed.

Lemma keeps_on_return_bind {A B : Type} (m : M A) (k : A -> M B) :
  keeps_on_return R m -> (forall a, keeps_on_return R (k a)) ->
  keeps_on_return R (bind m k).
Proof.
  intros Hm Hk st b st' H. unfold bind in H.
  destruct (m st) as [[a|e] st1] eqn:E; [|inversion H].
  eapply R_trans; [eapply Hm | eapply Hk]; eauto.
Qed.

End ReturnRelation.

Section OrchestratorFrame.
Import LLMOrchestrator Props.
Context {RT : Runtime} {W : World}.
Variable R : State -> State -> Prop.
Hypothesis R_refl : forall st, R st st.
Hypothesis R_trans : forall a b c, R a b -> R b c -> R a c.
Hypothesis R_record : forall e st, R st (record e st).
Hypothesis R_store : forall e c st, R st (set_cache c (record e st)).
Hypothesis R_run :
  forall code files, keeps_on_return R (CodeExecutor.run code files).

Lemma provider_keeps (self : LLMOrchestrator) (api : pystr)
  (fn : pystr -> M (option pystr)) (prompt : pystr) :
  provider self api = Some fn -> keeps R (fn prompt).
Proof.
  unfold provider.
  destruct (str_eqb api (lit "openai")).
  { intros H; inversion H; subst. apply call_openai_keeps; assumption. }
  destruct (str_eqb api (lit "nvidia")).
  { intros H; inversion H; subst. apply call_nvidia_keeps; assumption. }
  destruct (str_eqb api (lit "gemini")); [|discriminate].
  intros H; inversion H; subst. apply call_gemini_keeps; assumption.
Qed.

Lemma _call_with_timeout_keeps (self : LLMOrchestrator) (api : pystr)
  (fn : pystr -> M (option pystr)) (prompt : pystr) :
  provider self api = Some fn -> keeps R (_call_with_timeout api fn prompt).
Proof.
  intros Hp st o st' H. unfold _call_with_timeout in H.
  destruct (fn prompt (record (EvInvoke api prompt) st)) as [r st2] eqn:E.
  assert (st' = st2) as ->.
  { destruct r; destruct (overdue (step st)); inversion H; reflexivity. }
  eapply R_trans; [apply R_record|].
  eapply provider_keeps; eauto.
Qed.

Lemma api_loop_keeps (self : LLMOrchestrator) (api initial_prompt : pystr)
  (files : list (pystr * pystr)) (d : time) (fuel : nat) :
  forall history prompt iteration,
    keeps_on_return R
      (api_loop self api initial_prompt files d fuel history prompt
         iteration).
Proof.
  induction fuel as [|fuel IH]; intros history prompt iteration;
    cbn [api_loop].
  - apply keeps_on_return_ret, R_refl.
  - apply keeps_on_return_bind; [exact R_trans | |intros now].
    { apply keeps_on_return_of_keeps, keeps_time_time.
      intros t st. apply R_record. }
    destruct (d <=? now)%Z; [apply keeps_on_return_ret, R_refl|].
    destruct (provider self api) as [fn|] eqn:Ep;
      [|apply keeps_on_return_ret, R_refl].
    apply keeps_on_return_bind; [exact R_trans | |intros llm_output].
    { apply keeps_on_return_of_keeps.
      eapply _call_with_timeout_keeps; eauto. }
    destruct (Clients.nonempty llm_output) as [out|];
      [|apply keeps_on_return_ret, R_refl].
    destruct (str_eqb _ (lit "final_answer"));
      [apply keeps_on_return_ret, R_refl|].
    match goal with
    | |- keeps_on_return _ (if ?b then _ else _) => destruct b
    end.
    + apply keeps_on_return_bind; [exact R_trans | apply R_run |].
      intros exec_results. apply IH.
    + apply IH.
Qed.

Lemma _run_api_loop_keeps (self : LLMOrchestrator) (api prompt : pystr)
  (files : list (pystr * pystr)) :
  keeps_on_return R (_run_api_loop self api prompt files).
Proof.
  unfold _run_api_loop.
  apply keeps_on_return_bind; [exact R_trans | |intros start].
  - apply keeps_on_return_of_keeps, keeps_time_time.
    intros t st. apply R_record.
  - apply api_loop_keeps.
Qed.

Lemma feedback_loop_keeps (self : LLMOrchestrator) (prompt : pystr)
  (files : list (pystr * pystr)) :
  keeps_on_return R (feedback_loop self prompt files).
Proof.
  unfold feedback_loop. generalize apis as todo.
  induction todo as [|api rest IH]; cbn [try_apis].
  - apply keeps_on_return_ret, R_refl.
  - apply keeps_on_return_bind; [exact R_trans | |intros result].
    + apply _run_api_loop_keeps.
    + destruct (dict_get result (lit "success")) as [success|];
        [|apply keeps_on_return_raise].
      destruct (truthy success); [apply keeps_on_return_ret, R_refl|].
      exact IH.
Qed.

End OrchestratorFrame.

Section SessionFacts.
Import CodeExecutor Props.
Context {W : World}.

Lemma idle_session_ok (st : State) : idle st -> session_ok st.
Proof.
  intros [Hc Hw]. split; [rewrite Hc; discriminate|].
  intros wd E. rewrite Hw in E. discriminate.
Qed.

(** A run with the default flag that returns leaves no session. *)
Lemma run_default_idle (code : code_arg) (files : list (pystr * pystr))
  (st st' : State) (d : list (pystr * value)) :
  session_ok st -> run code files st = (Ok d, st') -> idle st'.
Proof.
  intros Hok. unfold run.
  assert (Hkeep : forall o st1,
             run_code code files true st = (o, st1) -> session_ok st1).
  { intros o st1. apply run_code_keep_session_ok, Hok. }
  rewrite run_code_default_eq. revert Hkeep. rewrite run_code_keep_eq.
  assert (Hdown : forall a b, session_ok a ->
                              _cleanup_container a = (Ok tt, b) -> idle b).
  { intros a b Ha Hab.
    destruct (cleanup_tears_down a b Ha Hab) as (H1 & H2 & _).
    split; assumption. }
  destruct (run_script code files st) as [[[[rc out] err]|e] st1];
    intros Hkeep; specialize (Hkeep _ _ eq_refl).
  - destruct (_cleanup_container st1) as [[[]|e] st2] eqn:E1.
    + intros H; inversion H; subst. eapply Hdown; eauto.
    + destruct (_cleanup_container st2) as [[[]|e'] st3] eqn:E2;
        intros H; inversion H; subst.
      destruct (cleanup_raises_unchanged _ _ _ E1) as (A & B & C & _).
      apply (Hdown st2); [|assumption].
      destruct Hkeep as [Hn Hd]. split.
      * rewrite A. exact Hn.
      * intros wd Ewd. rewrite C. apply Hd. rewrite <- B. exact Ewd.
  - destruct (_cleanup_container st1) as [[[]|e'] st2] eqn:E1;
      intros H; inversion H; subst.
    eapply Hdown; eauto.
Qed.

End SessionFacts.

Section LoopClaims.
Import LLMOrchestrator Props Examples.

(** X17. The feedback loop leaves no session behind: started with no
    container and no work directory recorded, whenever it returns, after
    any number of code iterations with any provider, again none is
    recorded. *)
Theorem feedback_loop_leaves_no_session (RT : Runtime) (W : World)
  (self : LLMOrchestrator) (prompt : pystr) (files : list (pystr * pystr))
  (st st' : State) (result : list (pystr * value)) :
  _active_container st = None ->
  _work_dir st = None ->
  feedback_loop self prompt files st = (Ok result, st') ->
  _active_container st' = None /\ _work_dir st' = None.
Proof.
  intros Hc Hw H.
  refine (feedback_loop_keeps (fun a b => idle a -> idle b)
            _ _ _ _ _ self prompt files st result st' H (conj Hc Hw)).
  - auto.
  - auto.
  - intros e a Ha. exact Ha.
  - intros e c a Ha. exact Ha.
  - intros code fs a d b Hrun Ha.
    eapply run_default_idle; [apply idle_session_ok, Ha | exact Hrun].
Qed.

(** The theorem at the run in which NVIDIA returns code and then the
    answer. *)
Lemma feedback_loop_leaves_no_session_witness :
  let st' := snd (feedback_loop (RT := plain_runtime) (W := code_world)
                    demo_orchestrator question [] init_state) in
  _active_container st' = None /\ _work_dir st' = None.
Proof.
  refine (feedback_loop_leaves_no_session plain_runtime code_world
            demo_orchestrator question [] init_state _
            (match fst (feedback_loop (RT := plain_runtime)
                          (W := code_world) demo_orchestrator question []
                          init_state) with
             | Ok r => r
             | Raise _ => []
             end) _ _ _).
  - reflexivity.
  - reflexivity.
  - vm_compute. reflexivity.
Defined.

(** X18. The feedback loop never changes a breaker: whenever it returns,
    whatever the providers have answered and however often they have
    failed, the breakers are what they were before. *)
Theorem feedback_loop_leaves_breakers (RT : Runtime) (W : World)
  (self : LLMOrchestrator) (prompt : pystr) (files : list (pystr * pystr))
  (st st' : State) (result : list (pystr * value)) :
  feedback_loop self prompt files st = (Ok result, st') ->
  _breakers st' = _breakers st.
Proof.
  intros H.
  refine (feedback_loop_keeps (fun a b => _breakers b = _breakers a)
            _ _ _ _ _ self prompt files st result st' H).
  - auto.
  - intros a b c H1 H2. congruence.
  - auto.
  - auto.
  - intros code fs. apply keeps_on_return_of_keeps.
    apply (run_code_frame (fun a b => _breakers b = _breakers a));
      try (intros; reflexivity).
    intros a b c H1 H2. congruence.
Qed.

(** The theorem at the run in which no provider answers. *)
Lemma feedback_loop_leaves_breakers_witness :
  _breakers (snd (feedback_loop (RT := plain_runtime) (W := silent_world)
                    demo_orchestrator question [] init_state))
  = _breakers init_state.
Proof.
  apply (feedback_loop_leaves_breakers plain_runtime silent_world
           demo_orchestrator question [] init_state _ all_failed).
  vm_compute. reflexivity.
Defined.

End LoopClaims.

Section AttemptFacts.
Import LLMOrchestrator Props.
Context {RT : Runtime} {W : World}.

Lemma client_events_no_invocation (api : pystr) (body : list event) :
  Forall (client_event api) body -> invocations body = O.
Proof.
  intros H. apply (invocations_body api).
  eapply Forall_impl; [|exact H]. intros e He. left. exact He.
Qed.

Lemma executor_events_no_invocation (body : list event) :
  Forall executor_event body -> invocations body = O.
Proof.
  intros H. apply (invocations_body []).
  eapply Forall_impl; [|exact H]. intros e He. right. exact He.
Qed.

(** A success of the loop of an attempt: the reply that ended it, and the
    number of invocations it took. *)
Lemma api_loop_success (self : LLMOrchestrator) (api initial_prompt : pystr)
  (files : list (pystr * pystr)) (d : time) (fuel : nat) :
  forall history prompt iteration st r st',
    api_loop self api initial_prompt files d fuel history prompt iteration st
    = (Ok r, st') ->
    dict_get r (lit "success") = Some (PBool true) ->
    exists n out tr,
      r = succeeded api (iteration + Z.of_nat n)
            (LLMParser.parse_llm_response out) out
      /\ out <> []
      /\ LLMParser.type (LLMParser.parse_llm_response out)
         = lit "final_answer"
      /\ (1 <= n <= fuel)%nat
      /\ log st' = log st ++ tr
      /\ invocations tr = n.
Proof.
  induction fuel as [|fuel IH];
    intros history prompt iteration st r st' H Hs.
  - inversion H; subst. discriminate.
  - cbn [api_loop] in H. unfold bind at 1 in H. unfold time_time at 1 in H.
    set (t := clock (step st)) in *.
    set (st1 := record (EvClock t) st) in *.
    destruct (d <=? t)%Z; [inversion H; subst; discriminate|].
    destruct (provider self api) as [fn|] eqn:Ep;
      [|inversion H; subst; discriminate].
    unfold bind at 1 in H.
    destruct (_call_with_timeout api fn prompt st1) as [o st2] eqn:Ec.
    destruct (_call_with_timeout_trace self api fn prompt _ _ _ Ep Ec)
      as (body1 & L1 & F1).
    pose proof (client_events_no_invocation api body1 F1) as N1.
    destruct o as [llm_output|e]; [|inversion H].
    destruct (Clients.nonempty llm_output) as [out|] eqn:En;
      [|inversion H; subst; discriminate].
    destruct (nonempty_some _ _ En) as [Hne _].
    destruct (str_eqb _ (lit "final_answer")) eqn:Et.
    { inversion H; subst. apply str_eqb_eq in Et.
      exists 1%nat, out, (EvClock t :: EvInvoke api prompt :: body1).
      split; [reflexivity|]. split; [exact Hne|]. split; [exact Et|].
      split; [lia|]. split.
      - rewrite L1. cbn. rewrite <- app_assoc. reflexivity.
      - change (S (invocations body1) = 1%nat). rewrite N1. reflexivity. }
    match type of H with
    | (if ?b then _ else _) _ = _ => destruct b
    end.
    + unfold bind at 1 in H.
      match type of H with
      | context [CodeExecutor.run ?c ?f st2] =>
          destruct (CodeExecutor.run c f st2) as [r2 st3] eqn:Er
      end.
      destruct (run_emits _ _ _ _ _ Er) as (body2 & L2 & F2).
      pose proof (executor_events_no_invocation body2 F2) as N2.
      destruct r2 as [exec_results|e]; [|inversion H].
      destruct (IH _ _ _ _ _ _ H Hs)
        as (n & out' & tr & -> & Hne' & Ht' & Hn & L & N).
      exists (S n), out',
        (EvClock t :: EvInvoke api prompt :: body1 ++ body2 ++ tr).
      split;
        [replace (iteration + Z.of_nat (S n))%Z
           with (iteration + 1 + Z.of_nat n)%Z by lia; reflexivity|].
      split; [exact Hne'|].
      split; [exact Ht'|]. split; [lia|]. split.
      * rewrite L, L2, L1. cbn. rewrite <- !app_assoc. reflexivity.
      * change (S (invocations (body1 ++ body2 ++ tr)) = S n).
        rewrite !invocations_app, N1, N2, N. reflexivity.
    + destruct (IH _ _ _ _ _ _ H Hs)
        as (n & out' & tr & -> & Hne' & Ht' & Hn & L & N).
      exists (S n), out', (EvClock t :: EvInvoke api prompt :: body1 ++ tr).
      split;
        [replace (iteration + Z.of_nat (S n))%Z
           with (iteration + 1 + Z.of_nat n)%Z by lia; reflexivity|].
      split; [exact Hne'|].
      split; [exact Ht'|]. split; [lia|]. split.
      * rewrite L, L1. cbn. rewrite <- !app_assoc. reflexivity.
      * change (S (invocations (body1 ++ tr)) = S n).
        rewrite !invocations_app, N1, N. reflexivity.
Qed.

End AttemptFacts.

Section AttemptClaims.
Import LLMOrchestrator Props Examples.

(** X19. A success of an attempt tells how it came about: its raw output is
    a reply that is not empty and that the parser takes for a final answer,
    its final answer is the content of that parse, and its iterations field
    is the number of invocations of the provider in the attempt, at least
    one and at most [max_iterations]. *)
Theorem attempt_success_details (RT : Runtime) (W : World)
  (self : LLMOrchestrator) (api prompt : pystr)
  (files : list (pystr * pystr)) (st st' : State)
  (result : list (pystr * value)) :
  _run_api_loop self api prompt files st = (Ok result, st') ->
  dict_get result (lit "success") = Some (PBool true) ->
  exists n out tr,
    log st' = log st ++ tr
    /\ invocations tr = n
    /\ (1 <= n <= Z.to_nat (max_iterations self))%nat
    /\ out <> []
    /\ LLMParser.type (LLMParser.parse_llm_response out) = lit "final_answer"
    /\ dict_get result (lit "raw_output") = Some (PStr out)
    /\ dict_get result (lit "final_answer")
       = Some (LLMParser.content (LLMParser.parse_llm_response out))
    /\ dict_get result (lit "iterations") = Some (PInt (Z.of_nat n))
    /\ dict_get result (lit "api_used") = Some (PStr api).
Proof.
  unfold _run_api_loop. unfold bind at 1, time_time at 1. intros H Hs.
  destruct (api_loop_success _ _ _ _ _ _ _ _ _ _ _ _ H Hs)
    as (n & out & tr & -> & Hne & Ht & Hn & L & N).
  exists n, out, (EvClock (clock (step st)) :: tr).
  split; [rewrite L; cbn; rewrite <- app_assoc; reflexivity|].
  split; [exact N|]. split; [exact Hn|]. split; [exact Hne|].
  split; [exact Ht|]. repeat split; reflexivity.
Qed.

(** The theorem at the attempt in which NVIDIA returns code and then the
    answer: two invocations. *)
Lemma attempt_success_details_witness :
  let run :=
    _run_api_loop (RT := plain_runtime) (W := code_world) demo_orchestrator
      (lit "nvidia") question [] init_state in
  exists n out tr,
    log (snd run) = log init_state ++ tr
    /\ invocations tr = n
    /\ (1 <= n <= 9)%nat
    /\ out <> []
    /\ LLMParser.type (LLMParser.parse_llm_response (RT := plain_runtime) out)
       = lit "final_answer"
    /\ dict_get (match fst run with Ok r => r | Raise _ => [] end)
         (lit "raw_output") = Some (PStr out)
    /\ dict_get (match fst run with Ok r => r | Raise _ => [] end)
         (lit "final_answer")
       = Some (LLMParser.content
                 (LLMParser.parse_llm_response (RT := plain_runtime) out))
    /\ dict_get (match fst run with Ok r => r | Raise _ => [] end)
         (lit "iterations") = Some (PInt (Z.of_nat n))
    /\ dict_get (match fst run with Ok r => r | Raise _ => [] end)
         (lit "api_used") = Some (PStr (lit "nvidia")).
Proof.
  cbv zeta.
  refine (attempt_success_details plain_runtime code_world demo_orchestrator
            (lit "nvidia") question [] init_state
            (snd (_run_api_loop (RT := plain_runtime) (W := code_world)
                    demo_orchestrator (lit "nvidia") question []
                    init_state))
            (match fst (_run_api_loop (RT := plain_runtime)
                          (W := code_world) demo_orchestrator
                          (lit "nvidia") question [] init_state) with
             | Ok r => r
             | Raise _ => []
             end) _ _).
  - vm_compute. reflexivity.
  - vm_compute. reflexivity.
Defined.

(** X20. The failure of all providers is returned exactly when the
    attempts for nvidia, gemini and openai have run in this order and each
    has returned a failure. *)
Theorem all_failed_iff (RT : Runtime) (W : World) (self : LLMOrchestrator)
  (prompt : pystr) (files : list (pystr * pystr)) (st st' : State) :
  feedback_loop self prompt files st = (Ok all_failed, st')
  <-> failed_attempts self prompt files
        [lit "nvidia"; lit "gemini"; lit "openai"] st st'.
Proof.
  unfold feedback_loop. change apis with [lit "nvidia"; lit "gemini";
    lit "openai"].
  generalize [lit "nvidia"; lit "gemini"; lit "openai"] as todo.
  intros todo. revert st. induction todo as [|api rest IH]; intros st.
  - cbn [try_apis]. split.
    + intros H. inversion H; subst. constructor.
    + intros H. inversion H; subst. reflexivity.
  - cbn [try_apis]. unfold bind at 1. split.
    + destruct (_run_api_loop self api prompt files st) as [[r|e] st1] eqn:E;
        [|discriminate].
      pose proof (_run_api_loop_returns _ _ _ _ _ _ _ _ _ E) as Hr.
      destruct Hr as [->|[->|[->|[->|(it & parsed & out & ->)]]]];
        cbn [dict_get str_eqb lit N_of_ascii N.eqb Pos.eqb andb truthy
             max_iterations_reached deadline_exceeded unknown_api
             returned_none succeeded];
        try (intros H; eapply FA_cons; [exact E | reflexivity
                                       | apply IH; exact H]).
      cbn. intros H. inversion H.
    + intros H. inversion H as [|a r0 s0 s1 s2 r Ha Hr Hrest]; subst.
      rewrite Ha, Hr. cbn [truthy]. apply IH. exact Hrest.
Qed.

End AttemptClaims.
